(** * topology2qemuopts: NUMA/CXL topology to Qemu options

    A shallow embedding of [test/e2e/lib/topology2qemuopts.py] and the
    properties of its validator, distance builder, CXL builder and option
    assembler.

    Conventions of the embedding.
    - The parsed JSON document is a value of [jval].  Numbers are integers
      ([Z]); JSON numbers with a fraction or an exponent are not part of the
      model.  Strings are byte strings; Python's Unicode-only behaviour
      (non-ASCII digits and white space, the interpreter's limit on the
      number of digits [int] accepts) is not part of the model.
    - A JSON object is an association list in insertion order whose keys are
      read with [jget] (first match), as [json.loads] builds dictionaries
      without duplicate keys.
    - The list handed to [validate], [dists] and [qemuopts] is a list of JSON
      objects (the entries [validate] calls "dicts").
    - A raised exception is a value of [error]: the function returns
      [Err e] where Python raises, [Ok v] where it returns [v].
    - Loop counters and accumulators that the Python code mutates are
      threaded explicitly through records.  Variables that are written and
      never read ([groupnodes], [threads_set_node]) are left out.
    - [qemuopts] returns the pieces of its output line ([qemu_options]); how
      they are joined, which is all [SEPARATED_OUTPUT_VARS] selects, is not
      part of the model. *)

From Stdlib Require Import ZArith String Ascii List Lia.
From Stdlib Require DecimalString HexadecimalString DecimalZ DecimalPos.
From stdpp Require Import gmap strings list fin_maps sorting.

#[local] Open Scope Z_scope.
#[local] Set Warnings "-register-all".

(** ** Exceptions and the error monad *)

(** The [raise ValueError(...)] sites of the program, one constructor each. *)
Inductive value_error : Type :=
| SizeNotGigabytes        (* siadd/sisub: 'supports only sizes in gigabytes' *)
| InvalidLiteral          (* int(): invalid literal for int() with base 10 *)
| InvalidName             (* validate: 'invalid name %r in node %r' *)
| InvalidSize             (* validate: 'invalid %s in node %r, expected string like "2G"' *)
| InvalidRange            (* validate: 'invalid %s in node %r, expected integer %s' *)
| ThreadsWithoutCores     (* validate: 'threads set to %s but "cores" is 0' *)
| NoNumaNodes             (* dists: 'no NUMA nodes found' *)
| WrongDimensionsRows     (* dists: 'wrong dimensions in dist-all %s rows seen' *)
| WrongDimensionsRow      (* dists: 'wrong dimensions in dist-all on row %s' *)
| UnsupportedCxlInSwitch  (* cxlswitchopts: 'unsupported CXL device in switch %r' *)
| CxlWithOtherKeys        (* qemuopts: "when 'cxl' is defined, no other keys ..." *)
| ThreadMismatch          (* qemuopts: 'all CPUs must have the same number of threads' *)
| UnsupportedDimm         (* qemuopts: "unsupported dimm %r" *)
| NoCpus                  (* qemuopts: 'no CPUs found' *)
| NoMemory                (* qemuopts: 'no memory in any NUMA node' *)
| NoInitialMemory.        (* qemuopts: 'no initial memory in any NUMA node' *)

Inductive error : Type :=
| ValueError (e : value_error)
| TypeError
| KeyError
| AttributeError
| ZeroDivisionError
| BadCxlMemorySize.       (* Exception("bad memory size in CXL memory device ...") *)

Inductive result (A : Type) : Type :=
| Ok (a : A)
| Err (e : error).
Arguments Ok {A} a.
Arguments Err {A} e.

Definition bind {A B : Type} (c : result A) (k : A -> result B) : result B :=
  match c with
  | Ok a => k a
  | Err e => Err e
  end.

Notation "'let*' x ':=' c 'in' k" := (bind c (fun x => k))
  (at level 20, x pattern, c at level 100, k at level 200, only parsing).

Definition is_ok {A : Type} (r : result A) : bool :=
  match r with Ok _ => true | Err _ => false end.

(** [for x in l: s = body(x, s)], stopping at the first exception. *)
Fixpoint for_each {A S : Type} (body : A -> S -> result S) (l : list A) (s : S)
  : result S :=
  match l with
  | [] => Ok s
  | x :: l' => let* s' := body x s in for_each body l' s'
  end.

(** [for i, x in enumerate(l)], the index starting at [i]. *)
Fixpoint for_enumerate_from {A S : Type} (i : Z) (body : Z -> A -> S -> result S)
  (l : list A) (s : S) : result S :=
  match l with
  | [] => Ok s
  | x :: l' => let* s' := body i x s in for_enumerate_from (i + 1) body l' s'
  end.

Definition for_enumerate {A S : Type} := @for_enumerate_from A S 0.

(** [range(n)] and [range(a, b)]; both are empty when the bound is not above
    the start. *)
Definition range (n : Z) : list Z := seqZ 0 n.
Definition range2 (a b : Z) : list Z := seqZ a (b - a).

(** [for i in range(n)] with a body that cannot raise. *)
Definition for_range {S : Type} (n : Z) (body : Z -> S -> S) (s : S) : S :=
  fold_left (fun s i => body i s) (range n) s.

(** ** JSON values and the Python operations used on them *)

Inductive jval : Type :=
| JNull
| JBool (b : bool)
| JInt (z : Z)
| JStr (s : string)
| JList (l : list jval)
| JObj (kvs : list (string * jval)).

Definition jobj : Type := list (string * jval).

(** [d.get(key)] / [key in d] on a dictionary. *)
Fixpoint jget (d : jobj) (key : string) : option jval :=
  match d with
  | [] => None
  | (k, v) :: d' => if String.eqb k key then Some v else jget d' key
  end.

Definition jhas (d : jobj) (key : string) : bool :=
  match jget d key with Some _ => true | None => false end.

(** [d.get(key, default)] *)
Definition jget_default (d : jobj) (key : string) (default : jval) : jval :=
  match jget d key with Some v => v | None => default end.

Definition jkeys (d : jobj) : list string := map fst d.

(** Equality of JSON values as the program uses it: only comparisons with
    string and [None] constants occur. *)
Definition is_str (v : jval) (s : string) : bool :=
  match v with JStr s' => String.eqb s' s | _ => false end.

Definition is_none (v : jval) : bool :=
  match v with JNull => true | _ => false end.

(** Truth value of [if v:]. *)
Definition truthy (v : jval) : bool :=
  match v with
  | JNull => false
  | JBool b => b
  | JInt z => negb (z =? 0)
  | JStr s => negb (String.eqb s "")
  | JList l => match l with [] => false | _ => true end
  | JObj kvs => match kvs with [] => false | _ => true end
  end.

(** *** Strings *)

Definition str_of_Z (z : Z) : string :=
  DecimalString.NilZero.string_of_int (Z.to_int z).

(** ["%x" % z] *)
Definition hex_of_Z (z : Z) : string :=
  HexadecimalString.NilZero.string_of_int (Z.to_hex_int z).

Definition chars (s : string) : list ascii := list_ascii_of_string s.

(** [s[:-1]] *)
Definition drop_last (s : string) : string :=
  string_of_list_ascii (removelast (chars s)).

(** [s[n:]] *)
Definition str_from (n : nat) (s : string) : string :=
  string_of_list_ascii (drop n (chars s)).

Definition last_char (s : string) : option ascii := last (chars s).

(** [s.endswith(c)] for a one-character [c] *)
Definition endswith_char (s : string) (c : ascii) : bool :=
  match last_char s with Some c' => Ascii.eqb c' c | None => false end.

(** [s.lower().endswith("g")] *)
Definition lower_endswith_g (s : string) : bool :=
  endswith_char s "g" || endswith_char s "G".

(** [s.startswith("0")] *)
Definition startswith_0 (s : string) : bool :=
  match s with String c _ => Ascii.eqb c "0" | EmptyString => false end.

(** [needle in s] for strings: substring test. *)
Definition str_contains (needle s : string) : bool :=
  match String.index 0 needle s with Some _ => true | None => false end.

(** *** [int()] *)

(** White space that [int()] strips from an ASCII string: tab, line feed,
    vertical tab, form feed, carriage return and space.  (The separators
    28 .. 31, white space for [str.isspace], are not stripped.) *)
Definition is_space (c : ascii) : bool :=
  let n := nat_of_ascii c in
  ((9 <=? n)%nat && (n <=? 13)%nat) || (n =? 32)%nat.

Definition digit_of (c : ascii) : option Z :=
  let n := nat_of_ascii c in
  if ((48 <=? n)%nat && (n <=? 57)%nat)%bool then Some (Z.of_nat n - 48) else None.

Definition is_underscore (c : ascii) : bool := Ascii.eqb c "_".

(** Decimal digits, single underscores allowed between digits. *)
Fixpoint digits_value (acc : Z) (after_digit : bool) (l : list ascii) : option Z :=
  match l with
  | [] => if after_digit then Some acc else None
  | c :: l' =>
      match digit_of c with
      | Some d => digits_value (acc * 10 + d) true l'
      | None =>
          if (is_underscore c && after_digit)%bool
          then digits_value acc false l'
          else None
      end
  end.

Fixpoint lstrip (l : list ascii) : list ascii :=
  match l with
  | c :: l' => if is_space c then lstrip l' else l
  | [] => []
  end.

Definition strip (l : list ascii) : list ascii :=
  rev (lstrip (rev (lstrip l))).

Definition signed_value (l : list ascii) : option Z :=
  match l with
  | c :: l' =>
      if Ascii.eqb c "-" then Z.opp <$> digits_value 0 false l'
      else if Ascii.eqb c "+" then digits_value 0 false l'
      else digits_value 0 false l
  | [] => None
  end.

(** [int(s)] for a string [s]. *)
Definition int_of_str (s : string) : result Z :=
  match signed_value (strip (chars s)) with
  | Some z => Ok z
  | None => Err (ValueError InvalidLiteral)
  end.

(** [int(v)] for a JSON value. *)
Definition py_int (v : jval) : result Z :=
  match v with
  | JInt z => Ok z
  | JBool b => Ok (if b then 1 else 0)
  | JStr s => int_of_str s
  | JNull | JList _ | JObj _ => Err TypeError
  end.

(** *** [len()], iteration, membership and indexing *)

Definition py_len (v : jval) : result Z :=
  match v with
  | JStr s => Ok (Z.of_nat (String.length s))
  | JList l => Ok (Z.of_nat (length l))
  | JObj kvs => Ok (Z.of_nat (length kvs))
  | JNull | JBool _ | JInt _ => Err TypeError
  end.

(** The elements [for x in v] visits: the items of a list, the characters of
    a string, the keys of a dictionary. *)
Definition py_iter (v : jval) : result (list jval) :=
  match v with
  | JList l => Ok l
  | JStr s => Ok (map (fun c => JStr (String c EmptyString)) (chars s))
  | JObj kvs => Ok (map JStr (jkeys kvs))
  | JNull | JBool _ | JInt _ => Err TypeError
  end.

(** [key in v] for a string [key]. *)
Definition py_contains (key : string) (v : jval) : result bool :=
  match v with
  | JObj kvs => Ok (jhas kvs key)
  | JStr s => Ok (str_contains key s)
  | JList l => Ok (existsb (fun x => is_str x key) l)
  | JNull | JBool _ | JInt _ => Err TypeError
  end.

(** [v[key]] for a string [key]. *)
Definition py_getitem (v : jval) (key : string) : result jval :=
  match v with
  | JObj kvs => match jget kvs key with Some x => Ok x | None => Err KeyError end
  | _ => Err TypeError
  end.

(** [v.items()] *)
Definition py_items (v : jval) : result (list (string * jval)) :=
  match v with
  | JObj kvs => Ok kvs
  | _ => Err AttributeError
  end.

(** ** Size arithmetic *)

Definition siadd (s1 s2 : string) : result string :=
  if (lower_endswith_g s1 && lower_endswith_g s2)%bool then
    let* a := int_of_str (drop_last s1) in
    let* b := int_of_str (drop_last s2) in
    Ok (str_of_Z (a + b) +:+ "G")
  else Err (ValueError SizeNotGigabytes).

Definition sisub (s1 s2 : string) : result string :=
  if (lower_endswith_g s1 && lower_endswith_g s2)%bool then
    let* a := int_of_str (drop_last s1) in
    let* b := int_of_str (drop_last s2) in
    Ok (str_of_Z (a - b) +:+ "G")
  else Err (ValueError SizeNotGigabytes).

(** ** The validator *)

Definition valid_keys : list string :=
  ["mem"; "nvmem"; "dimm";
   "cores"; "threads"; "nodes"; "dies"; "packages";
   "cpus-present";
   "node-dist"; "dist-all";
   "dist-other-package"; "dist-same-package"; "dist-same-die";
   "cxl"]%string.

Definition str_in (key : string) (l : list string) : bool :=
  existsb (String.eqb key) l.

(** The predicates of [int_range_keys]. *)
Definition int_range_keys : list (string * (Z -> bool)) :=
  [("cores"%string, fun v => 0 <=? v);
   ("threads"%string, fun v => 0 <? v);
   ("nodes"%string, fun v => 0 <? v);
   ("dies"%string, fun v => 0 <? v);
   ("packages"%string, fun v => 0 <? v);
   ("cpus-present"%string, fun v => 0 <=? v)].

Fixpoint int_range_of (keys : list (string * (Z -> bool))) (key : string)
  : option (Z -> bool) :=
  match keys with
  | [] => None
  | (k, p) :: keys' => if String.eqb k key then Some p else int_range_of keys' key
  end.

(** The check of a [mem]/[nvmem] value; [true] stands for the [continue]
    taken on the value ["0"]. *)
Definition validate_size (val : jval) : result bool :=
  if is_str val "0" then Ok true
  else
    match val with
    | JStr s =>
        match siadd s "0G" with
        | Ok _ => Ok false
        | Err (ValueError _) => Err (ValueError InvalidSize)
        | Err e => Err e
        end
    | _ => Err (ValueError InvalidSize)
    end.

Definition validate_int_range (numaspec : jobj) (key : string) : result unit :=
  match int_range_of int_range_keys key with
  | Some holds =>
      match (let* x := py_getitem (JObj numaspec) key in py_int x) with
      | Ok val => if holds val then Ok tt else Err (ValueError InvalidRange)
      | Err _ => Err (ValueError InvalidRange)
      end
  | None => Ok tt
  end.

(** The body of [for key in numaspec]. *)
Definition validate_key (numaspec : jobj) (key : string) (_ : unit) : result unit :=
  if negb (str_in key valid_keys) then Err (ValueError InvalidName)
  else
    let* skip :=
      (if str_in key ["mem"; "nvmem"]%string
       then validate_size (jget_default numaspec key JNull)
       else Ok false) in
    if (skip : bool) then Ok tt
    else validate_int_range numaspec key.

(** The body of [for numalistindex, numaspec in enumerate(numalist)]. *)
Definition validate_spec (numaspec : jobj) (_ : unit) : result unit :=
  let* _ := for_each (validate_key numaspec) (jkeys numaspec) tt in
  if jhas numaspec "threads" then
    let* cores := py_int (jget_default numaspec "cores" (JInt 0)) in
    if cores =? 0 then Err (ValueError ThreadsWithoutCores) else Ok tt
  else Ok tt.

Definition validate (numalist : list jobj) : result unit :=
  for_each validate_spec numalist tt.

(** ** The distance matrix builder *)

Definition DEFAULT_DIST : Z := 21.
Definition DEFAULT_DIST_SAME_PACKAGE : Z := 21.
Definition DEFAULT_DIST_SAME_DIE : Z := 11.
Definition DEFAULT_DIST_SAME_NODE : Z := 10.

(** [{sourcenode: {destnode: dist}}] *)
Abbreviation dist_table := (gmap Z (gmap Z jval)).

(** The variables the node loops of [dists] update. *)
Record topo : Type := mkTopo {
  dist_dict : dist_table;
  node_package_die : gmap Z (Z * Z);
  sourcenode : Z;
  lastsocket : Z
}.

(** The local variables of [dists] after its first loop. *)
Record dvars : Type := mkDvars {
  topology : topo;
  dist : option jval;
  dist_same_die : jval;
  dist_same_package : jval;
  dist_other_package : jval;
  dist_matrix : jval;
  node_node_dist : dist_table;
  lastnode_in_group : Z
}.

Definition dists_init : dvars :=
  {| topology := {| dist_dict := ∅; node_package_die := ∅;
                    sourcenode := -1; lastsocket := -1 |};
     dist := None;
     dist_same_die := JInt DEFAULT_DIST_SAME_DIE;
     dist_same_package := JInt DEFAULT_DIST_SAME_PACKAGE;
     dist_other_package := JInt DEFAULT_DIST;
     dist_matrix := JNull;
     node_node_dist := ∅;
     lastnode_in_group := -1 |}.

(** The body of [for node in range(nodecount)]. *)
Definition dists_node (die : Z) (t : topo) : topo :=
  let sourcenode := sourcenode t + 1 in
  {| dist_dict := <[sourcenode := ∅]> (dist_dict t);
     node_package_die := <[sourcenode := (lastsocket t, die)]> (node_package_die t);
     sourcenode := sourcenode;
     lastsocket := lastsocket t |}.

(** The body of [for package in range(packagecount)]. *)
Definition dists_package (nodecount diecount : Z) (t : topo) : topo :=
  let t :=
    if 0 <? nodecount
    then {| dist_dict := dist_dict t; node_package_die := node_package_die t;
            sourcenode := sourcenode t; lastsocket := lastsocket t + 1 |}
    else t in
  for_range diecount (fun die t =>
    for_range nodecount (fun _ t => dists_node die t) t) t.

(** [{int(nodename): value for nodename, value in d.items()}] *)
Definition int_keyed (items : list (string * jval)) : result (gmap Z jval) :=
  for_each (fun '(nodename, value) m =>
              let* n := int_of_str nodename in Ok (<[n := value]> m))
           items ∅.

(** The body of [for groupindex, numaspec in enumerate(numalist)]. *)
Definition dists_group (numaspec : jobj) (v : dvars) : result dvars :=
  let* nodecount := py_int (jget_default numaspec "nodes" (JInt 1)) in
  let* corecount := py_int (jget_default numaspec "cores" (JInt 0)) in
  let* diecount := py_int (jget_default numaspec "dies" (JInt 1)) in
  let* packagecount := py_int (jget_default numaspec "packages" (JInt 1)) in
  let first_node_in_group := sourcenode (topology v) + 1 in
  let t := for_range packagecount
             (fun _ t => dists_package nodecount diecount t) (topology v) in
  let lastnode_in_group := sourcenode t + 1 in
  let dist :=
    match jget numaspec "dist" with Some x => Some x | None => dist v end in
  let dist_same_die :=
    match jget numaspec "dist-same-die" with Some x => x | None => dist_same_die v end in
  let dist_same_package :=
    match jget numaspec "dist-same-package" with
    | Some x => x | None => dist_same_package v end in
  let dist_matrix :=
    match jget numaspec "dist-all" with Some x => x | None => dist_matrix v end in
  let* node_node_dist :=
    match jget numaspec "node-dist" with
    | Some nd =>
        for_each (fun n nnd =>
                    let* items := py_items nd in
                    let* row := int_keyed items in
                    Ok (<[n := row]> nnd))
                 (range2 first_node_in_group lastnode_in_group)
                 (node_node_dist v)
    | None => Ok (node_node_dist v)
    end in
  Ok {| topology := t;
        dist := dist;
        dist_same_die := dist_same_die;
        dist_same_package := dist_same_package;
        dist_other_package := dist_other_package v;
        dist_matrix := dist_matrix;
        node_node_dist := node_node_dist;
        lastnode_in_group := lastnode_in_group |}.

(** [dist_dict[s][d] = x] *)
Definition set2 (dd : dist_table) (s d : Z) (x : jval) : result dist_table :=
  match dd !! s with
  | Some row => Ok (<[s := <[d := x]> row]> dd)
  | None => Err KeyError
  end.

(** [dist_dict[s][d]], when both keys are there *)
Definition get2 (dd : dist_table) (s d : Z) : option jval :=
  match dd !! s with
  | Some row => row !! d
  | None => None
  end.

(** Filling [dist_dict] from [dist_matrix]. *)
Definition fill_from_matrix (dist_matrix : jval) (lastnode : Z) (dd : dist_table)
  : result dist_table :=
  let* nrows := py_len dist_matrix in
  if negb (nrows =? lastnode + 1) then Err (ValueError WrongDimensionsRows)
  else
    let* rows := py_iter dist_matrix in
    for_enumerate
      (fun sourcenode row dd =>
         let* ncols := py_len row in
         if negb (ncols =? lastnode + 1) then Err (ValueError WrongDimensionsRow)
         else
           let* cells := py_iter row in
           for_enumerate
             (fun destnode source_dest_dist dd =>
                set2 dd sourcenode destnode source_dest_dist)
             cells dd)
      rows dd.

Definition lookup_or_keyerror {V : Type} (m : gmap Z V) (k : Z) : result V :=
  match m !! k with Some x => Ok x | None => Err KeyError end.

(** The distance the topology gives a pair of nodes. *)
Definition topology_dist (v : dvars) (sourcenode destnode : Z) : result jval :=
  let* pd_s := lookup_or_keyerror (node_package_die (topology v)) sourcenode in
  let* pd_d := lookup_or_keyerror (node_package_die (topology v)) destnode in
  if ((pd_s.1 =? pd_d.1) && (pd_s.2 =? pd_d.2))%bool then Ok (dist_same_die v)
  else if pd_s.1 =? pd_d.1 then Ok (dist_same_package v)
  else Ok (dist_other_package v).

(** The body of [for destnode in range(lastnode + 1)] in the branch without
    a [dist-all] matrix. *)
Definition fill_pair (v : dvars) (sourcenode destnode : Z) (dd : dist_table)
  : result dist_table :=
  if sourcenode =? destnode then
    set2 dd sourcenode destnode (JInt DEFAULT_DIST_SAME_NODE)
  else
    match get2 (node_node_dist v) sourcenode destnode with
    | Some x =>
        let* dd := set2 dd sourcenode destnode x in
        set2 dd destnode sourcenode x
    | None =>
        let* row := lookup_or_keyerror dd sourcenode in
        match row !! destnode with
        | None =>
            let* x := topology_dist v sourcenode destnode in
            set2 dd sourcenode destnode x
        | Some _ => Ok dd
        end
    end.

Definition fill_from_topology (v : dvars) (lastnode : Z) (dd : dist_table)
  : result dist_table :=
  for_each (fun sourcenode dd =>
              for_each (fun destnode dd => fill_pair v sourcenode destnode dd)
                       (range (lastnode + 1)) dd)
           (range (lastnode + 1)) dd.

Definition dists_first_pass (numalist : list jobj) : result dvars :=
  for_each dists_group numalist dists_init.

Definition dists (numalist : list jobj) : result dist_table :=
  let* v := dists_first_pass numalist in
  if lastnode_in_group v <? 0 then Err (ValueError NoNumaNodes)
  else
    let lastnode := lastnode_in_group v - 1 in
    if negb (is_none (dist_matrix v))
    then fill_from_matrix (dist_matrix v) lastnode (dist_dict (topology v))
    else fill_from_topology v lastnode (dist_dict (topology v)).

(** ** The CXL builder *)

(** The variables the nested functions of [qemucxlopts] share. *)
Record cxlvars : Type := mkCxl {
  cxl_objectparams : list string;
  cxl_deviceparams : list string;
  total_mem_sizeM : Z;
  mem_count : Z;
  port_count : Z;
  slot : Z
}.

Definition chassis : Z := 193. (* 0xc1 *)

Definition cxl_init : cxlvars :=
  {| cxl_objectparams := []; cxl_deviceparams := [];
     total_mem_sizeM := 0; mem_count := 0; port_count := 0; slot := 0 |}.

(** [cxl_deviceparams.extend(["-device", param])] *)
Definition extend_device (param : string) (c : cxlvars) : cxlvars :=
  {| cxl_objectparams := cxl_objectparams c;
     cxl_deviceparams := cxl_deviceparams c ++ ["-device"; param]%string;
     total_mem_sizeM := total_mem_sizeM c; mem_count := mem_count c;
     port_count := port_count c; slot := slot c |}.

(** [cxl_objectparams.extend(["-object", param])] *)
Definition extend_object (param : string) (c : cxlvars) : cxlvars :=
  {| cxl_objectparams := cxl_objectparams c ++ ["-object"; param]%string;
     cxl_deviceparams := cxl_deviceparams c;
     total_mem_sizeM := total_mem_sizeM c; mem_count := mem_count c;
     port_count := port_count c; slot := slot c |}.

(** [port_count += 1; slot += 1] *)
Definition next_port (c : cxlvars) : cxlvars :=
  {| cxl_objectparams := cxl_objectparams c;
     cxl_deviceparams := cxl_deviceparams c;
     total_mem_sizeM := total_mem_sizeM c; mem_count := mem_count c;
     port_count := port_count c + 1; slot := slot c + 1 |}.

(** [total_mem_sizeM += sizeM; mem_count += 1] *)
Definition count_memory (sizeM : Z) (c : cxlvars) : cxlvars :=
  {| cxl_objectparams := cxl_objectparams c;
     cxl_deviceparams := cxl_deviceparams c;
     total_mem_sizeM := total_mem_sizeM c + sizeM; mem_count := mem_count c + 1;
     port_count := port_count c; slot := slot c |}.

(** The [try] block of [cxlmemopts]: every exception in it is re-raised as
    the "bad memory size" exception. *)
Definition cxl_sizeM (mem_size : jval) : result Z :=
  match mem_size with
  | JStr s =>
      if endswith_char s "G" then
        match int_of_str (drop_last s) with
        | Ok n => Ok (n * 1024)
        | Err _ => Err BadCxlMemorySize
        end
      else if endswith_char s "M" then
        match int_of_str (drop_last s) with
        | Ok n => Ok n
        | Err _ => Err BadCxlMemorySize
        end
      else Err BadCxlMemorySize
  | _ => Err BadCxlMemorySize
  end.

(** ["%s" % v] for the values that reach a format string as sizes. *)
Definition str_of_size (v : jval) : string :=
  match v with JStr s => s | _ => "" end.

Definition cxl_sn (mem_count : Z) : string := "0xc100" +:+ hex_of_Z (58080 + mem_count).
Definition cxl_memdev_id (mem_count : Z) : string := "cxl_memdev" +:+ str_of_Z mem_count.
Definition cxl_backend_id (mem_count : Z) (bus_id : string) : string :=
  "beram_" +:+ cxl_memdev_id mem_count +:+ "__bus_" +:+ bus_id
  +:+ "__sn_" +:+ cxl_sn mem_count.

Definition cxl_backend_param (mem_count : Z) (bus_id : string) (mem_size : jval) : string :=
  "memory-backend-ram,id=" +:+ cxl_backend_id mem_count bus_id
  +:+ ",share=on,size=" +:+ str_of_size mem_size.

Definition cxl_type3_param (mem_count : Z) (bus_id : string) : string :=
  "cxl-type3,bus=" +:+ bus_id +:+ ",volatile-memdev=" +:+ cxl_backend_id mem_count bus_id
  +:+ ",id=" +:+ cxl_memdev_id mem_count +:+ ",sn=" +:+ cxl_sn mem_count.

Definition cxlmemopts (device : jval) (bus_id : string) (c : cxlvars) : result cxlvars :=
  let* mem_size := py_getitem device "mem" in
  let* sizeM := cxl_sizeM mem_size in
  let c := extend_object (cxl_backend_param (mem_count c) bus_id mem_size) c in
  let present :=
    match device with
    | JObj kvs => truthy (jget_default kvs "present" (JBool true))
    | _ => true
    end in
  let c := if present then extend_device (cxl_type3_param (mem_count c) bus_id) c else c in
  Ok (count_memory sizeM c).

(** The part of the body of [for downstream_idx, downstream_device in ...]
    before the dispatch on the device: the downstream port. *)
Definition downstream_port (upstream_id : string) (downstream_idx : Z) (c : cxlvars)
  : string * cxlvars :=
  let downstream_id :=
    "cxlsw_ds" +:+ str_of_Z downstream_idx +:+ "_" +:+ str_from 6 upstream_id in
  (downstream_id,
   next_port
     (extend_device
        ("cxl-downstream,port=" +:+ str_of_Z (port_count c) +:+ ",bus=" +:+ upstream_id
         +:+ ",id=" +:+ downstream_id +:+ ",chassis=" +:+ str_of_Z chassis
         +:+ ",slot=" +:+ str_of_Z (slot c)) c)).

(** The body of the loop of [cxlswitchopts]; [switchopts] is the recursive
    call. *)
Definition downstream_body (switchopts : jval -> string -> cxlvars -> result cxlvars)
  (upstream_id : string) (downstream_idx : Z) (downstream_device : jval) (c : cxlvars)
  : result cxlvars :=
  let '(downstream_id, c) := downstream_port upstream_id downstream_idx c in
  let* has_mem := py_contains "mem" downstream_device in
  if (has_mem : bool) then cxlmemopts downstream_device downstream_id c
  else
    let* has_switch := py_contains "switch" downstream_device in
    if (has_switch : bool) then switchopts downstream_device downstream_id c
    else Err (ValueError UnsupportedCxlInSwitch).

Definition upstream_id_of (bus_id : string) : string := "cxlsw_us" +:+ str_from 3 bus_id.

(** [cxlswitchopts].  The recursion is on the JSON value: [device["switch"]]
    is read by the inner [getitem] and its items are visited by [downstream].
    When [device["switch"]] is not a list its elements are strings (the
    characters of a string, the keys of a dictionary), on which the recursive
    call raises [TypeError] at [device["switch"]]. *)
Fixpoint cxlswitchopts (device : jval) (bus_id : string) (c : cxlvars) {struct device}
  : result cxlvars :=
  let upstream_id := upstream_id_of bus_id in
  let c := extend_device ("cxl-upstream,bus=" +:+ bus_id +:+ ",id=" +:+ upstream_id) c in
  match device with
  | JObj kvs =>
      (fix getitem (kvs : list (string * jval)) : result cxlvars :=
         match kvs with
         | [] => Err KeyError
         | (k, switch) :: kvs' =>
             if String.eqb k "switch" then
               match switch with
               | JList devices =>
                   (fix downstream (idx : Z) (devices : list jval) (c : cxlvars)
                      : result cxlvars :=
                      match devices with
                      | [] => Ok c
                      | d :: devices' =>
                          let* c := downstream_body cxlswitchopts upstream_id idx d c in
                          downstream (idx + 1) devices' c
                      end) 0 devices c
               | _ =>
                   let* elements := py_iter switch in
                   for_enumerate
                     (downstream_body (fun _ _ _ => Err TypeError) upstream_id)
                     elements c
               end
             else getitem kvs'
         end) kvs
  | _ => Err TypeError
  end.

(** The variables of the host bridge loop of [qemucxlopts]. *)
Record cxlroot : Type := mkCxlRoot {
  shared : cxlvars;
  bus_nr : Z;
  firmware_targets : list string
}.

(** The body of [for root_port, device in enumerate(root_ports)]. *)
Definition root_port_body (host_bridge_id : string) (root_port : Z) (device : jval)
  (c : cxlvars) : result cxlvars :=
  let root_port_id := "cxlrp" +:+ str_of_Z root_port +:+ str_from 3 host_bridge_id in
  let c :=
    next_port
      (extend_device
         ("cxl-rp,port=" +:+ str_of_Z (port_count c) +:+ ",bus=" +:+ host_bridge_id
          +:+ ",id=" +:+ root_port_id +:+ ",chassis=" +:+ str_of_Z chassis
          +:+ ",slot=" +:+ str_of_Z (slot c)) c) in
  let* has_mem := py_contains "mem" device in
  if (has_mem : bool) then cxlmemopts device root_port_id c
  else
    let* has_switch := py_contains "switch" device in
    if (has_switch : bool) then cxlswitchopts device root_port_id c
    else Ok c.

(** The body of [for host_bridge, root_ports in enumerate(cxl_host_bridges)]. *)
Definition host_bridge_body (host_bridge : Z) (root_ports : jval) (r : cxlroot)
  : result cxlroot :=
  let host_bridge_id := "cxlhb" +:+ str_of_Z host_bridge in
  let c :=
    extend_device
      ("pxb-cxl,bus_nr=" +:+ str_of_Z (bus_nr r) +:+ ",bus=pcie.0,id=" +:+ host_bridge_id
       +:+ ",numa_node=" +:+ str_of_Z host_bridge) (shared r) in
  let firmware_targets := firmware_targets r ++ [host_bridge_id] in
  let bus_nr := bus_nr r + 12 in
  let* ports := py_iter root_ports in
  let* c := for_enumerate (root_port_body host_bridge_id) ports c in
  Ok {| shared := c; bus_nr := bus_nr; firmware_targets := firmware_targets |}.

(** The loops of [qemucxlopts]. *)
Definition cxl_build (cxl_host_bridges : jval) : result cxlroot :=
  let* bridges := py_iter cxl_host_bridges in
  for_enumerate host_bridge_body bridges
    {| shared := cxl_init; bus_nr := 12; firmware_targets := [] |}.

(** [((total_mem_sizeM + 4095) // 4096) * 4] *)
Definition addr_sizeG (total_mem_sizeM : Z) : Z := ((total_mem_sizeM + 4095) / 4096) * 4.

(** [(total_mem_sizeM + 1023) // 1024] *)
Definition total_mem_sizeG (total_mem_sizeM : Z) : Z := (total_mem_sizeM + 1023) / 1024.

(** ["sep".join(l)] *)
Fixpoint join (sep : string) (l : list string) : string :=
  match l with
  | [] => ""
  | [x] => x
  | x :: l' => x +:+ sep +:+ join sep l'
  end.

Fixpoint enumerate_from {A : Type} (i : Z) (l : list A) : list (Z * A) :=
  match l with
  | [] => []
  | x :: l' => (i, x) :: enumerate_from (i + 1) l'
  end.

Definition fmw_entry (size : Z) (it : Z * string) : string :=
  "cxl-fmw." +:+ str_of_Z it.1 +:+ ".targets.0=" +:+ it.2
  +:+ ",cxl-fmw." +:+ str_of_Z it.1 +:+ ".size=" +:+ str_of_Z size +:+ "G".

Definition cxl_Mparams (targets : list string) (total_mem_sizeM : Z) : list string :=
  ["-M"%string;
   join "," (map (fmw_entry (addr_sizeG total_mem_sizeM)) (enumerate_from 0 targets))].

Definition qemucxlopts (cxl_host_bridges : jval)
  : result (list string * list string * list string * string) :=
  let* r := cxl_build cxl_host_bridges in
  Ok (cxl_objectparams (shared r),
      cxl_deviceparams (shared r),
      cxl_Mparams (firmware_targets r) (total_mem_sizeM (shared r)),
      str_of_Z (total_mem_sizeG (total_mem_sizeM (shared r))) +:+ "G").

(** ** The option assembler *)

(** The memory-related variables of [qemuopts]. *)
Record memvars : Type := mkMem {
  machineparam : string;
  objectparams : list string;
  deviceparams : list string;
  lastmem : Z;
  lastnvmem : Z;
  totalmem : string;
  totalnvmem : string;
  unpluggedmem : string;
  pluggedmem : string;
  memslots : Z
}.

(** The node and CPU counters of [qemuopts]. *)
Record cpuvars : Type := mkCpu {
  lastnode : Z;
  lastcpu : Z;
  lastcpupresent : Z;
  lastdie : Z;
  last_socket : Z   (* [lastsocket] of [qemuopts] *)
}.

Record vars : Type := mkVars {
  memv : memvars;
  cpuv : cpuvars;
  numaparams : list string;
  threadcount : Z;
  totalcxlmem : string;
  numalist_with_dist : list jobj
}.

Definition qemuopts_init : vars :=
  {| memv := {| machineparam := "-machine q35,kernel-irqchip=split";
                objectparams := []; deviceparams := [];
                lastmem := -1; lastnvmem := -1;
                totalmem := "0G"; totalnvmem := "0G";
                unpluggedmem := "0G"; pluggedmem := "0G";
                memslots := 0 |};
     cpuv := {| lastnode := -1; lastcpu := -1; lastcpupresent := -1;
                lastdie := -1; last_socket := -1 |};
     numaparams := [];
     threadcount := -1;
     totalcxlmem := "0G";
     numalist_with_dist := [] |}.

(** [siadd(total, size)] where [size] was read from the input. *)
Definition siadd_input (total : string) (size : jval) : result string :=
  match size with
  | JStr s => siadd total s
  | _ => Err AttributeError
  end.

Definition node_id (lastmem lastnode : Z) : string :=
  str_of_Z lastmem +:+ "_node_" +:+ str_of_Z lastnode.

(** The body of [for mem in range(memcount)] ([nv = false]) and of
    [for nvmem in range(nvmemcount)] ([nv = true]); the two differ in the
    identifiers, in the device model and in the total they add to. *)
Definition memory_body (nv : bool) (memdimm size : jval) (lastnode : Z)
  (st : memvars * list string) : result (memvars * list string) :=
  let '(m, currentnumaparams) := st in
  let lastnvmem := if nv then lastnvmem m + 1 else lastnvmem m in
  let lastmem := lastmem m + 1 in
  let machineparam :=
    if (nv && (lastnvmem =? 0))%bool then machineparam m +:+ ",nvdimm=on"
    else machineparam m in
  let builtin := if nv then "memnvbuiltin_" else "membuiltin_" in
  let dimm := if nv then "memnvdimm_" else "memdimm_" in
  let backend (id : string) :=
    "memory-backend-ram,size=" +:+ str_of_size size +:+ ",id=" +:+ id
    +:+ node_id lastmem lastnode in
  let* (objectparams, currentnumaparams, deviceparams, pluggedmem, unpluggedmem, memslots) :=
    if is_str memdimm "" then
      Ok (objectparams m ++ ["-object"; backend builtin]%string,
          currentnumaparams
            ++ ["-numa"; "node,nodeid=" +:+ str_of_Z lastnode +:+ ",memdev=" +:+ builtin
                           +:+ node_id lastmem lastnode]%string,
          deviceparams m, pluggedmem m, unpluggedmem m, memslots m)
    else if is_str memdimm "plugged" then
      let device :=
        (if nv then "nvdimm,node=" else "pc-dimm,node=") +:+ str_of_Z lastnode
        +:+ (if nv then ",id=nvdimm" else ",id=dimm") +:+ str_of_Z lastmem
        +:+ ",memdev=" +:+ dimm +:+ node_id lastmem lastnode in
      let* pluggedmem := siadd_input (pluggedmem m) size in
      Ok (objectparams m ++ ["-object"; backend dimm]%string,
          currentnumaparams ++ ["-numa"; "node,nodeid=" +:+ str_of_Z lastnode]%string,
          deviceparams m ++ ["-device"; device]%string,
          pluggedmem, unpluggedmem m, memslots m + 1)
    else if is_str memdimm "unplugged" then
      let* unpluggedmem := siadd_input (unpluggedmem m) size in
      Ok (objectparams m ++ ["-object"; backend dimm]%string,
          currentnumaparams ++ ["-numa"; "node,nodeid=" +:+ str_of_Z lastnode]%string,
          deviceparams m, pluggedmem m, unpluggedmem, memslots m + 1)
    else Err (ValueError UnsupportedDimm) in
  let* total := siadd_input (if nv then totalnvmem m else totalmem m) size in
  Ok ({| machineparam := machineparam;
         objectparams := objectparams;
         deviceparams := deviceparams;
         lastmem := lastmem;
         lastnvmem := lastnvmem;
         totalmem := if nv then totalmem m else total;
         totalnvmem := if nv then total else totalnvmem m;
         unpluggedmem := unpluggedmem;
         pluggedmem := pluggedmem;
         memslots := memslots |},
      currentnumaparams).

(** [l[-1] = l[-1] + suffix] on a list that is not empty *)
Fixpoint append_to_last (l : list string) (suffix : string) : list string :=
  match l with
  | [] => []
  | [x] => [x +:+ suffix]
  | x :: l' => x :: append_to_last l' suffix
  end.

(** What one group contributes to every one of its nodes. *)
Record groupvars : Type := mkGroup {
  nodecount : Z;
  cpucount : Z;
  diecount : Z;
  packagecount : Z;
  cpuspresentcount : Z;
  memsize : jval;
  memdimm : jval;
  memcount : Z;
  nvmemsize : jval;
  nvmemcount : Z
}.

(** The [if cpucount > 0:] block at the end of the node loop body. *)
Definition cpu_body (g : groupvars) (c : cpuvars) (currentnumaparams : list string)
  : cpuvars * list string :=
  if 0 <? cpucount g then
    let currentnumaparams :=
      match currentnumaparams with
      | [] => ["-numa"; "node,nodeid=" +:+ str_of_Z (lastnode c)]%string
      | _ => currentnumaparams
      end in
    let currentnumaparams :=
      append_to_last currentnumaparams
        (",cpus=" +:+ str_of_Z (lastcpu c + 1) +:+ "-" +:+ str_of_Z (lastcpu c + cpucount g)) in
    ({| lastnode := lastnode c;
        lastcpu := lastcpu c + cpucount g;
        lastcpupresent :=
          if 0 <? cpuspresentcount g then cpuspresentcount g - 1
          else lastcpupresent c + cpucount g;
        lastdie := lastdie c;
        last_socket := last_socket c |},
     currentnumaparams)
  else (c, currentnumaparams).

Definition set_cpuv (c : cpuvars) (v : vars) : vars :=
  {| memv := memv v; cpuv := c; numaparams := numaparams v;
     threadcount := threadcount v; totalcxlmem := totalcxlmem v;
     numalist_with_dist := numalist_with_dist v |}.

Definition next_node (c : cpuvars) : cpuvars :=
  {| lastnode := lastnode c + 1; lastcpu := lastcpu c;
     lastcpupresent := lastcpupresent c; lastdie := lastdie c;
     last_socket := last_socket c |}.

Definition next_die (c : cpuvars) : cpuvars :=
  {| lastnode := lastnode c; lastcpu := lastcpu c;
     lastcpupresent := lastcpupresent c; lastdie := lastdie c + 1;
     last_socket := last_socket c |}.

Definition next_socket (c : cpuvars) : cpuvars :=
  {| lastnode := lastnode c; lastcpu := lastcpu c;
     lastcpupresent := lastcpupresent c; lastdie := lastdie c;
     last_socket := last_socket c + 1 |}.

(** The body of [for node in range(nodecount)]. *)
Definition node_body (g : groupvars) (_ : Z) (v : vars) : result vars :=
  let c := next_node (cpuv v) in
  let* st := for_each (fun _ => memory_body false (memdimm g) (memsize g) (lastnode c))
                      (range (memcount g)) (memv v, []) in
  let* (m, currentnumaparams) :=
    for_each (fun _ => memory_body true (memdimm g) (nvmemsize g) (lastnode c))
             (range (nvmemcount g)) st in
  let '(c, currentnumaparams) := cpu_body g c currentnumaparams in
  Ok {| memv := m; cpuv := c;
        numaparams := numaparams v ++ currentnumaparams;
        threadcount := threadcount v; totalcxlmem := totalcxlmem v;
        numalist_with_dist := numalist_with_dist v |}.

(** [nodecount > 0 and cpucount > 0] *)
Definition has_cpu_nodes (g : groupvars) : bool := (0 <? nodecount g) && (0 <? cpucount g).

(** The body of [for die in range(diecount)]. *)
Definition die_body (g : groupvars) (_ : Z) (v : vars) : result vars :=
  let v := if has_cpu_nodes g then set_cpuv (next_die (cpuv v)) v else v in
  for_each (node_body g) (range (nodecount g)) v.

(** The body of [for package in range(packagecount)]. *)
Definition package_body (g : groupvars) (_ : Z) (v : vars) : result vars :=
  let v := if has_cpu_nodes g then set_cpuv (next_socket (cpuv v)) v else v in
  for_each (die_body g) (range (diecount g)) v.

(** The CXL branch of the group loop, after the check for other keys. *)
Definition cxl_group (cxl_spec : jval) (v : vars) : result vars :=
  let* (cxl_objectparams, cxl_deviceparams, cxl_Mparams, totalcxlmem) :=
    qemucxlopts cxl_spec in
  let m := memv v in
  let m :=
    match cxl_deviceparams with
    | [] => m
    | _ =>
        let objectparams := objectparams m ++ cxl_objectparams in
        {| machineparam :=
             if negb (str_contains ",cxl=on" (machineparam m))
             then machineparam m +:+ ",cxl=on" else machineparam m;
           objectparams := objectparams;
           deviceparams := (deviceparams m ++ cxl_deviceparams) ++ cxl_Mparams;
           lastmem := lastmem m; lastnvmem := lastnvmem m;
           totalmem := totalmem m; totalnvmem := totalnvmem m;
           unpluggedmem := unpluggedmem m; pluggedmem := pluggedmem m;
           memslots := memslots m + Z.of_nat (length objectparams) |}
    end in
  Ok {| memv := m; cpuv := cpuv v; numaparams := numaparams v;
        threadcount := threadcount v; totalcxlmem := totalcxlmem;
        numalist_with_dist := numalist_with_dist v |}.

(** [set(numaspec.keys()) - {"cxl"}] is not empty *)
Definition has_other_keys (numaspec : jobj) : bool :=
  existsb (fun k => negb (String.eqb k "cxl")) (jkeys numaspec).

(** The [if corecount > 0:] block: the thread count is set by the first
    group with cores and checked against the later ones. *)
Definition check_threads (numaspec : jobj) (corecount threadcount : Z) : result Z :=
  if 0 <? corecount then
    if threadcount <? 0 then py_int (jget_default numaspec "threads" (JInt 2))
    else
      if negb (is_none (jget_default numaspec "threads" JNull)) then
        let* threads := py_int (jget_default numaspec "threads" JNull) in
        if negb (threadcount =? threads) then Err (ValueError ThreadMismatch)
        else Ok threadcount
      else Ok threadcount
  else Ok threadcount.

(** The NUMA branch of the group loop. *)
Definition numa_group (numaspec : jobj) (v : vars) : result vars :=
  let numalist_with_dist := numalist_with_dist v ++ [numaspec] in
  let* nodecount := py_int (jget_default numaspec "nodes" (JInt 1)) in
  let* corecount := py_int (jget_default numaspec "cores" (JInt 0)) in
  let* threadcount := check_threads numaspec corecount (threadcount v) in
  let* cores := py_int (jget_default numaspec "cores" (JInt 0)) in
  let cpucount := cores * threadcount in
  let* diecount := py_int (jget_default numaspec "dies" (JInt 1)) in
  let* packagecount := py_int (jget_default numaspec "packages" (JInt 1)) in
  let* cpuspresentcount := py_int (jget_default numaspec "cpus-present" (JInt 0)) in
  let memsize := jget_default numaspec "mem" (JStr "0") in
  let memdimm := jget_default numaspec "dimm" (JStr "") in
  let memcount := if negb (is_str memsize "0") then 1 else 0 in
  let nvmemsize := jget_default numaspec "nvmem" (JStr "0") in
  let nvmemcount := if negb (is_str nvmemsize "0") then 1 else 0 in
  let g := {| nodecount := nodecount; cpucount := cpucount; diecount := diecount;
              packagecount := packagecount; cpuspresentcount := cpuspresentcount;
              memsize := memsize; memdimm := memdimm; memcount := memcount;
              nvmemsize := nvmemsize; nvmemcount := nvmemcount |} in
  for_each (package_body g) (range packagecount)
    {| memv := memv v; cpuv := cpuv v; numaparams := numaparams v;
       threadcount := threadcount; totalcxlmem := totalcxlmem v;
       numalist_with_dist := numalist_with_dist |}.

(** The body of [for numalistindex, numaspec in enumerate(numalist)]. *)
Definition qemuopts_group (numaspec : jobj) (v : vars) : result vars :=
  let cxl_spec := jget_default numaspec "cxl" JNull in
  if truthy cxl_spec then
    if has_other_keys numaspec then Err (ValueError CxlWithOtherKeys)
    else cxl_group cxl_spec v
  else numa_group numaspec v.

(** The explicit distance lines, [(src, dst, val)] for the parameter
    ["dist,src=%s,dst=%s,val=%s"]; the value is kept as the JSON value that
    [%s] formats. *)
Definition sorted_keys {V : Type} (m : gmap Z V) : list Z :=
  merge_sort Z.le (map fst (map_to_list m)).

Definition dist_lines (node_node_dist : dist_table) : list (Z * Z * jval) :=
  flat_map
    (fun sourcenode =>
       match node_node_dist !! sourcenode with
       | Some row =>
           flat_map
             (fun destnode =>
                if sourcenode =? destnode then []
                else match row !! destnode with
                     | Some x => [(sourcenode, destnode, x)]
                     | None => []
                     end)
             (sorted_keys row)
       | None => []
       end)
    (sorted_keys node_node_dist).

Definition smpparam (cpus threads : Z) (diesparam : string) (sockets maxcpus : Z) : string :=
  "-smp cpus=" +:+ str_of_Z cpus +:+ ",threads=" +:+ str_of_Z threads +:+ diesparam
  +:+ ",sockets=" +:+ str_of_Z sockets +:+ ",maxcpus=" +:+ str_of_Z maxcpus.

Definition memparam (startmem : string) (memslots : Z) (maxmem : string) : string :=
  "-m size=" +:+ startmem +:+ ",slots=" +:+ str_of_Z memslots +:+ ",maxmem=" +:+ maxmem.

(** The pieces [qemuopts] joins into its one-line result, in the order of the
    line.  The numa bucket is [numa_node_params] followed by one
    ["-numa", "dist,..."] pair for each entry of [numa_dist_params]. *)
Record qemu_options : Type := mkOptions {
  machine_param : string;
  cpu_param : string;
  smp_param : string;
  mem_param : string;
  numa_node_params : list string;
  numa_dist_params : list (Z * Z * jval);
  device_params : list string;
  object_params : list string
}.

(** The group loop of [qemuopts], after [validate]. *)
Definition qemuopts_groups (numalist : list jobj) : result vars :=
  for_each qemuopts_group numalist qemuopts_init.

(** [maxcpus] of the [-smp] parameter. *)
Definition maxcpus_of (v : vars) : Z := lastcpu (cpuv v) + 1.

(** [qemuopts] after the group loop. *)
Definition assemble (v : vars) : result qemu_options :=
  let* node_node_dist := dists (numalist_with_dist v) in
  let dist_params := dist_lines node_node_dist in
  let c := cpuv v in
  let m := memv v in
  if lastcpu c =? -1 then Err (ValueError NoCpus)
  else if last_socket c + 1 =? 0 then Err ZeroDivisionError
  else
    let diesparam :=
      if 1 <? (lastdie c + 1) / (last_socket c + 1)
      then ",dies=" +:+ str_of_Z ((lastdie c + 1) / (last_socket c + 1))
      else "" in
    let smpparam :=
      smpparam (lastcpupresent c + 1) (threadcount v) diesparam
               (last_socket c + 1) (maxcpus_of v) in
    let* mem_nvmem := siadd (totalmem m) (totalnvmem m) in
    let* maxmem := siadd mem_nvmem (totalcxlmem v) in
    let* without_unplugged := sisub maxmem (unpluggedmem m) in
    let* without_plugged := sisub without_unplugged (pluggedmem m) in
    let* startmem := sisub without_plugged (totalcxlmem v) in
    let memparam := memparam startmem (memslots m) maxmem in
    if startswith_0 startmem then
      if startswith_0 (pluggedmem m) then Err (ValueError NoMemory)
      else Err (ValueError NoInitialMemory)
    else
      Ok {| machine_param := machineparam m +:+ ",accel=kvm";
            cpu_param := "-cpu host,x2apic=on";
            smp_param := smpparam;
            mem_param := memparam;
            numa_node_params := numaparams v;
            numa_dist_params := dist_params;
            device_params := deviceparams m;
            object_params := objectparams m |}.

Definition qemuopts (numalist : list jobj) : result qemu_options :=
  let* _ := validate numalist in
  let* v := qemuopts_groups numalist in
  assemble v.

(** ** Reference notions used by the statements *)

(** The least multiple of [m] that is not below [a], divided by [m]:
    [⌈a / m⌉]. *)
Definition ceil_div (a m : Z) : Z := - ((- a) / m).

(** A size literal that [siadd] accepts: a string that ends in [g] or [G],
    the rest of which [int()] accepts. *)
Definition gigabyte_literal (val : jval) : Prop :=
  exists s n, val = JStr s /\ lower_endswith_g s = true /\ int_of_str (drop_last s) = Ok n.

(** The CXL forest of the documentation as a tree: a root port or a
    downstream port holds a memory device (its size literal and, when given,
    its ["present"] flag) or a switch with its downstream devices. *)
Inductive cxl_device : Type :=
| MemoryDevice (size : string) (present : option bool)
| Switch (downstream : list cxl_device).

(** The JSON value [json.loads] hands to [qemucxlopts] for such a tree. *)
Fixpoint json_of_device (d : cxl_device) : jval :=
  match d with
  | MemoryDevice size present =>
      JObj (("mem"%string, JStr size)
            :: match present with
               | Some b => [("present"%string, JBool b)]
               | None => []
               end)
  | Switch downstream => JObj [("switch"%string, JList (map json_of_device downstream))]
  end.

Definition json_of_forest (forest : list (list cxl_device)) : jval :=
  JList (map (fun root_ports => JList (map json_of_device root_ports)) forest).

Definition sumZ (l : list Z) : Z := fold_right Z.add 0 l.

(** The size of a memory device in megabytes, for a literal [<int>G] or
    [<int>M]. *)
Definition megabytes (size : string) : option Z :=
  match cxl_sizeM (JStr size) with Ok n => Some n | Err _ => None end.

(** The memory requested by a device and everything below it, in megabytes. *)
Fixpoint device_megabytes (d : cxl_device) : Z :=
  match d with
  | MemoryDevice size _ => default 0 (megabytes size)
  | Switch downstream => sumZ (map device_megabytes downstream)
  end.

Definition forest_megabytes (forest : list (list cxl_device)) : Z :=
  sumZ (map (fun root_ports => sumZ (map device_megabytes root_ports)) forest).

(** Every memory device below has a size literal in [M] or [G]. *)
Fixpoint well_sized (d : cxl_device) : Prop :=
  match d with
  | MemoryDevice size _ => is_Some (megabytes size)
  | Switch downstream => fold_right (fun d P => well_sized d /\ P) True downstream
  end.

Definition host_bridge_ids (forest : list (list cxl_device)) : list string :=
  map (fun i => "cxlhb" +:+ str_of_Z i) (range (Z.of_nat (length forest))).

(** The dispatch on a device, as the two loops of the builder do it, adds the
    memory below the device to the total. *)
Definition dispatch_adds (d : cxl_device) : Prop :=
  forall bus_id c,
    (py_contains "mem" (json_of_device d) = Ok true ->
     exists c', cxlmemopts (json_of_device d) bus_id c = Ok c'
                /\ total_mem_sizeM c' = total_mem_sizeM c + device_megabytes d)
    /\ (py_contains "mem" (json_of_device d) = Ok false ->
        py_contains "switch" (json_of_device d) = Ok true
        /\ exists c', cxlswitchopts (json_of_device d) bus_id c = Ok c'
                      /\ total_mem_sizeM c' = total_mem_sizeM c + device_megabytes d).

(** The [dist-all] value [dists] ends its first loop with: the one of the last
    group that has the key, [None] when no group has it. *)
Definition effective_dist_all (numalist : list jobj) : jval :=
  fold_left (fun m numaspec =>
               match jget numaspec "dist-all" with Some x => x | None => m end)
            numalist JNull.

(** The integer a group gives a key, [default] when the key is absent (or the
    value is not one [int()] accepts). *)
Definition int_key (numaspec : jobj) (key : string) (default : Z) : Z :=
  match py_int (jget_default numaspec key (JInt default)) with
  | Ok z => z
  | Err _ => default
  end.

(** The number of NUMA nodes a group compiles to: packages x dies x nodes. *)
Definition group_node_count (numaspec : jobj) : Z :=
  Z.max 0 (int_key numaspec "packages" 1)
  * (Z.max 0 (int_key numaspec "dies" 1) * Z.max 0 (int_key numaspec "nodes" 1)).

Definition total_nodes (numalist : list jobj) : Z :=
  sumZ (map group_node_count numalist).

(** [t'] has [c] more nodes than [t], numbered after those of [t]. *)
Definition grows (c : Z) (t t' : topo) : Prop :=
  0 <= c
  /\ sourcenode t' = sourcenode t + c
  /\ (forall k, is_Some (dist_dict t' !! k)
                <-> is_Some (dist_dict t !! k) \/ sourcenode t < k <= sourcenode t')
  /\ (forall k row, dist_dict t' !! k = Some row ->
                    dist_dict t !! k = Some row \/ row = ∅).

(** What holds of [dist_dict] while the branch without [dist-all] fills it. *)
Definition pair_inv (v : dvars) (dd : dist_table) : Prop :=
  (forall i x, get2 dd i i = Some x -> x = JInt DEFAULT_DIST_SAME_NODE)
  /\ (forall i j x, i <> j -> get2 dd i j = Some x ->
        get2 dd j i = Some x \/ (get2 dd j i = None /\ topology_dist v i j = Ok x))
  /\ (forall i j x, i <> j -> get2 dd i j = Some x ->
        get2 (node_node_dist v) i j = Some x \/ get2 (node_node_dist v) j i = Some x
        \/ topology_dist v i j = Ok x).

(** [dd'] has the rows of [dd] and at least its entries. *)
Definition extends (dd dd' : dist_table) : Prop :=
  (forall k, is_Some (dd' !! k) <-> is_Some (dd !! k))
  /\ (forall i j, is_Some (get2 dd i j) -> is_Some (get2 dd' i j)).

(** Inputs used as examples. *)
Definition two_groups_with_overrides : list jobj :=
  [[("cores", JInt 1); ("mem", JStr "1G"); ("node-dist", JObj [("1", JInt 30)])];
   [("mem", JStr "1G"); ("node-dist", JObj [("0", JInt 40)])]]%string.

Definition table_of (r : result dist_table) : dist_table :=
  match r with Ok dd => dd | Err _ => ∅ end.

Definition other_package_50 : list jobj :=
  [[("cores", JInt 1); ("mem", JStr "1G")];
   [("cores", JInt 1); ("mem", JStr "1G"); ("dist-other-package", JInt 50)]]%string.

Definition dist_all_99 : list jobj :=
  [[("cores", JInt 1); ("mem", JStr "1G"); ("dist-all", JList [JList [JInt 99]])]]%string.

(** The entries of the list that [qemuopts] treats as NUMA groups: those
    whose ["cxl"] value is absent or false in a condition. *)
Definition is_numa_group (numaspec : jobj) : bool :=
  negb (truthy (jget_default numaspec "cxl" JNull)).

Definition numa_groups (numalist : list jobj) : list jobj :=
  List.filter is_numa_group numalist.

(** A group bears CPUs when its [cores] is above 0. *)
Definition cpu_bearing (numaspec : jobj) : bool := 0 <? int_key numaspec "cores" 0.

(** The thread count fixed by the first CPU-bearing group: its ["threads"],
    2 by default. *)
Definition first_threads (groups : list jobj) : Z :=
  match find cpu_bearing groups with
  | Some numaspec => int_key numaspec "threads" 2
  | None => 2
  end.


(** cores x threads x dies x packages x nodes of a CPU-bearing group. *)
Definition group_cpus (threads : Z) (numaspec : jobj) : Z :=
  if cpu_bearing numaspec then
    int_key numaspec "cores" 0 * threads * int_key numaspec "dies" 1
    * int_key numaspec "packages" 1 * int_key numaspec "nodes" 1
  else 0.


(** [v'] has [c] more logical CPUs than [v], and the thread count and the
    list of NUMA groups of [v]. *)
Definition advances (c : Z) (v v' : vars) : Prop :=
  threadcount v' = threadcount v
  /\ numalist_with_dist v' = numalist_with_dist v
  /\ lastcpu (cpuv v') = lastcpu (cpuv v) + c.

(** The ranges [validate] checks, for the keys a group has. *)
Definition in_ranges (numaspec : jobj) : Prop :=
  forall key holds x,
    int_range_of int_range_keys key = Some holds ->
    jget numaspec key = Some x ->
    exists z, py_int x = Ok z /\ holds z = true.

Definition wrong_rows : list jobj :=
  [[("cores", JInt 1); ("mem", JStr "1G"); ("nodes", JInt 2);
    ("dist-all", JList [JList [JInt 10; JInt 20]; JList [JInt 20]])]]%string.

Definition three_cpu_groups : list jobj :=
  [[("mem", JStr "1G")];
   [("cores", JInt 2); ("threads", JInt 4); ("mem", JStr "2G"); ("nodes", JInt 2)];
   [("cxl", JList [JList [JObj [("mem", JStr "1G")]]])];
   [("cores", JInt 3); ("dies", JInt 2); ("packages", JInt 2)]]%string.

Definition options_of (r : result qemu_options) : qemu_options :=
  match r with
  | Ok o => o
  | Err _ =>
      {| machine_param := ""; cpu_param := ""; smp_param := ""; mem_param := "";
         numa_node_params := []; numa_dist_params := [];
         device_params := []; object_params := [] |}
  end.

(** The [-M] parameter list of the result of [qemucxlopts]. *)
Definition Mparams_of (r : result (list string * list string * list string * string))
  : result (list string) :=
  let* (_, _, Mparams, _) := r in Ok Mparams.

(** ** Reference notions for the further properties *)

(** A [mem]/[nvmem] value that [validate] accepts. *)
Definition size_ok (val : jval) : Prop := val = JStr "0" \/ gigabyte_literal val.

(** What [validate] checks of one entry of the list. *)
Definition valid_spec (numaspec : jobj) : Prop :=
  (forall key, In key (jkeys numaspec) -> In key valid_keys)
  /\ (forall key val, key = "mem"%string \/ key = "nvmem"%string ->
                     jget numaspec key = Some val -> size_ok val)
  /\ in_ranges numaspec
  /\ (jhas numaspec "threads" = true -> int_key numaspec "cores" 0 <> 0).

Definition only_cxl : list jobj :=
  [[("cxl", JList [JList [JObj [("mem", JStr "1G")]]])]]%string.

Definition no_cores : list jobj :=
  [[("mem", JStr "1G"); ("nodes", JInt 2)]; [("nvmem", JStr "1G")]]%string.

Definition threads_2_and_4 : list jobj :=
  [[("cores", JInt 1); ("threads", JInt 2); ("mem", JStr "1G")];
   [("cores", JInt 1); ("threads", JInt 4); ("mem", JStr "1G")]]%string.

Definition dimm_hotplug : list jobj :=
  [[("cores", JInt 1); ("mem", JStr "1G")];
   [("nvmem", JStr "1G"); ("dimm", JStr "hotplug")]]%string.

(** The group has memory on its nodes: a [mem] or an [nvmem] other than
    ["0"]. *)
Definition has_memory (numaspec : jobj) : bool :=
  negb (is_str (jget_default numaspec "mem" (JStr "0")) "0")
  || negb (is_str (jget_default numaspec "nvmem" (JStr "0")) "0").

(** The values of ["dimm"] the assembler knows. *)
Definition known_dimm (memdimm : jval) : bool :=
  is_str memdimm "" || is_str memdimm "plugged" || is_str memdimm "unplugged".

(** The entry of a matrix given as a list of rows, [None] outside of it. *)
Definition matrix_get (rows : list (list jval)) (s d : Z) : option jval :=
  if ((0 <=? s) && (0 <=? d))%bool
  then match rows !! Z.to_nat s with
       | Some row => row !! Z.to_nat d
       | None => None
       end
  else None.

Definition asymmetric_matrix : list jobj :=
  [[("cores", JInt 1); ("mem", JStr "1G"); ("nodes", JInt 2);
    ("dist-all", JList [JList [JInt 10; JInt 20]; JList [JInt 30; JInt 10]])]]%string.

(** The distance [dists] gives two nodes when no [dist-all] matrix is in
    effect: 10 from a node to itself; else the [node-dist] entry of the
    higher-numbered node for the lower-numbered one; else the [node-dist]
    entry of the lower-numbered node for the higher-numbered one; else the
    distance of the topology. *)
Definition expected_dist (v : dvars) (i j : Z) : result jval :=
  if i =? j then Ok (JInt DEFAULT_DIST_SAME_NODE)
  else
    match get2 (node_node_dist v) (Z.max i j) (Z.min i j) with
    | Some x => Ok x
    | None =>
        match get2 (node_node_dist v) (Z.min i j) (Z.max i j) with
        | Some x => Ok x
        | None => topology_dist v i j
        end
    end.

(** The pair [(a, b)] comes before the pair [(s, d)] in the filling loops. *)
Definition before (s d a b : Z) : Prop := a < s \/ (a = s /\ b < d).

(** The table when the filling loops are about to handle the pair [(s, d)],
    for [n] nodes. *)
Definition filled_upto (v : dvars) (n s d : Z) (dd : dist_table) : Prop :=
  forall i j, 0 <= i < n -> 0 <= j < n ->
    (i = j ->
       (before s d i i -> get2 dd i i = Some (JInt DEFAULT_DIST_SAME_NODE))
       /\ (~ before s d i i -> get2 dd i i = None))
    /\ (i <> j ->
          (before s d i j -> before s d j i ->
             exists x, expected_dist v i j = Ok x /\ get2 dd i j = Some x)
          /\ (before s d i j -> ~ before s d j i ->
                match get2 (node_node_dist v) i j with
                | Some x => get2 dd i j = Some x
                | None => exists x, topology_dist v i j = Ok x /\ get2 dd i j = Some x
                end)
          /\ (~ before s d i j -> before s d j i ->
                get2 dd i j = get2 (node_node_dist v) j i)
          /\ (~ before s d i j -> ~ before s d j i -> get2 dd i j = None)).

Definition overrides_both_ways : list jobj :=
  [[("cores", JInt 1); ("mem", JStr "1G"); ("node-dist", JObj [("1", JInt 30); ("2", JInt 50)])];
   [("mem", JStr "1G"); ("node-dist", JObj [("0", JInt 40)])];
   [("mem", JStr "1G")]]%string.

Definition vars_of (r : result dvars) : dvars :=
  match r with Ok v => v | Err _ => dists_init end.

(** A memory device is bound to its port at boot unless it says
    ["present": false]. *)
Definition present_at_boot (present : option bool) : bool :=
  match present with Some b => b | None => true end.

(** A count over a device and everything below it: [wobj] for every
    [-object] parameter, [wdev] for every [-device] parameter, [wport] for
    every port and [wmem] for every memory device. *)
Fixpoint device_count (wobj wdev wport wmem : Z) (d : cxl_device) : Z :=
  match d with
  | MemoryDevice _ present => wobj + (if present_at_boot present then wdev else 0) + wmem
  | Switch downstream =>
      wdev + sumZ (map (fun d' => wdev + wport + device_count wobj wdev wport wmem d')
                       downstream)
  end.

Definition forest_count (wobj wdev wport wmem : Z) (forest : list (list cxl_device)) : Z :=
  sumZ (map (fun root_ports =>
               wdev + sumZ (map (fun d => wdev + wport + device_count wobj wdev wport wmem d)
                                root_ports))
            forest).

(** The numbers of memory devices and of ports (root ports and downstream
    ports) of a forest. *)
Definition memory_devices (forest : list (list cxl_device)) : Z := forest_count 0 0 0 1 forest.
Definition ports (forest : list (list cxl_device)) : Z := forest_count 0 0 1 0 forest.

Definition cxl_root_of (r : result cxlroot) : cxlroot :=
  match r with
  | Ok x => x
  | Err _ => {| shared := cxl_init; bus_nr := 12; firmware_targets := [] |}
  end.

Definition small_forest : list (list cxl_device) :=
  [[MemoryDevice "256M" None];
   [Switch [MemoryDevice "1G" (Some false); MemoryDevice "1G" (Some false)]]].

(** The total size [qemucxlopts] returns as its fourth value. *)
Definition reported_total (r : result (list string * list string * list string * string))
  : result string :=
  let* (_, _, _, total) := r in Ok total.

(** A device entry that is a dictionary with neither ["mem"] nor
    ["switch"]. *)
Definition shapeless (d : jval) : Prop :=
  exists kvs, d = JObj kvs /\ jget kvs "mem" = None /\ jget kvs "switch" = None.

(** The number a decimal numeral stands for, read from its first digit on,
    [acc] being the number read so far. *)
Fixpoint uint_value (acc : Z) (d : Decimal.uint) : Z :=
  match d with
  | Decimal.Nil => acc
  | Decimal.D0 d => uint_value (acc * 10 + 0) d
  | Decimal.D1 d => uint_value (acc * 10 + 1) d
  | Decimal.D2 d => uint_value (acc * 10 + 2) d
  | Decimal.D3 d => uint_value (acc * 10 + 3) d
  | Decimal.D4 d => uint_value (acc * 10 + 4) d
  | Decimal.D5 d => uint_value (acc * 10 + 5) d
  | Decimal.D6 d => uint_value (acc * 10 + 6) d
  | Decimal.D7 d => uint_value (acc * 10 + 7) d
  | Decimal.D8 d => uint_value (acc * 10 + 8) d
  | Decimal.D9 d => uint_value (acc * 10 + 9) d
  end.

(** The size literal [siadd] and [sisub] return for a number of gigabytes. *)
Definition gigabytes (n : Z) : string := str_of_Z n +:+ "G".

(** The order of the distance lines: by source node, then by destination
    node. *)
Definition line_before (l1 l2 : Z * Z * jval) : Prop :=
  l1.1.1 < l2.1.1 \/ (l1.1.1 = l2.1.1 /\ l1.1.2 < l2.1.2).

(** ** Reference notions for the memory devices of a forest *)

(** The concatenation of [f i x] over the elements [x] of a list, [i]
    being the index of the element, counted from [i]. *)
Fixpoint flat_enumerate {A B : Type} (f : Z -> A -> list B) (i : Z) (l : list A) : list B :=
  match l with
  | [] => []
  | x :: l' => f i x ++ flat_enumerate f (i + 1) l'
  end.

(** The identifiers of a root port and of a downstream port. *)
Definition root_port_id_of (host_bridge_id : string) (root_port : Z) : string :=
  "cxlrp" +:+ str_of_Z root_port +:+ str_from 3 host_bridge_id.

Definition downstream_id_of (upstream_id : string) (downstream_idx : Z) : string :=
  "cxlsw_ds" +:+ str_of_Z downstream_idx +:+ "_" +:+ str_from 6 upstream_id.

(** A memory device of a forest: the port it is at, its size and its
    ["present"] flag. *)
Record memory_at : Type := mkMemoryAt {
  at_port : string;
  at_size : string;
  at_present : option bool
}.

(** The memory devices at and below a port, in the order in which the
    builder meets them. *)
Fixpoint device_memories (bus_id : string) (d : cxl_device) : list memory_at :=
  match d with
  | MemoryDevice size present =>
      [{| at_port := bus_id; at_size := size; at_present := present |}]
  | Switch downstream =>
      (fix below (idx : Z) (l : list cxl_device) : list memory_at :=
         match l with
         | [] => []
         | d' :: l' =>
             device_memories (downstream_id_of (upstream_id_of bus_id) idx) d'
             ++ below (idx + 1) l'
         end) 0 downstream
  end.

Definition forest_memories (forest : list (list cxl_device)) : list memory_at :=
  flat_enumerate
    (fun host_bridge root_ports =>
       flat_enumerate
         (fun root_port d =>
            device_memories (root_port_id_of ("cxlhb" +:+ str_of_Z host_bridge) root_port) d)
         0 root_ports)
    0 forest.

(** The [-object] parameters of the memory backends of a list of memory
    devices, numbered from [k]: one backend for every device. *)
Definition backends (k : Z) (memories : list memory_at) : list string :=
  flat_enumerate
    (fun n m => ["-object"; cxl_backend_param n (at_port m) (JStr (at_size m))]%string)
    k memories.

(** The [cxl-type3] parameters that bind the memory devices of a list,
    numbered from [k], to their ports: one for every device that is present
    at boot, none for the others. *)
Definition bindings (k : Z) (memories : list memory_at) : list string :=
  flat_enumerate
    (fun n m => if present_at_boot (at_present m)
                then [cxl_type3_param n (at_port m)] else [])
    k memories.

(** A [-device] parameter that binds a memory device. *)
Definition is_type3 (param : string) : bool := String.prefix "cxl-type3," param.

(** The memory of a list of memory devices, in megabytes. *)
Definition memories_megabytes (memories : list memory_at) : Z :=
  sumZ (map (fun m => default 0 (megabytes (at_size m))) memories).

(** [c'] is [c] after the memory devices [memories]: their backends and
    bindings emitted, their sizes added and the devices counted; other
    [-device] parameters may have been emitted too. *)
Definition emitted (memories : list memory_at) (c c' : cxlvars) : Prop :=
  cxl_objectparams c' = cxl_objectparams c ++ backends (mem_count c) memories
  /\ List.filter is_type3 (cxl_deviceparams c')
     = List.filter is_type3 (cxl_deviceparams c) ++ bindings (mem_count c) memories
  /\ mem_count c' = mem_count c + Z.of_nat (length memories)
  /\ total_mem_sizeM c' = total_mem_sizeM c + memories_megabytes memories.


(** The dispatch on a device emits the memory devices at and below the
    port. *)
Definition dispatch_emits (d : cxl_device) : Prop :=
  forall bus_id c,
    (py_contains "mem" (json_of_device d) = Ok true ->
     exists c', cxlmemopts (json_of_device d) bus_id c = Ok c'
                /\ emitted (device_memories bus_id d) c c')
    /\ (py_contains "mem" (json_of_device d) = Ok false ->
        py_contains "switch" (json_of_device d) = Ok true
        /\ exists c', cxlswitchopts (json_of_device d) bus_id c = Ok c'
                      /\ emitted (device_memories bus_id d) c c').

(** The megabytes in a unit of the size of a CXL memory device: the last
    character of the size, an upper-case [G] or [M]. *)
Definition size_unit (size : string) : option Z :=
  if endswith_char size "G" then Some 1024
  else if endswith_char size "M" then Some 1
  else None.

(** A size the CXL builder accepts: a unit after a number [int()]
    accepts. *)
Definition accepted_size (size : string) : Prop :=
  is_Some (size_unit size) /\ is_ok (int_of_str (drop_last size)) = true.

(** The megabytes of a size: the number times the megabytes of the unit. *)
Definition size_megabytes (size : string) : Z :=
  match int_of_str (drop_last size), size_unit size with
  | Ok n, Some unit => n * unit
  | _, _ => 0
  end.

(** The dispatch on a device, as the two loops of the builder do it, raises
    the exception of a bad memory size. *)
Definition dispatch_rejects (d : cxl_device) : Prop :=
  forall bus_id c,
    (py_contains "mem" (json_of_device d) = Ok true ->
     cxlmemopts (json_of_device d) bus_id c = Err BadCxlMemorySize)
    /\ (py_contains "mem" (json_of_device d) = Ok false ->
        py_contains "switch" (json_of_device d) = Ok true
        /\ cxlswitchopts (json_of_device d) bus_id c = Err BadCxlMemorySize).

(** A forest with a size in lower case below a switch, and one with sizes
    in both units. *)
Definition lower_case_below_switch : list (list cxl_device) :=
  [[MemoryDevice "1G" None];
   [Switch [MemoryDevice "512M" None; Switch [MemoryDevice "2g" (Some false)]]]].

Definition both_units : list (list cxl_device) :=
  [[MemoryDevice "1G" None; Switch [MemoryDevice "512M" (Some false)]];
   [MemoryDevice " 3 G" None]].

(** ** Reference notions for the [-m] and [-smp] parameters *)

(** The number of gigabytes of a size literal, 0 for a string that is
    none. *)
Definition size_value (s : string) : Z :=
  match int_of_str (drop_last s) with Ok n => n | Err _ => 0 end.

Definition size_of (size : jval) : Z :=
  match size with JStr s => size_value s | _ => 0 end.

(** The gigabytes a group gives each of its nodes under [key] (["mem"] or
    ["nvmem"]): none when the key is absent or ["0"]. *)
Definition key_gigabytes (numaspec : jobj) (key : string) : Z :=
  let size := jget_default numaspec key (JStr "0") in
  if is_str size "0" then 0 else size_of size.

(** The memory of a group: what each node has, times the nodes. *)
Definition group_key_gigabytes (key : string) (numaspec : jobj) : Z :=
  group_node_count numaspec * key_gigabytes numaspec key.

Definition group_gigabytes (numaspec : jobj) : Z :=
  group_key_gigabytes "mem" numaspec + group_key_gigabytes "nvmem" numaspec.

Definition dimm_of (numaspec : jobj) : jval := jget_default numaspec "dimm" (JStr "").

(** The memory of a group by the kind of its ["dimm"]: built in ([""]),
    plugged or unplugged. *)
Definition group_builtin (numaspec : jobj) : Z :=
  if is_str (dimm_of numaspec) "" then group_gigabytes numaspec else 0.

Definition group_plugged (numaspec : jobj) : Z :=
  if is_str (dimm_of numaspec) "" then 0
  else if is_str (dimm_of numaspec) "plugged" then group_gigabytes numaspec else 0.

Definition group_unplugged (numaspec : jobj) : Z :=
  if is_str (dimm_of numaspec) "" then 0
  else if is_str (dimm_of numaspec) "plugged" then 0 else group_gigabytes numaspec.

(** The memories ([mem], [nvmem]) of one node of a group. *)
Definition key_count (numaspec : jobj) (key : string) : Z :=
  if negb (is_str (jget_default numaspec key (JStr "0")) "0") then 1 else 0.

(** The DIMM slots of a group: one for every memory of every node, when the
    memory is not built in. *)
Definition group_slots (numaspec : jobj) : Z :=
  if is_str (dimm_of numaspec) "" then 0
  else group_node_count numaspec * (key_count numaspec "mem" + key_count numaspec "nvmem").

(** The sockets and the dies of a group: its packages, and its dies in all
    packages, when it has cores. *)
Definition group_sockets (numaspec : jobj) : Z :=
  if cpu_bearing numaspec then int_key numaspec "packages" 1 else 0.

Definition group_dies (numaspec : jobj) : Z :=
  if cpu_bearing numaspec
  then int_key numaspec "packages" 1 * int_key numaspec "dies" 1 else 0.

(** The number of CPUs present at boot after a group, [present] being the
    number before it: a group with cores and a [cpus-present] above 0 sets
    it to that, any other group with cores adds its CPUs. *)
Definition group_present (threads : Z) (present : Z) (numaspec : jobj) : Z :=
  if cpu_bearing numaspec then
    if 0 <? int_key numaspec "cpus-present" 0 then int_key numaspec "cpus-present" 0
    else present + group_cpus threads numaspec
  else present.


(** The [dies] qualifier of the [-smp] parameter. *)
Definition dies_param (dies sockets : Z) : string :=
  if 1 <? dies / sockets then ",dies=" +:+ str_of_Z (dies / sockets) else "".

(** The CXL memory the assembler counts, in gigabytes: what the builder
    reports for the last CXL entry of the list, 0 when there is none. *)
Definition cxl_gigabytes_from (total : Z) (numalist : list jobj) : Z :=
  fold_left
    (fun total numaspec =>
       if is_numa_group numaspec then total
       else match reported_total (qemucxlopts (jget_default numaspec "cxl" JNull)) with
            | Ok s => size_value s
            | Err _ => total
            end)
    numalist total.

Definition cxl_gigabytes (numalist : list jobj) : Z := cxl_gigabytes_from 0 numalist.

(** The record of per-node counts the NUMA branch builds from a group and
    the thread count. *)
Definition groupvars_of (numaspec : jobj) (threadcount : Z) : groupvars :=
  {| nodecount := int_key numaspec "nodes" 1;
     cpucount := int_key numaspec "cores" 0 * threadcount;
     diecount := int_key numaspec "dies" 1;
     packagecount := int_key numaspec "packages" 1;
     cpuspresentcount := int_key numaspec "cpus-present" 0;
     memsize := jget_default numaspec "mem" (JStr "0");
     memdimm := dimm_of numaspec;
     memcount := key_count numaspec "mem";
     nvmemsize := jget_default numaspec "nvmem" (JStr "0");
     nvmemcount := key_count numaspec "nvmem" |}.

(** What one node of a group adds to the totals. *)
Definition node_mem (g : groupvars) : Z := memcount g * size_of (memsize g).
Definition node_nvmem (g : groupvars) : Z := nvmemcount g * size_of (nvmemsize g).

Definition node_plugged (g : groupvars) : Z :=
  if is_str (memdimm g) "" then 0
  else if is_str (memdimm g) "plugged" then node_mem g + node_nvmem g else 0.

Definition node_unplugged (g : groupvars) : Z :=
  if is_str (memdimm g) "" then 0
  else if is_str (memdimm g) "plugged" then 0 else node_mem g + node_nvmem g.

Definition node_slots (g : groupvars) : Z :=
  if is_str (memdimm g) "" then 0 else memcount g + nvmemcount g.

(** A memory count of a group with its size: no memory, or one memory whose
    size is a gigabyte literal. *)
Definition sized (count : Z) (size : jval) : Prop :=
  count = 0 \/ (count = 1 /\ gigabyte_literal size).

Definition group_ok (g : groupvars) : Prop :=
  sized (memcount g) (memsize g) /\ sized (nvmemcount g) (nvmemsize g).

(** The four running totals are the sizes of these numbers of gigabytes. *)
Definition totals_are (m : memvars) (mem nvmem unplugged plugged : Z) : Prop :=
  totalmem m = gigabytes mem /\ totalnvmem m = gigabytes nvmem
  /\ unpluggedmem m = gigabytes unplugged /\ pluggedmem m = gigabytes plugged.

(** The flags the assembler adds to the [-machine] parameter, and the
    parameter with a list of them. *)
Inductive flag : Type := Nvdimm | Cxl.

Definition flag_eqb (f1 f2 : flag) : bool :=
  match f1, f2 with
  | Nvdimm, Nvdimm | Cxl, Cxl => true
  | _, _ => false
  end.

Definition flag_text (f : flag) : string :=
  match f with Nvdimm => ",nvdimm=on" | Cxl => ",cxl=on" end.

Definition machine_of (flags : list flag) : string :=
  "-machine q35,kernel-irqchip=split" +:+ String.concat "" (map flag_text flags).

(** A flag is added at the end, once. *)
Definition add_flag (flags : list flag) (f : flag) : list flag :=
  if existsb (flag_eqb f) flags then flags else flags ++ [f].

Definition flag_lists : list (list flag) :=
  [[]; [Nvdimm]; [Cxl]; [Nvdimm; Cxl]; [Cxl; Nvdimm]].

(** The machine parameter under construction has these flags, and the
    NVDIMM counter has left -1 when [nvdimm=on] is one of them. *)
Definition machine_is (m : memvars) (flags : list flag) : Prop :=
  In flags flag_lists
  /\ machineparam m = machine_of flags
  /\ (if existsb (flag_eqb Nvdimm) flags then 0 <= lastnvmem m else lastnvmem m = -1).

(** The group has [nvmem] on its nodes. *)
Definition has_nvmem (numaspec : jobj) : bool :=
  negb (is_str (jget_default numaspec "nvmem" (JStr "0")) "0").

(** The CXL entry compiles to devices. *)
Definition cxl_has_devices (numaspec : jobj) : bool :=
  match qemucxlopts (jget_default numaspec "cxl" JNull) with
  | Ok (_, cxl_deviceparams, _, _) =>
      match cxl_deviceparams with [] => false | _ => true end
  | Err _ => false
  end.

(** The flags after the entries of a list, in the order in which the
    entries bring them. *)
Definition flags_from (flags : list flag) (numalist : list jobj) : list flag :=
  fold_left
    (fun flags numaspec =>
       if is_numa_group numaspec
       then (if has_nvmem numaspec then add_flag flags Nvdimm else flags)
       else (if cxl_has_devices numaspec then add_flag flags Cxl else flags))
    numalist flags.

(** [lastcpupresent] after [kn] nodes of a group. *)
Definition present_after (g : groupvars) (kn present : Z) : Z :=
  if 0 <? cpucount g then
    if 0 <? cpuspresentcount g
    then (if 0 <? kn then cpuspresentcount g - 1 else present)
    else present + kn * cpucount g
  else present.

(** [v'] is [v] after [kn] more nodes of the group, [kd] more dies and [ks]
    more sockets. *)
Definition moved (g : groupvars) (kn kd ks : Z) (v v' : vars) : Prop :=
  0 <= kn
  /\ threadcount v' = threadcount v
  /\ totalcxlmem v' = totalcxlmem v
  /\ lastnode (cpuv v') = lastnode (cpuv v) + kn
  /\ lastdie (cpuv v') = lastdie (cpuv v) + kd
  /\ last_socket (cpuv v') = last_socket (cpuv v) + ks
  /\ lastcpupresent (cpuv v') = present_after g kn (lastcpupresent (cpuv v))
  /\ (forall mem nvmem unplugged plugged,
       totals_are (memv v) mem nvmem unplugged plugged ->
       totals_are (memv v') (mem + kn * node_mem g) (nvmem + kn * node_nvmem g)
                  (unplugged + kn * node_unplugged g) (plugged + kn * node_plugged g)
       /\ memslots (memv v') = memslots (memv v) + kn * node_slots g)
  /\ forall flags,
       machine_is (memv v) flags ->
       machine_is (memv v')
                  (if (0 <? kn) && (nvmemcount g =? 1) then add_flag flags Nvdimm else flags).

Definition plugged_only : list jobj :=
  [[("cores", JInt 1); ("mem", JStr "1G"); ("dimm", JStr "plugged")];
   [("cxl", JList [JList [JObj [("mem", JStr "1G")]]])]]%string.

Definition cxl_before_nvmem : list jobj :=
  [[("cores", JInt 1); ("mem", JStr "1G")];
   [("cxl", JList [JList [JObj [("mem", JStr "1G")]]])];
   [("nvmem", JStr "2G"); ("nodes", JInt 2)];
   [("cxl", JList [JList [JObj [("mem", JStr "1G")]]])]]%string.


Definition mixed_memory : list jobj :=
  [[("cores", JInt 2); ("mem", JStr "4G"); ("nodes", JInt 2)];
   [("mem", JStr "2G"); ("nvmem", JStr "8G"); ("dimm", JStr "plugged"); ("packages", JInt 2)];
   [("nvmem", JStr "16G"); ("dimm", JStr "unplugged")];
   [("cxl", JList [JList [JObj [("mem", JStr "1G")]]])]]%string.

(** ** Reference notions for the lists that compile *)

(** The nodes with a package and a die are those with a row in the table. *)
Definition same_keys (t : topo) : Prop :=
  forall k, is_Some (node_package_die t !! k) <-> is_Some (dist_dict t !! k).

(** The group gives no distances of its own between nodes. *)
Definition no_distances (numaspec : jobj) : Prop :=
  jget numaspec "dist-all" = None /\ jget numaspec "node-dist" = None.

(** The running totals are sizes. *)
Definition totals_ok (v : vars) : Prop :=
  exists mem nvmem unplugged plugged, totals_are (memv v) mem nvmem unplugged plugged.

(** The lists that compile, among those that give no distances between
    nodes: every entry passes [validate]; a CXL entry has no other key and
    a forest the CXL builder accepts; a NUMA group with memory has a ["dimm"]
    the assembler knows; the groups with cores that give ["threads"] give
    those of the first group with cores; there is a group with cores; and
    there is built-in memory. *)
Definition compilable (numalist : list jobj) : Prop :=
  (forall numaspec, In numaspec numalist -> valid_spec numaspec)
  /\ (forall numaspec, In numaspec numalist -> is_numa_group numaspec = false ->
        has_other_keys numaspec = false
        /\ is_ok (qemucxlopts (jget_default numaspec "cxl" JNull)) = true)
  /\ (forall numaspec, In numaspec (numa_groups numalist) -> has_memory numaspec = true ->
        known_dimm (dimm_of numaspec) = true)
  /\ (forall numaspec, In numaspec (numa_groups numalist) -> cpu_bearing numaspec = true ->
        jget numaspec "threads" <> None ->
        int_key numaspec "threads" 2 = first_threads (numa_groups numalist))
  /\ existsb cpu_bearing (numa_groups numalist) = true
  /\ sumZ (map group_builtin (numa_groups numalist)) <> 0.

(** ** Reference notions for the numbering of the nodes *)

(** The socket and the die of the nodes of a group, in the order of their
    numbers: package by package, die by die, the sockets numbered after
    [socket0]. *)
Definition group_places (socket0 : Z) (numaspec : jobj) : list (Z * Z) :=
  flat_map
    (fun package =>
       flat_map
         (fun die => repeat (socket0 + 1 + package, die)
                            (Z.to_nat (int_key numaspec "nodes" 1)))
         (range (int_key numaspec "dies" 1)))
    (range (int_key numaspec "packages" 1)).

Fixpoint places_from (socket0 : Z) (numalist : list jobj) : list (Z * Z) :=
  match numalist with
  | [] => []
  | numaspec :: numalist' =>
      group_places socket0 numaspec
      ++ places_from (socket0 + int_key numaspec "packages" 1) numalist'
  end.

(** The socket and the die of every node of the list, the [n]-th element
    being those of node [n]. *)
Definition places (numalist : list jobj) : list (Z * Z) := places_from (-1) numalist.

(** The distances a group gives from each of its nodes: its ["node-dist"]
    with the node names read as integers. *)
Definition group_row (numaspec : jobj) : option (gmap Z jval) :=
  match jget numaspec "node-dist" with
  | Some nd =>
      match (let* items := py_items nd in int_keyed items) with
      | Ok row => Some row
      | Err _ => None
      end
  | None => None
  end.

(** The [node-dist] row of every node of the list, the [n]-th element being
    the one of node [n]. *)
Definition node_rows (numalist : list jobj) : list (option (gmap Z jval)) :=
  flat_map (fun numaspec => repeat (group_row numaspec) (Z.to_nat (group_node_count numaspec)))
           numalist.

(** The value of a key that the last group with the key gives. *)
Definition effective_key (key : string) (default : jval) (numalist : list jobj) : jval :=
  fold_left (fun x numaspec => match jget numaspec key with Some y => y | None => x end)
            numalist default.

(** The table maps the numbers [0 .. length l - 1] to the elements of [l]. *)
Definition listed {V : Type} (l : list V) (m : gmap Z V) : Prop :=
  forall n, m !! n = if 0 <=? n then l !! Z.to_nat n else None.

(** The same for a table that has entries for some of the numbers only. *)
Definition listed_some {V : Type} (l : list (option V)) (m : gmap Z V) : Prop :=
  forall n, m !! n = if 0 <=? n then (l !! Z.to_nat n) ≫= id else None.

(** The socket and the die of the nodes met so far, and the socket counter. *)
Definition placed (socket : Z) (l : list (Z * Z)) (t : topo) : Prop :=
  sourcenode t + 1 = Z.of_nat (length l)
  /\ lastsocket t = socket
  /\ listed l (node_package_die t).

(** The distance the topology gives two nodes: that of the same die, of the
    same package or of different packages, the first two as the last group
    that gives them has them. *)
Definition place_dist (numalist : list jobj) (i j : Z) : jval :=
  match places numalist !! Z.to_nat i, places numalist !! Z.to_nat j with
  | Some p, Some q =>
      if ((p.1 =? q.1) && (p.2 =? q.2))%bool
      then effective_key "dist-same-die" (JInt DEFAULT_DIST_SAME_DIE) numalist
      else if p.1 =? q.1
           then effective_key "dist-same-package" (JInt DEFAULT_DIST_SAME_PACKAGE) numalist
           else JInt DEFAULT_DIST
  | _, _ => JNull
  end.

(** The distance that the group of node [i] gives for node [j]. *)
Definition override (numalist : list jobj) (i j : Z) : option jval :=
  match node_rows numalist !! Z.to_nat i with
  | Some (Some row) => row !! j
  | _ => None
  end.

(** The distance of two nodes, read off the list. *)
Definition input_dist (numalist : list jobj) (i j : Z) : jval :=
  if i =? j then JInt DEFAULT_DIST_SAME_NODE
  else
    match override numalist (Z.max i j) (Z.min i j) with
    | Some x => x
    | None =>
        match override numalist (Z.min i j) (Z.max i j) with
        | Some x => x
        | None => place_dist numalist i j
        end
    end.

Definition two_packages_of_two_dies : list jobj :=
  [[("cores", JInt 1); ("mem", JStr "1G"); ("packages", JInt 2); ("dies", JInt 2);
    ("dist-same-die", JInt 12); ("node-dist", JObj [("4", JInt 77)])];
   [("mem", JStr "1G"); ("dist-same-package", JInt 15)]]%string.

(** ** Reference notions for a [dist-all] matrix of the wrong dimensions *)

(** The error of a [dist-all] matrix of [rows] rows for [nodes] nodes that
    has a wrong dimension: that of the rows when their number is wrong, else
    that of the first row of the wrong length. *)
Definition dimension_error (rows nodes : Z) : error :=
  ValueError (if rows =? nodes then WrongDimensionsRow else WrongDimensionsRows).

(** A ["node-dist"] that the first loop of [dists] accepts: none, or an
    object whose keys [int()] accepts. *)
Definition node_dist_ok (numaspec : jobj) : Prop :=
  match jget numaspec "node-dist" with
  | None => True
  | Some (JObj items) => Forall (fun item => is_ok (int_of_str item.1) = true) items
  | Some _ => False
  end.

(** A list on which [qemuopts] gets as far as the [dist-all] matrix: every
    entry passes [validate]; a CXL entry has no other key and a forest the
    CXL builder accepts; a NUMA group with memory has a ["dimm"] the
    assembler knows; the groups with cores that give ["threads"] give those
    of the first group with cores; and the ["node-dist"] of the NUMA groups
    are accepted. *)
Definition reaches_dist_all (numalist : list jobj) : Prop :=
  (forall numaspec, In numaspec numalist -> valid_spec numaspec)
  /\ (forall numaspec, In numaspec numalist -> is_numa_group numaspec = false ->
        has_other_keys numaspec = false
        /\ is_ok (qemucxlopts (jget_default numaspec "cxl" JNull)) = true)
  /\ (forall numaspec, In numaspec (numa_groups numalist) -> has_memory numaspec = true ->
        known_dimm (dimm_of numaspec) = true)
  /\ (forall numaspec, In numaspec (numa_groups numalist) -> cpu_bearing numaspec = true ->
        jget numaspec "threads" <> None ->
        int_key numaspec "threads" 2 = first_threads (numa_groups numalist))
  /\ (forall numaspec, In numaspec (numa_groups numalist) -> node_dist_ok numaspec).

(** A matrix of the wrong dimensions in a group before the last group that
    gives one. *)
Definition wrong_matrix_first : list jobj :=
  [[("cores", JInt 1); ("mem", JStr "1G");
    ("dist-all", JList [JList [JInt 10; JInt 20; JInt 30]])];
   [("mem", JStr "1G");
    ("dist-all", JList [JList [JInt 10; JInt 20]; JList [JInt 20; JInt 10]])]]%string.

(** A matrix of the wrong dimensions in a list that stops at an earlier
    step. *)
Definition wrong_rows_unknown_dimm : list jobj :=
  [[("cores", JInt 1); ("mem", JStr "1G"); ("dimm", JStr "hot");
    ("dist-all", JList [JList [JInt 10; JInt 20]])]]%string.

(** * Properties *)

(** ** The error monad and the loops *)

Lemma bind_ok {A B : Type} (c : result A) (k : A -> result B) (b : B) :
  bind c k = Ok b -> exists a, c = Ok a /\ k a = Ok b.
Proof. destruct c as [a|e]; simpl; [eauto | discriminate]. Qed.

Lemma bind_err {A B : Type} (c : result A) (k : A -> result B) :
  (exists e, c = Err e) -> exists e, bind c k = Err e.
Proof. intros [e ->]. simpl. eauto. Qed.

(** A loop whose body raises on one of the elements raises. *)
Lemma for_each_fails {A S : Type} (body : A -> S -> result S) (l : list A) (x : A) :
  In x l -> (forall s, exists e, body x s = Err e) ->
  forall s, exists e, for_each body l s = Err e.
Proof.
  intros Hin Hx. induction l as [|y l IH]; intros s; [destruct Hin|].
  simpl. destruct Hin as [->|Hin].
  - destruct (Hx s) as [e ->]. simpl. eauto.
  - destruct (body y s) as [s'|e]; simpl; eauto.
Qed.

Lemma jget_in_keys (d : jobj) (key : string) (v : jval) :
  jget d key = Some v -> In key (jkeys d).
Proof.
  induction d as [|[k x] d IH]; simpl; [discriminate|].
  destruct (String.eqb_spec k key) as [->|Hne]; [left; reflexivity|].
  intros H. right. auto.
Qed.

(** ** The validator *)

Lemma validate_size_rejects (val : jval) :
  val <> JStr "0" -> ~ gigabyte_literal val ->
  exists e, validate_size val = Err e.
Proof.
  intros Hzero Hlit. unfold validate_size.
  destruct val as [| b | z | s | l | kvs]; simpl; eauto.
  destruct (String.eqb_spec s "0") as [->|_]; [congruence|].
  unfold siadd.
  destruct (lower_endswith_g s) eqn:Hg; simpl; [|eauto].
  destruct (int_of_str (drop_last s)) as [n|e] eqn:Hn; simpl.
  - exfalso. apply Hlit. exists s, n. auto.
  - destruct e; eauto.
Qed.

(** C9 (as amended): for every group of the list, [validate] rejects a [mem]
    or [nvmem] value that is neither the string ["0"] nor a string ending in
    [g]/[G] whose remaining prefix [int()] accepts. *)
Theorem validate_rejects_malformed_size (numalist : list jobj) (numaspec : jobj)
  (key : string) (val : jval) :
  In numaspec numalist ->
  key = "mem"%string \/ key = "nvmem"%string ->
  jget numaspec key = Some val ->
  val <> JStr "0" ->
  ~ gigabyte_literal val ->
  exists e, validate numalist = Err e.
Proof.
  intros Hin Hkey Hget Hzero Hlit.
  apply (for_each_fails validate_spec numalist numaspec Hin).
  intros []. unfold validate_spec. apply bind_err.
  apply (for_each_fails (validate_key numaspec) _ key (jget_in_keys _ _ _ Hget)).
  intros []. unfold validate_key, jget_default. rewrite Hget.
  destruct (validate_size_rejects val Hzero Hlit) as [e He].
  destruct Hkey as [-> | ->]; simpl; rewrite He; simpl; eauto.
Qed.

Lemma validate_rejects_malformed_size_witness :
  (exists e, validate [[("cores", JInt 1); ("nvmem", JStr "2M")]%string] = Err e)
  /\ (exists e,
        validate [[("cores", JInt 1); ("mem", JStr (String "2" (String "031" "G")))]%string]
        = Err e).
Proof.
  split.
  - apply (validate_rejects_malformed_size _ [("cores", JInt 1); ("nvmem", JStr "2M")]%string
             "nvmem" (JStr "2M")).
    + left. reflexivity.
    + right. reflexivity.
    + reflexivity.
    + discriminate.
    + intros (s & n & Hs & Hg & _). inversion Hs; subst. vm_compute in Hg. discriminate.
  - apply (validate_rejects_malformed_size _
             [("cores", JInt 1); ("mem", JStr (String "2" (String "031" "G")))]%string
             "mem" (JStr (String "2" (String "031" "G")))).
    + left. reflexivity.
    + left. reflexivity.
    + reflexivity.
    + discriminate.
    + intros (s & n & Hs & _ & Hn). inversion Hs; subst. vm_compute in Hn. discriminate.
Defined.

(** C9 (counterexample): a negative size passes validation, and the whole
    compilation. *)
Lemma validate_accepts_negative_size :
  validate [[("cores", JInt 2); ("mem", JStr "-2G")]%string] = Ok tt
  /\ mem_param (options_of (qemuopts [[("cores", JInt 2); ("mem", JStr "-2G")]%string]))
     = "-m size=-2G,slots=0,maxmem=-2G"%string.
Proof. split; vm_compute; reflexivity. Qed.

(** [int()] strips the white space 9 .. 13 and 32, and not the separators
    28 .. 31: a number with a separator is no literal, for [validate], for
    [siadd] and for the CXL builder. *)
Lemma separators_are_not_stripped :
  int_of_str (String "009" (String "032" "2")) = Ok 2
  /\ int_of_str (String "028" "2") = Err (ValueError InvalidLiteral)
  /\ validate [[("cores", JInt 1); ("mem", JStr (String "2" (String "031" "G")))]%string]
     = Err (ValueError InvalidSize)
  /\ validate [[("cores", JStr (String "029" "2")); ("mem", JStr "1G")]%string]
     = Err (ValueError InvalidRange)
  /\ siadd (String "028" "2G") "0G" = Err (ValueError InvalidLiteral)
  /\ cxl_sizeM (JStr (String "030" "3M")) = Err BadCxlMemorySize.
Proof. repeat split; vm_compute; reflexivity. Qed.

(** ** CXL groups *)

Lemma has_other_keys_true (numaspec : jobj) :
  (exists key, In key (jkeys numaspec) /\ key <> "cxl"%string) ->
  has_other_keys numaspec = true.
Proof.
  intros (key & Hin & Hne). unfold has_other_keys.
  apply existsb_exists. exists key. split; [assumption|].
  destruct (String.eqb_spec key "cxl"); [contradiction | reflexivity].
Qed.

(** C4 (as amended): an entry whose ["cxl"] value is true in a condition (a
    list that is not empty, for one) and that has another key makes the
    compilation fail. *)
Theorem cxl_with_other_keys_fails (numalist : list jobj) (numaspec : jobj)
  (cxl_spec : jval) :
  In numaspec numalist ->
  jget numaspec "cxl" = Some cxl_spec ->
  truthy cxl_spec = true ->
  (exists key, In key (jkeys numaspec) /\ key <> "cxl"%string) ->
  exists e, qemuopts numalist = Err e.
Proof.
  intros Hin Hget Htrue Hother. unfold qemuopts.
  destruct (validate numalist) as [[]|e]; simpl; [|eauto].
  apply bind_err. unfold qemuopts_groups.
  apply (for_each_fails qemuopts_group numalist numaspec Hin).
  intros v. unfold qemuopts_group, jget_default. rewrite Hget, Htrue.
  rewrite (has_other_keys_true _ Hother). eauto.
Qed.

Lemma cxl_with_other_keys_fails_witness :
  exists e,
    qemuopts [[("cores", JInt 1); ("mem", JStr "1G")];
              [("cxl", JList [JList [JObj [("mem", JStr "1G")]]]); ("nodes", JInt 1)]]%string
    = Err e.
Proof.
  apply (cxl_with_other_keys_fails _
           [("cxl", JList [JList [JObj [("mem", JStr "1G")]]]); ("nodes", JInt 1)]%string
           (JList [JList [JObj [("mem", JStr "1G")]%string]])).
  - right. left. reflexivity.
  - reflexivity.
  - reflexivity.
  - exists "nodes"%string. split; [right; left; reflexivity | discriminate].
Defined.

(** C4 (counterexample): an entry with the key ["cxl"] holding an empty list
    and with other keys compiles, as a NUMA group. *)
Lemma empty_cxl_with_other_keys_compiles :
  is_ok (qemuopts [[("cxl", JList []); ("cores", JInt 1); ("mem", JStr "1G")]%string]) = true
  /\ smp_param
       (options_of (qemuopts [[("cxl", JList []); ("cores", JInt 1); ("mem", JStr "1G")]%string]))
     = "-smp cpus=2,threads=2,sockets=1,maxcpus=2"%string.
Proof. split; vm_compute; reflexivity. Qed.

(** C2 (the code at the failing input): a device with neither ["mem"] nor
    ["switch"] is rejected under a switch but accepted, and skipped, at a
    root port. *)
Theorem unsupported_device_at_root_port_is_accepted :
  qemucxlopts (JList [JList [JObj [("switch"%string, JList [JObj [("size"%string, JStr "1G")]])]]])
  = Err (ValueError UnsupportedCxlInSwitch)
  /\ qemucxlopts (JList [JList [JObj [("size"%string, JStr "1G")]]])
     = Ok ([],
           ["-device"; "pxb-cxl,bus_nr=12,bus=pcie.0,id=cxlhb0,numa_node=0";
            "-device"; "cxl-rp,port=0,bus=cxlhb0,id=cxlrp0hb0,chassis=193,slot=0"]%string,
           ["-M"; "cxl-fmw.0.targets.0=cxlhb0,cxl-fmw.0.size=0G"]%string,
           "0G"%string)
  /\ is_ok (qemuopts [[("cores", JInt 1); ("mem", JStr "1G")];
                      [("cxl", JList [JList [JObj [("size", JStr "1G")]]])]]%string) = true.
Proof. repeat split; vm_compute; reflexivity. Qed.

(** ** A memory device that is absent at boot *)

(** [cxlmemopts] on a device with ["present": false]: the backend object
    is appended, the size and the device are counted, and the device
    parameters stay as they are. *)
Lemma cxlmemopts_absent_device (kvs : jobj) (mem_size : string) (sizeM : Z)
  (bus_id : string) (c : cxlvars) :
  jget kvs "mem" = Some (JStr mem_size) ->
  cxl_sizeM (JStr mem_size) = Ok sizeM ->
  jget kvs "present" = Some (JBool false) ->
  exists c',
    cxlmemopts (JObj kvs) bus_id c = Ok c'
    /\ cxl_objectparams c' =
         cxl_objectparams c
         ++ ["-object";
             "memory-backend-ram,id=" +:+ cxl_backend_id (mem_count c) bus_id
             +:+ ",share=on,size=" +:+ mem_size]%string
    /\ cxl_deviceparams c' = cxl_deviceparams c
    /\ total_mem_sizeM c' = total_mem_sizeM c + sizeM
    /\ mem_count c' = mem_count c + 1.
Proof.
  intros Hmem Hsize Hpresent. unfold cxlmemopts, py_getitem.
  rewrite Hmem. cbn [bind]. rewrite Hsize. cbn [bind].
  unfold jget_default. rewrite Hpresent. cbn [truthy].
  eexists. split; [reflexivity|]. cbn. auto.
Qed.

(** ** The firmware window *)

Lemma addr_sizeG_ceil (total : Z) : addr_sizeG total = ceil_div total 4096 * 4.
Proof. unfold addr_sizeG, ceil_div. Z.div_mod_to_equations. lia. Qed.

(** [ceil_div] is the ceiling of the quotient. *)
Lemma ceil_div_spec (a m k : Z) :
  0 < m -> (ceil_div a m = k <-> m * (k - 1) < a <= m * k).
Proof. intros Hm. unfold ceil_div. Z.div_mod_to_equations. nia. Qed.

Section loop_sums.
Context {A S : Type} (measure : S -> Z) (weight : A -> Z).

(** A loop whose body adds the weight of its element to the measure adds
    the sum of the weights. *)
Lemma for_enumerate_from_sum (body : Z -> A -> S -> result S) (l : list A) :
  Forall (fun x => forall i s, exists s',
              body i x s = Ok s' /\ measure s' = measure s + weight x) l ->
  forall i s, exists s',
    for_enumerate_from i body l s = Ok s'
    /\ measure s' = measure s + sumZ (map weight l).
Proof.
  induction 1 as [|x l Hx _ IH]; intros i s; simpl.
  - exists s. split; [reflexivity | lia].
  - destruct (Hx i s) as (s1 & -> & H1). simpl.
    destruct (IH (i + 1) s1) as (s2 & -> & H2).
    exists s2. split; [reflexivity | lia].
Qed.

End loop_sums.

Lemma well_sized_Forall (l : list cxl_device) :
  fold_right (fun d P => well_sized d /\ P) True l <-> Forall well_sized l.
Proof.
  induction l as [|d l IH]; simpl.
  - split; auto.
  - rewrite IH. split; [intros []; constructor; auto | inversion 1; auto].
Qed.

(** Induction on devices, with the hypothesis for the devices of a switch. *)
Lemma cxl_device_induction (P : cxl_device -> Prop) :
  (forall size present, P (MemoryDevice size present)) ->
  (forall downstream, Forall P downstream -> P (Switch downstream)) ->
  forall d, P d.
Proof.
  intros Hmem Hswitch.
  fix IH 1. intros [size present | downstream].
  - apply Hmem.
  - apply Hswitch. induction downstream as [|d l IHl]; constructor; auto.
Qed.

(** [cxlswitchopts] on a switch whose ["switch"] value is a list is the
    enumeration of [downstream_body] over it. *)
Lemma cxlswitchopts_list (devices : list jval) (rest : jobj) (bus_id : string) (c : cxlvars) :
  cxlswitchopts (JObj (("switch"%string, JList devices) :: rest)) bus_id c
  = for_enumerate (downstream_body cxlswitchopts (upstream_id_of bus_id)) devices
      (extend_device ("cxl-upstream,bus=" +:+ bus_id +:+ ",id=" +:+ upstream_id_of bus_id) c).
Proof.
  cbn [cxlswitchopts]. change (String.eqb "switch" "switch") with true. cbv iota.
  unfold for_enumerate. generalize 0.
  generalize (extend_device ("cxl-upstream,bus=" +:+ bus_id +:+ ",id=" +:+ upstream_id_of bus_id) c).
  induction devices as [|d l IH]; intros c0 i; [reflexivity|].
  cbn [for_enumerate_from].
  destruct (downstream_body cxlswitchopts (upstream_id_of bus_id) i d c0); cbn [bind]; auto.
Qed.

Lemma cxlmemopts_total (size : string) (present : option bool) (bus_id : string) (c : cxlvars) :
  is_Some (megabytes size) ->
  exists c', cxlmemopts (json_of_device (MemoryDevice size present)) bus_id c = Ok c'
             /\ total_mem_sizeM c' = total_mem_sizeM c + default 0 (megabytes size).
Proof.
  intros [n Hn]. unfold megabytes in *.
  destruct (cxl_sizeM (JStr size)) as [n'|] eqn:Hsize; [|discriminate].
  unfold cxlmemopts. cbn [json_of_device py_getitem jget]. 
  change (String.eqb "mem" "mem") with true. cbv iota. cbn [bind].
  rewrite Hsize. cbn [bind]. eexists. split; [reflexivity|].
  destruct present as [[]|]; reflexivity.
Qed.

Lemma contains_mem_total (d : cxl_device) :
  exists b, py_contains "mem" (json_of_device d) = Ok b.
Proof. destruct d; simpl; eauto. Qed.

Lemma downstream_body_total (upstream_id : string) (d : cxl_device) :
  dispatch_adds d ->
  forall i c, exists c',
    downstream_body cxlswitchopts upstream_id i (json_of_device d) c = Ok c'
    /\ total_mem_sizeM c' = total_mem_sizeM c + device_megabytes d.
Proof.
  intros Hd i c. unfold downstream_body.
  destruct (downstream_port upstream_id i c) as [id c1] eqn:Hport.
  assert (Hc1 : total_mem_sizeM c1 = total_mem_sizeM c)
    by (unfold downstream_port in Hport; inversion Hport; reflexivity).
  destruct (Hd id c1) as [Hmem Hsw].
  destruct (contains_mem_total d) as [[] Hb]; rewrite Hb in *; cbn [bind].
  - destruct (Hmem eq_refl) as (c2 & -> & H2). exists c2. split; [reflexivity | lia].
  - destruct (Hsw eq_refl) as (-> & c2 & -> & H2). cbn [bind].
    exists c2. split; [reflexivity | lia].
Qed.

Lemma device_total (d : cxl_device) : well_sized d -> dispatch_adds d.
Proof.
  induction d as [size present | downstream IH] using cxl_device_induction;
    intros Hwell bus_id c.
  - split; [intros _; apply cxlmemopts_total; assumption | discriminate].
  - split; [discriminate | intros _]. split; [reflexivity|].
    cbn [json_of_device device_megabytes]. rewrite cxlswitchopts_list.
    cbn [well_sized] in Hwell. apply well_sized_Forall in Hwell.
    unfold for_enumerate.
    match goal with
    | |- context [for_enumerate_from 0 ?body (map json_of_device downstream) ?c0] =>
        destruct (for_enumerate_from_sum total_mem_sizeM device_megabytes
                    (fun i d => body i (json_of_device d)) downstream) with (i := 0) (s := c0)
          as (c' & Hrun & Htotal)
    end.
    + apply Forall_forall. intros d Hd i s.
      apply downstream_body_total.
      rewrite Forall_forall in IH, Hwell. apply IH; [|apply Hwell]; assumption.
    + exists c'. split; [|exact Htotal].
      rewrite <- Hrun. clear. generalize 0. generalize (extend_device
        ("cxl-upstream,bus=" +:+ bus_id +:+ ",id=" +:+ upstream_id_of bus_id) c).
      induction downstream as [|d l IHl]; intros c0 i; [reflexivity|].
      cbn [map for_enumerate_from]. destruct (downstream_body _ _ _ _ _); cbn [bind]; auto.
Qed.

Lemma for_enumerate_from_map {A B S : Type} (f : A -> B) (body : Z -> B -> S -> result S)
  (l : list A) (i : Z) (s : S) :
  for_enumerate_from i body (map f l) s
  = for_enumerate_from i (fun i x => body i (f x)) l s.
Proof.
  revert i s. induction l as [|x l IH]; intros i s; [reflexivity|].
  cbn [map for_enumerate_from]. destruct (body i (f x) s); cbn [bind]; auto.
Qed.

Lemma root_port_body_total (host_bridge_id : string) (d : cxl_device) :
  well_sized d ->
  forall i c, exists c',
    root_port_body host_bridge_id i (json_of_device d) c = Ok c'
    /\ total_mem_sizeM c' = total_mem_sizeM c + device_megabytes d.
Proof.
  intros Hwell i c. unfold root_port_body.
  set (id := ("cxlrp" +:+ _)%string). set (c1 := next_port _).
  destruct (device_total d Hwell id c1) as [Hmem Hsw].
  destruct (contains_mem_total d) as [[] Hb]; rewrite Hb in *; cbn [bind].
  - destruct (Hmem eq_refl) as (c2 & -> & H2). exists c2. split; [reflexivity | exact H2].
  - destruct (Hsw eq_refl) as (-> & c2 & -> & H2). cbn [bind].
    exists c2. split; [reflexivity | exact H2].
Qed.

Lemma host_bridge_body_total (root_ports : list cxl_device) :
  Forall well_sized root_ports ->
  forall i r, exists r',
    host_bridge_body i (JList (map json_of_device root_ports)) r = Ok r'
    /\ total_mem_sizeM (shared r')
       = total_mem_sizeM (shared r) + sumZ (map device_megabytes root_ports)
    /\ firmware_targets r' = firmware_targets r ++ ["cxlhb" +:+ str_of_Z i].
Proof.
  intros Hwell i r. unfold host_bridge_body. cbn [py_iter bind].
  unfold for_enumerate. rewrite for_enumerate_from_map.
  match goal with
  | |- context [for_enumerate_from 0 ?body root_ports ?c0] =>
      destruct (for_enumerate_from_sum total_mem_sizeM device_megabytes body root_ports)
        with (i := 0) (s := c0) as (c' & -> & Htotal)
  end.
  - eapply Forall_impl; [exact Hwell|]. intros d Hd j s.
    apply root_port_body_total. exact Hd.
  - cbn [bind]. eexists. split; [reflexivity|]. split; [exact Htotal | reflexivity].
Qed.

Lemma host_bridge_loop_total (forest : list (list cxl_device)) :
  Forall (Forall well_sized) forest ->
  forall i r, exists r',
    for_enumerate_from i host_bridge_body
      (map (fun root_ports => JList (map json_of_device root_ports)) forest) r = Ok r'
    /\ total_mem_sizeM (shared r') = total_mem_sizeM (shared r) + forest_megabytes forest
    /\ firmware_targets r'
       = firmware_targets r
         ++ map (fun i => "cxlhb" +:+ str_of_Z i) (seqZ i (Z.of_nat (length forest))).
Proof.
  induction 1 as [|root_ports forest Hports _ IH]; intros i r.
  - exists r. split; [reflexivity|]. split; [cbn; lia | cbn; rewrite app_nil_r; reflexivity].
  - cbn [map for_enumerate_from].
    destruct (host_bridge_body_total root_ports Hports i r) as (r1 & -> & Ht1 & Hf1).
    cbn [bind]. destruct (IH (i + 1) r1) as (r2 & -> & Ht2 & Hf2).
    exists r2. split; [reflexivity|]. split.
    + unfold forest_megabytes in *. cbn [map sumZ fold_right] in *.
      fold (sumZ (map (fun root_ports => sumZ (map device_megabytes root_ports)) forest)).
      lia.
    + rewrite Hf2, Hf1, <- app_assoc. f_equal.
      rewrite (seqZ_cons i) by (cbn [length]; lia). cbn [map app]. do 2 f_equal.
      cbn [length]. f_equal; lia.
Qed.

(** C6: for every CXL forest with memory sizes in [M] or [G], the firmware
    window emitted for each host bridge is the total requested memory in
    megabytes divided by 4096 and rounded up, times 4 (in G). A single 256M
    device gives 4G, a forest totalling 8500M gives 12G. *)
Theorem firmware_window_size :
  (forall forest : list (list cxl_device),
     Forall (Forall well_sized) forest ->
     Mparams_of (qemucxlopts (json_of_forest forest))
     = Ok ["-M"%string;
           join "," (map (fmw_entry (ceil_div (forest_megabytes forest) 4096 * 4))
                         (enumerate_from 0 (host_bridge_ids forest)))])
  /\ ceil_div 256 4096 * 4 = 4
  /\ ceil_div 8500 4096 * 4 = 12
  /\ Mparams_of (qemucxlopts (json_of_forest [[MemoryDevice "256M" None]]))
     = Ok ["-M"; "cxl-fmw.0.targets.0=cxlhb0,cxl-fmw.0.size=4G"]%string
  /\ forest_megabytes [[MemoryDevice "8G" None]; [Switch [MemoryDevice "308M" (Some false)]]]
     = 8500
  /\ Mparams_of
       (qemucxlopts
          (json_of_forest [[MemoryDevice "8G" None]; [Switch [MemoryDevice "308M" (Some false)]]]))
     = Ok ["-M";
           "cxl-fmw.0.targets.0=cxlhb0,cxl-fmw.0.size=12G,cxl-fmw.1.targets.0=cxlhb1,cxl-fmw.1.size=12G"]%string.
Proof.
  split; [|repeat split; vm_compute; reflexivity].
  intros forest Hwell. unfold qemucxlopts, cxl_build, json_of_forest.
  cbn [py_iter bind]. unfold for_enumerate.
  destruct (host_bridge_loop_total forest Hwell 0
              {| shared := cxl_init; bus_nr := 12; firmware_targets := [] |})
    as (r & -> & Htotal & Htargets).
  cbn [bind Mparams_of]. unfold cxl_Mparams.
  rewrite addr_sizeG_ceil, Htotal, Htargets. reflexivity.
Qed.

Lemma firmware_window_size_witness :
  Mparams_of
    (qemucxlopts (json_of_forest [[Switch [MemoryDevice "4G" None; MemoryDevice "1M" None]]]))
  = Ok ["-M"%string;
        join "," (map (fmw_entry (ceil_div 4097 4096 * 4)) (enumerate_from 0 ["cxlhb0"%string]))].
Proof.
  apply (proj1 firmware_window_size
           [[Switch [MemoryDevice "4G" None; MemoryDevice "1M" None]]]).
  repeat constructor; vm_compute; eauto.
Defined.

(** ** CXL memory devices *)

Lemma flat_enumerate_app {A B : Type} (f : Z -> A -> list B) (l1 l2 : list A) :
  forall i, flat_enumerate f i (l1 ++ l2)
            = flat_enumerate f i l1 ++ flat_enumerate f (i + Z.of_nat (length l1)) l2.
Proof.
  induction l1 as [|x l1 IH]; intros i.
  - cbn. rewrite Z.add_0_r. reflexivity.
  - cbn [app flat_enumerate length]. rewrite IH, <- app_assoc.
    replace (i + 1 + Z.of_nat (length l1)) with (i + Z.of_nat (S (length l1))) by lia.
    reflexivity.
Qed.

Lemma device_memories_switch (bus_id : string) (downstream : list cxl_device) :
  device_memories bus_id (Switch downstream)
  = flat_enumerate (fun idx d => device_memories (downstream_id_of (upstream_id_of bus_id) idx) d)
                   0 downstream.
Proof.
  cbn [device_memories]. generalize 0.
  induction downstream as [|d l IH]; intros i; [reflexivity|].
  cbn [flat_enumerate]. rewrite IH. reflexivity.
Qed.

Lemma emitted_refl (c : cxlvars) : emitted [] c c.
Proof.
  unfold emitted, backends, bindings, memories_megabytes. cbn.
  rewrite !app_nil_r. repeat split; lia.
Qed.

Lemma emitted_trans (m1 m2 : list memory_at) (c1 c2 c3 : cxlvars) :
  emitted m1 c1 c2 -> emitted m2 c2 c3 -> emitted (m1 ++ m2) c1 c3.
Proof.
  intros (O1 & D1 & N1 & T1) (O2 & D2 & N2 & T2). unfold emitted, backends, bindings in *.
  rewrite !flat_enumerate_app, <- N1. rewrite O2, O1, D2, D1, N2, N1, T2, T1.
  rewrite !app_assoc, length_app. unfold memories_megabytes. rewrite map_app.
  repeat split; try lia.
  unfold sumZ. rewrite fold_right_app.
  generalize (map (fun m => default 0 (megabytes (at_size m))) m1) as l.
  induction l as [|x l IH]; cbn [fold_right]; lia.
Qed.

(** A port or a switch: a [-device] parameter that binds no memory. *)
Lemma emitted_device (param : string) (c : cxlvars) :
  is_type3 param = false -> emitted [] c (extend_device param c).
Proof.
  intros Hparam. unfold emitted, backends, bindings, memories_megabytes, extend_device. cbn.
  rewrite List.filter_app. cbn [List.filter]. rewrite Hparam, !app_nil_r.
  repeat split; lia.
Qed.

Lemma emitted_port (c : cxlvars) : emitted [] c (next_port c).
Proof.
  unfold emitted, backends, bindings, memories_megabytes, next_port. cbn.
  rewrite !app_nil_r. repeat split; lia.
Qed.

(** A memory device at a port. *)
Lemma cxlmemopts_emitted (size : string) (present : option bool) (bus_id : string)
  (c : cxlvars) :
  is_Some (megabytes size) ->
  exists c', cxlmemopts (json_of_device (MemoryDevice size present)) bus_id c = Ok c'
             /\ emitted (device_memories bus_id (MemoryDevice size present)) c c'.
Proof.
  intros [n Hn]. unfold megabytes in Hn.
  destruct (cxl_sizeM (JStr size)) as [n'|] eqn:Hsize; [|discriminate].
  inversion Hn; subst n'; clear Hn.
  unfold cxlmemopts. cbn [json_of_device py_getitem jget].
  change (String.eqb "mem" "mem") with true. cbv iota. cbn [bind].
  rewrite Hsize. cbn [bind]. eexists. split; [reflexivity|].
  unfold emitted, backends, bindings, memories_megabytes, megabytes.
  cbn [device_memories flat_enumerate map sumZ fold_right at_port at_size at_present length].
  rewrite Hsize. cbn [default].
  destruct present as [[]|]; cbn; rewrite ?List.filter_app, ?app_nil_r; cbn;
    repeat split; lia.
Qed.

(** A loop whose body emits the memory devices [f i x] of its element
    emits those of all its elements. *)
Lemma for_enumerate_from_emitted {A : Type} (f : Z -> A -> list memory_at)
  (body : Z -> A -> cxlvars -> result cxlvars) (l : list A) :
  Forall (fun x => forall i c, exists c', body i x c = Ok c' /\ emitted (f i x) c c') l ->
  forall i c, exists c',
    for_enumerate_from i body l c = Ok c' /\ emitted (flat_enumerate f i l) c c'.
Proof.
  induction 1 as [|x l Hx _ IH]; intros i c; cbn [for_enumerate_from flat_enumerate].
  - exists c. split; [reflexivity | apply emitted_refl].
  - destruct (Hx i c) as (c1 & -> & H1). cbn [bind].
    destruct (IH (i + 1) c1) as (c2 & -> & H2).
    exists c2. split; [reflexivity | exact (emitted_trans _ _ _ _ _ H1 H2)].
Qed.

Lemma downstream_body_emitted (upstream_id : string) (d : cxl_device) :
  dispatch_emits d ->
  forall i c, exists c',
    downstream_body cxlswitchopts upstream_id i (json_of_device d) c = Ok c'
    /\ emitted (device_memories (downstream_id_of upstream_id i) d) c c'.
Proof.
  intros Hd i c. unfold downstream_body, downstream_port.
  fold (downstream_id_of upstream_id i).
  match goal with
  | |- context [next_port (extend_device ?p c)] =>
      assert (Hport : emitted [] c (next_port (extend_device p c)))
        by (apply (emitted_trans [] [] c (extend_device p c));
            [apply emitted_device; reflexivity | apply emitted_port]);
      set (c1 := next_port (extend_device p c)) in *
  end.
  destruct (Hd (downstream_id_of upstream_id i) c1) as [Hmem Hsw].
  destruct (contains_mem_total d) as [[] Hb]; rewrite Hb in *; cbn [bind].
  - destruct (Hmem eq_refl) as (c2 & -> & H2). exists c2.
    split; [reflexivity | exact (emitted_trans [] _ _ _ _ Hport H2)].
  - destruct (Hsw eq_refl) as (-> & c2 & -> & H2). cbn [bind]. exists c2.
    split; [reflexivity | exact (emitted_trans [] _ _ _ _ Hport H2)].
Qed.

Lemma device_emits (d : cxl_device) : well_sized d -> dispatch_emits d.
Proof.
  induction d as [size present | downstream IH] using cxl_device_induction;
    intros Hwell bus_id c.
  - split; [intros _; apply cxlmemopts_emitted; assumption | discriminate].
  - split; [discriminate | intros _]. split; [reflexivity|].
    cbn [json_of_device]. rewrite cxlswitchopts_list, device_memories_switch.
    cbn [well_sized] in Hwell. apply well_sized_Forall in Hwell.
    unfold for_enumerate. rewrite for_enumerate_from_map.
    match goal with
    | |- context [for_enumerate_from 0 ?body downstream ?c0] =>
        destruct (for_enumerate_from_emitted
                    (fun idx d' =>
                       device_memories (downstream_id_of (upstream_id_of bus_id) idx) d')
                    body downstream) with (i := 0) (c := c0)
          as (c' & Hrun & Hemitted)
    end.
    + apply Forall_forall. intros d Hd i s.
      apply downstream_body_emitted.
      rewrite Forall_forall in IH, Hwell. apply IH; [|apply Hwell]; assumption.
    + exists c'. split; [exact Hrun|].
      refine (emitted_trans [] _ _ _ _ _ Hemitted). apply emitted_device. reflexivity.
Qed.

Lemma root_port_body_emitted (host_bridge_id : string) (d : cxl_device) :
  well_sized d ->
  forall i c, exists c',
    root_port_body host_bridge_id i (json_of_device d) c = Ok c'
    /\ emitted (device_memories (root_port_id_of host_bridge_id i) d) c c'.
Proof.
  intros Hwell i c. unfold root_port_body. fold (root_port_id_of host_bridge_id i).
  match goal with
  | |- context [next_port (extend_device ?p c)] =>
      assert (Hport : emitted [] c (next_port (extend_device p c)))
        by (apply (emitted_trans [] [] c (extend_device p c));
            [apply emitted_device; reflexivity | apply emitted_port]);
      set (c1 := next_port (extend_device p c)) in *
  end.
  destruct (device_emits d Hwell (root_port_id_of host_bridge_id i) c1) as [Hmem Hsw].
  destruct (contains_mem_total d) as [[] Hb]; rewrite Hb in *; cbn [bind].
  - destruct (Hmem eq_refl) as (c2 & -> & H2). exists c2.
    split; [reflexivity | exact (emitted_trans [] _ _ _ _ Hport H2)].
  - destruct (Hsw eq_refl) as (-> & c2 & -> & H2). cbn [bind]. exists c2.
    split; [reflexivity | exact (emitted_trans [] _ _ _ _ Hport H2)].
Qed.

Lemma host_bridge_body_emitted (root_ports : list cxl_device) :
  Forall well_sized root_ports ->
  forall i r, exists r',
    host_bridge_body i (JList (map json_of_device root_ports)) r = Ok r'
    /\ emitted (flat_enumerate
                  (fun root_port d =>
                     device_memories (root_port_id_of ("cxlhb" +:+ str_of_Z i) root_port) d)
                  0 root_ports)
               (shared r) (shared r').
Proof.
  intros Hwell i r. unfold host_bridge_body. cbn [py_iter bind].
  unfold for_enumerate. rewrite for_enumerate_from_map.
  match goal with
  | |- context [for_enumerate_from 0 ?body root_ports ?c0] =>
      destruct (for_enumerate_from_emitted
                  (fun root_port d =>
                     device_memories (root_port_id_of ("cxlhb" +:+ str_of_Z i) root_port) d)
                  body root_ports)
        with (i := 0) (c := c0) as (c' & -> & Hemitted)
  end.
  - eapply Forall_impl; [exact Hwell|]. intros d Hd j s.
    apply root_port_body_emitted. exact Hd.
  - cbn [bind]. eexists. split; [reflexivity|]. cbn [shared].
    refine (emitted_trans [] _ _ _ _ _ Hemitted). apply emitted_device. reflexivity.
Qed.

Lemma host_bridge_loop_emitted (forest : list (list cxl_device)) :
  Forall (Forall well_sized) forest ->
  forall i r, exists r',
    for_enumerate_from i host_bridge_body
      (map (fun root_ports => JList (map json_of_device root_ports)) forest) r = Ok r'
    /\ emitted (flat_enumerate
                  (fun host_bridge root_ports =>
                     flat_enumerate
                       (fun root_port d =>
                          device_memories
                            (root_port_id_of ("cxlhb" +:+ str_of_Z host_bridge) root_port) d)
                       0 root_ports)
                  i forest)
               (shared r) (shared r').
Proof.
  induction 1 as [|root_ports forest Hports _ IH]; intros i r.
  - exists r. split; [reflexivity | apply emitted_refl].
  - cbn [map for_enumerate_from flat_enumerate].
    destruct (host_bridge_body_emitted root_ports Hports i r) as (r1 & -> & H1).
    cbn [bind]. destruct (IH (i + 1) r1) as (r2 & -> & H2).
    exists r2. split; [reflexivity | exact (emitted_trans _ _ _ _ _ H1 H2)].
Qed.



(** ** The distance table *)

Lemma set2_get2 (dd dd' : dist_table) (s d : Z) (x : jval) :
  set2 dd s d x = Ok dd' ->
  forall i j, get2 dd' i j = if decide (i = s /\ j = d) then Some x else get2 dd i j.
Proof.
  unfold set2. destruct (dd !! s) as [row|] eqn:Hrow; [|discriminate].
  intros H i j. inversion H; subst; clear H. unfold get2.
  destruct (decide (i = s)) as [->|Hi].
  - rewrite lookup_insert_eq, Hrow.
    destruct (decide (j = d)) as [->|Hj].
    + rewrite lookup_insert_eq. rewrite decide_True; auto.
    + rewrite lookup_insert_ne by congruence. rewrite decide_False; [reflexivity | tauto].
  - rewrite lookup_insert_ne by congruence. rewrite decide_False; [reflexivity | tauto].
Qed.

Lemma set2_rows (dd dd' : dist_table) (s d : Z) (x : jval) :
  set2 dd s d x = Ok dd' -> forall k, is_Some (dd' !! k) <-> is_Some (dd !! k).
Proof.
  unfold set2. destruct (dd !! s) as [row|] eqn:Hrow; [|discriminate].
  intros H k. inversion H; subst; clear H.
  destruct (decide (k = s)) as [->|Hk].
  - rewrite lookup_insert_eq, Hrow. split; eauto.
  - rewrite lookup_insert_ne by congruence. reflexivity.
Qed.

Lemma set2_succeeds (dd : dist_table) (s d : Z) (x : jval) :
  is_Some (dd !! s) -> exists dd', set2 dd s d x = Ok dd'.
Proof. intros [row Hrow]. unfold set2. rewrite Hrow. eauto. Qed.

Lemma set2_extends (dd dd' : dist_table) (s d : Z) (x : jval) :
  set2 dd s d x = Ok dd' -> extends dd dd'.
Proof.
  intros H. split; [apply (set2_rows _ _ _ _ _ H)|].
  intros i j Hij. rewrite (set2_get2 _ _ _ _ _ H). case_decide; eauto.
Qed.

Lemma extends_refl (dd : dist_table) : extends dd dd.
Proof. split; intros; tauto. Qed.

Lemma extends_trans (dd1 dd2 dd3 : dist_table) :
  extends dd1 dd2 -> extends dd2 dd3 -> extends dd1 dd3.
Proof.
  intros [R1 G1] [R2 G2]. split.
  - intros k. rewrite R2. apply R1.
  - intros i j H. apply G2, G1, H.
Qed.

Lemma topology_dist_sym (v : dvars) (i j : Z) :
  topology_dist v i j = topology_dist v j i.
Proof.
  unfold topology_dist, lookup_or_keyerror.
  destruct (node_package_die (topology v) !! i) as [[pi di]|];
    destruct (node_package_die (topology v) !! j) as [[pj dj]|]; cbn; try reflexivity.
  rewrite (Z.eqb_sym pi pj), (Z.eqb_sym di dj). reflexivity.
Qed.

(** One step of the filling loop keeps the invariant, keeps what was filled
    and fills its pair. *)
Lemma fill_pair_step (v : dvars) (s d : Z) (dd dd' : dist_table) :
  pair_inv v dd -> fill_pair v s d dd = Ok dd' ->
  pair_inv v dd' /\ extends dd dd' /\ is_Some (get2 dd' s d).
Proof.
  intros (Hdiag & Hsym & Hsrc) Hrun. unfold fill_pair in Hrun.
  destruct (Z.eqb_spec s d) as [->|Hsd].
  - (* the diagonal *)
    pose proof (set2_get2 _ _ _ _ _ Hrun) as Hget.
    split; [|split; [exact (set2_extends _ _ _ _ _ Hrun)|]].
    + split; [|split].
      * intros i x. rewrite Hget. case_decide; [congruence | apply Hdiag].
      * intros i j x Hij. rewrite !Hget.
        rewrite !decide_False by (intros []; congruence). apply Hsym, Hij.
      * intros i j x Hij. rewrite Hget.
        rewrite decide_False by (intros []; congruence). apply Hsrc, Hij.
    + rewrite Hget, decide_True; eauto.
  - destruct (get2 (node_node_dist v) s d) as [x|] eqn:Hover.
    + (* an explicit distance, written in both directions *)
      apply bind_ok in Hrun as (dd1 & H1 & H2).
      pose proof (set2_get2 _ _ _ _ _ H1) as G1.
      pose proof (set2_get2 _ _ _ _ _ H2) as G2.
      assert (Hget : forall i j, get2 dd' i j =
                if decide ((i = s /\ j = d) \/ (i = d /\ j = s)) then Some x
                else get2 dd i j).
      { intros i j. rewrite G2, G1. repeat case_decide; try reflexivity; tauto. }
      split; [|split].
      * split; [|split].
        -- intros i y. rewrite Hget. case_decide; [lia | apply Hdiag].
        -- intros i j y Hij. rewrite !Hget.
           destruct (decide ((i = s /\ j = d) \/ (i = d /\ j = s))) as [Hc|Hc].
           ++ rewrite decide_True by tauto. auto.
           ++ rewrite decide_False by tauto. apply Hsym, Hij.
        -- intros i j y Hij. rewrite Hget.
           case_decide as Hc; [|apply Hsrc, Hij].
           intros Hy. inversion Hy; subst.
           destruct Hc as [[-> ->]|[-> ->]]; auto.
      * eapply extends_trans; eapply set2_extends; eassumption.
      * rewrite Hget, decide_True; eauto.
    + (* the topology, unless the entry is there already *)
      apply bind_ok in Hrun as (row & Hrow & Hrun).
      unfold lookup_or_keyerror in Hrow.
      destruct (dd !! s) as [row'|] eqn:Hdd; inversion Hrow; subst; clear Hrow.
      assert (Hsd_get : get2 dd s d = row !! d) by (unfold get2; rewrite Hdd; reflexivity).
      destruct (row !! d) as [y|] eqn:Hcell.
      * inversion Hrun; subst. split; [repeat split; assumption|].
        split; [apply extends_refl | rewrite Hsd_get; eauto].
      * apply bind_ok in Hrun as (x & Hx & Hset).
        pose proof (set2_get2 _ _ _ _ _ Hset) as Hget.
        split; [|split; [exact (set2_extends _ _ _ _ _ Hset)|]].
        -- split; [|split].
           ++ intros i y. rewrite Hget. case_decide; [lia | apply Hdiag].
           ++ intros i j y Hij. rewrite !Hget.
              destruct (decide (i = s /\ j = d)) as [[-> ->]|Hc].
              ** rewrite decide_False by lia. intros Hy. inversion Hy; subst.
                 destruct (get2 dd d s) as [z|] eqn:Hds; [left | right; auto].
                 destruct (Hsym d s z (not_eq_sym Hsd) Hds) as [Hz|[_ Hz]].
                 --- congruence.
                 --- rewrite topology_dist_sym in Hz. congruence.
              ** destruct (decide (j = s /\ i = d)) as [[-> ->]|Hc'].
                 --- intros Hy. destruct (Hsym d s y Hij Hy) as [Hz|[_ Hz]].
                     +++ congruence.
                     +++ rewrite topology_dist_sym in Hz. left. congruence.
                 --- apply Hsym, Hij.
           ++ intros i j y Hij. rewrite Hget.
              case_decide as Hc; [|apply Hsrc, Hij].
              destruct Hc as [-> ->]. intros Hy. inversion Hy; subst. auto.
        -- rewrite Hget, decide_True; eauto.
Qed.

(** A loop whose body keeps an invariant [I], moves along a preorder [R] and
    establishes [Q x] for its element [x], where [Q x] is stable along [R],
    establishes [Q x] for all its elements. *)
Lemma for_each_fills {A S : Type} (I : S -> Prop) (R : S -> S -> Prop) (Q : A -> S -> Prop)
  (body : A -> S -> result S) (l : list A) :
  (forall s, R s s) ->
  (forall a b c, R a b -> R b c -> R a c) ->
  (forall x s s', Q x s -> R s s' -> Q x s') ->
  (forall x s s', In x l -> I s -> body x s = Ok s' -> I s' /\ R s s' /\ Q x s') ->
  forall s s', I s -> for_each body l s = Ok s' ->
               I s' /\ R s s' /\ forall x, In x l -> Q x s'.
Proof.
  intros Hrefl Htrans Hstable. induction l as [|y l IH]; intros Hbody s s' Hs Hrun.
  - inversion Hrun; subst. split; [assumption|]. split; [apply Hrefl | intros x []].
  - cbn [for_each] in Hrun. apply bind_ok in Hrun as (s1 & H1 & H2).
    destruct (Hbody y s s1 (or_introl eq_refl) Hs H1) as (I1 & R1 & Q1).
    destruct (IH (fun x t t' Hx => Hbody x t t' (or_intror Hx)) s1 s' I1 H2)
      as (I2 & R2 & Q2).
    split; [assumption|]. split; [eapply Htrans; eassumption|].
    intros x [->|Hx]; [eapply Hstable; eassumption | apply Q2, Hx].
Qed.

Lemma in_range (n k : Z) : In k (range n) <-> 0 <= k < n.
Proof. unfold range. rewrite <- list_elem_of_In, elem_of_seqZ. lia. Qed.

(** The filling loops leave an entry for every pair of nodes and keep the
    invariant. *)
Lemma fill_from_topology_fills (v : dvars) (lastnode : Z) (dd dd' : dist_table) :
  pair_inv v dd -> fill_from_topology v lastnode dd = Ok dd' ->
  pair_inv v dd' /\ extends dd dd'
  /\ forall s d, 0 <= s <= lastnode -> 0 <= d <= lastnode -> is_Some (get2 dd' s d).
Proof.
  intros Hinv Hrun. unfold fill_from_topology in Hrun.
  set (Qrow := fun (s : Z) (dd : dist_table) =>
                 forall d, In d (range (lastnode + 1)) -> is_Some (get2 dd s d)).
  assert (Hstable : forall s a b, Qrow s a -> extends a b -> Qrow s b).
  { intros s a b Ha [_ Hab] d Hd. apply Hab, Ha, Hd. }
  assert (Hbody : forall s a b, In s (range (lastnode + 1)) -> pair_inv v a ->
            for_each (fun d dd => fill_pair v s d dd) (range (lastnode + 1)) a = Ok b ->
            pair_inv v b /\ extends a b /\ Qrow s b).
  { intros s a b _ Ia Hrow.
    refine (for_each_fills (pair_inv v) extends (fun d dd => is_Some (get2 dd s d))
              _ _ extends_refl extends_trans _ _ a b Ia Hrow).
    - intros d x y Hx [_ Hxy]. apply Hxy, Hx.
    - intros d x y _ Ix Hstep. apply (fill_pair_step v s d x y Ix Hstep). }
  destruct (for_each_fills (pair_inv v) extends Qrow _ _ extends_refl extends_trans
              Hstable Hbody dd dd' Hinv Hrun) as (Hinv' & Hext & Hall).
  split; [assumption|]. split; [assumption|].
  intros s d Hs Hd. apply Hall; apply in_range; lia.
Qed.

(** ** The first loop of [dists] *)

Lemma grows_refl (t : topo) : grows 0 t t.
Proof.
  split; [lia|]. split; [lia|]. split; [|auto].
  intros k. split; [auto | intros [|]; [auto | lia]].
Qed.

Lemma grows_trans (c1 c2 : Z) (t1 t2 t3 : topo) :
  grows c1 t1 t2 -> grows c2 t2 t3 -> grows (c1 + c2) t1 t3.
Proof.
  intros (P1 & S1 & D1 & R1) (P2 & S2 & D2 & R2).
  split; [lia|]. split; [lia|]. split.
  - intros k. rewrite D2, D1. split; [intros [[|]|]|intros [|]]; auto; try lia.
  - intros k row Hk. destruct (R2 k row Hk) as [Hk2|]; auto.
Qed.

Lemma dists_node_grows (die : Z) (t : topo) : grows 1 t (dists_node die t).
Proof.
  unfold grows, dists_node; cbn. split; [lia|]. split; [reflexivity|]. split.
  - intros k. destruct (decide (k = sourcenode t + 1)) as [->|Hk].
    + rewrite lookup_insert_eq. split; [right; lia | eauto].
    + rewrite lookup_insert_ne by congruence. split; [auto | intros [|]; [auto | lia]].
  - intros k row. destruct (decide (k = sourcenode t + 1)) as [->|Hk].
    + rewrite lookup_insert_eq. intros H. inversion H. auto.
    + rewrite lookup_insert_ne by congruence. auto.
Qed.

Lemma fold_left_grows (body : Z -> topo -> topo) (c : Z) (l : list Z) :
  0 <= c -> (forall i t, grows c t (body i t)) ->
  forall t, grows (Z.of_nat (length l) * c) t (fold_left (fun s i => body i s) l t).
Proof.
  intros Hc Hbody. induction l as [|i l IH]; intros t.
  - cbn. apply grows_refl.
  - cbn [fold_left length].
    replace (Z.of_nat (S (length l)) * c) with (c + Z.of_nat (length l) * c) by lia.
    eapply grows_trans; [apply Hbody | apply IH].
Qed.

Lemma for_range_grows (body : Z -> topo -> topo) (c n : Z) :
  0 <= c -> (forall i t, grows c t (body i t)) ->
  forall t, grows (Z.max 0 n * c) t (for_range n body t).
Proof.
  intros Hc Hbody t. unfold for_range.
  replace (Z.max 0 n) with (Z.of_nat (length (range n)))
    by (unfold range; rewrite length_seqZ; lia).
  apply fold_left_grows; assumption.
Qed.

Lemma dists_package_grows (nodecount diecount : Z) (t : topo) :
  grows (Z.max 0 diecount * Z.max 0 nodecount) t (dists_package nodecount diecount t).
Proof.
  unfold dists_package.
  replace (Z.max 0 diecount * Z.max 0 nodecount)
    with (0 + Z.max 0 diecount * (Z.max 0 nodecount * 1)) by lia.
  cbv zeta.
  match goal with
  | |- grows _ _ (for_range _ _ ?t1) => apply (grows_trans _ _ t t1)
  end.
  - destruct (0 <? nodecount); [|apply grows_refl].
    unfold grows; cbn. split; [lia|]. split; [lia|]. split; [|auto].
    intros k. split; [auto | intros [|]; [auto | lia]].
  - apply for_range_grows; [lia|]. intros die t'.
    apply for_range_grows; [lia|]. intros _ t''. apply dists_node_grows.
Qed.

Lemma int_key_ok (numaspec : jobj) (key : string) (default z : Z) :
  py_int (jget_default numaspec key (JInt default)) = Ok z -> int_key numaspec key default = z.
Proof. unfold int_key. intros ->. reflexivity. Qed.

(** What one round of the first loop does to the variables the second part
    of [dists] reads. *)
Lemma dists_group_ok (numaspec : jobj) (v v' : dvars) :
  dists_group numaspec v = Ok v' ->
  grows (group_node_count numaspec) (topology v) (topology v')
  /\ lastnode_in_group v' = sourcenode (topology v') + 1
  /\ dist_other_package v' = dist_other_package v
  /\ dist_matrix v'
     = match jget numaspec "dist-all" with Some x => x | None => dist_matrix v end.
Proof.
  unfold dists_group. intros H.
  apply bind_ok in H as (n & Hn & H). apply bind_ok in H as (c & Hc & H).
  apply bind_ok in H as (d & Hd & H). apply bind_ok in H as (p & Hp & H).
  apply bind_ok in H as (nnd & _ & H). inversion H; subst; clear H. cbn.
  split; [|repeat split].
  unfold group_node_count.
  rewrite (int_key_ok _ _ _ _ Hn), (int_key_ok _ _ _ _ Hd), (int_key_ok _ _ _ _ Hp).
  apply for_range_grows; [lia|]. intros _ t. apply dists_package_grows.
Qed.

Lemma dists_first_pass_ok (numalist : list jobj) :
  forall v v', for_each dists_group numalist v = Ok v' ->
    grows (total_nodes numalist) (topology v) (topology v')
    /\ (numalist <> [] -> lastnode_in_group v' = sourcenode (topology v') + 1)
    /\ (numalist = [] -> v' = v)
    /\ dist_other_package v' = dist_other_package v
    /\ dist_matrix v'
       = fold_left (fun m numaspec =>
                      match jget numaspec "dist-all" with Some x => x | None => m end)
                   numalist (dist_matrix v).
Proof.
  induction numalist as [|g l IH]; intros v v' H.
  - inversion H; subst. split; [apply grows_refl|]. repeat split; congruence.
  - cbn [for_each] in H. apply bind_ok in H as (v1 & H1 & H2).
    destruct (dists_group_ok _ _ _ H1) as (G1 & L1 & O1 & M1).
    destruct (IH _ _ H2) as (G2 & L2 & E2 & O2 & M2).
    split; [|split; [|split; [|split]]].
    + unfold total_nodes. cbn [map sumZ fold_right]. eapply grows_trans; eassumption.
    + intros _. destruct l as [|g' l']; [rewrite (E2 eq_refl); exact L1 | apply L2; discriminate].
    + discriminate.
    + congruence.
    + cbn [fold_left]. rewrite M2, M1. reflexivity.
Qed.

(** After the first loop: the nodes are [0 .. total_nodes - 1], each with an
    empty row, and the default for other packages is the initial one. *)
Lemma dists_first_pass_nodes (numalist : list jobj) (v : dvars) :
  dists_first_pass numalist = Ok v ->
  sourcenode (topology v) = total_nodes numalist - 1
  /\ 0 <= total_nodes numalist
  /\ (forall k, is_Some (dist_dict (topology v) !! k) <-> 0 <= k < total_nodes numalist)
  /\ (forall k row, dist_dict (topology v) !! k = Some row -> row = ∅)
  /\ (numalist <> [] -> lastnode_in_group v = total_nodes numalist)
  /\ (numalist = [] -> lastnode_in_group v = -1)
  /\ dist_other_package v = JInt DEFAULT_DIST
  /\ dist_matrix v = effective_dist_all numalist.
Proof.
  intros H. destruct (dists_first_pass_ok _ _ _ H) as ((P & S & D & R) & L & E & O & M).
  cbn in S. split; [lia|]. split; [lia|]. split; [|split; [|split; [|split; [|split]]]].
  - intros k. rewrite D. cbn. rewrite lookup_empty. split.
    + intros [[? ?]|?]; [discriminate | lia].
    + intros ?. right. lia.
  - intros k row Hk. destruct (R k row Hk) as [Hinit|]; [|assumption].
    cbn in Hinit. rewrite lookup_empty in Hinit. discriminate.
  - intros Hne. rewrite (L Hne). lia.
  - intros ->. rewrite (E eq_refl). reflexivity.
  - exact O.
  - exact M.
Qed.

Lemma pair_inv_initial (v : dvars) (dd : dist_table) :
  (forall k row, dd !! k = Some row -> row = ∅) -> pair_inv v dd.
Proof.
  intros Hrows.
  assert (Hnone : forall i j, get2 dd i j = None).
  { intros i j. unfold get2. destruct (dd !! i) as [row|] eqn:Hi; [|reflexivity].
    rewrite (Hrows i row Hi). apply lookup_empty. }
  repeat split; intros; rewrite Hnone in *; discriminate.
Qed.

(** The result of [dists] when no [dist-all] matrix is in effect. *)
Lemma dists_without_matrix (numalist : list jobj) (dd : dist_table) :
  effective_dist_all numalist = JNull ->
  dists numalist = Ok dd ->
  exists v,
    dists_first_pass numalist = Ok v
    /\ pair_inv v dd
    /\ forall s d, 0 <= s < total_nodes numalist -> 0 <= d < total_nodes numalist ->
                   is_Some (get2 dd s d).
Proof.
  intros Hnone Hrun. unfold dists in Hrun.
  apply bind_ok in Hrun as (v & Hv & Hrun). exists v. split; [assumption|].
  destruct (dists_first_pass_nodes _ _ Hv) as (S & P & D & R & L & E & O & M).
  destruct (Z.ltb_spec (lastnode_in_group v) 0) as [|Hlast]; [discriminate|].
  rewrite M, Hnone in Hrun. cbn [is_none negb] in Hrun.
  destruct numalist as [|g l]; [rewrite (E eq_refl) in Hlast; lia|].
  rewrite (L ltac:(discriminate)) in Hrun.
  destruct (fill_from_topology_fills v _ _ _ (pair_inv_initial v _ R) Hrun)
    as (Hinv & _ & Hall).
  split; [assumption|]. intros s d Hs Hd. apply Hall; lia.
Qed.

(** ** The distances without a [dist-all] matrix *)

(** C10: without a [dist-all] matrix the distance table is symmetric: every
    pair of nodes has a distance in both directions, and the same one. *)
Theorem dists_symmetric (numalist : list jobj) (dd : dist_table) :
  effective_dist_all numalist = JNull ->
  dists numalist = Ok dd ->
  forall i j, 0 <= i < total_nodes numalist -> 0 <= j < total_nodes numalist ->
    exists x, get2 dd i j = Some x /\ get2 dd j i = Some x.
Proof.
  intros Hnone Hrun i j Hi Hj.
  destruct (dists_without_matrix _ _ Hnone Hrun) as (v & _ & (_ & Hsym & _) & Hall).
  destruct (Hall i j Hi Hj) as [x Hx]. exists x. split; [assumption|].
  destruct (decide (i = j)) as [->|Hij]; [assumption|].
  destruct (Hsym i j x Hij Hx) as [|[Hnone' _]]; [assumption|].
  destruct (Hall j i Hj Hi) as [y Hy]. congruence.
Qed.

Lemma dists_symmetric_witness :
  exists x,
    get2 (table_of (dists two_groups_with_overrides)) 0 1 = Some x
    /\ get2 (table_of (dists two_groups_with_overrides)) 1 0 = Some x.
Proof.
  assert (Htotal : total_nodes two_groups_with_overrides = 2) by (vm_compute; reflexivity).
  apply (dists_symmetric two_groups_with_overrides).
  - vm_compute. reflexivity.
  - vm_compute. reflexivity.
  - lia.
  - lia.
Defined.

(** C3 (as amended): without a [dist-all] matrix every node has the
    self-distance 10. *)
Theorem self_distance_without_matrix (numalist : list jobj) (dd : dist_table) :
  effective_dist_all numalist = JNull ->
  dists numalist = Ok dd ->
  forall n, 0 <= n < total_nodes numalist -> get2 dd n n = Some (JInt 10).
Proof.
  intros Hnone Hrun n Hn.
  destruct (dists_without_matrix _ _ Hnone Hrun) as (v & _ & (Hdiag & _) & Hall).
  destruct (Hall n n Hn Hn) as [x Hx]. rewrite Hx. f_equal. apply (Hdiag n x Hx).
Qed.

Lemma self_distance_without_matrix_witness :
  get2 (table_of (dists two_groups_with_overrides)) 1 1 = Some (JInt 10).
Proof.
  assert (Htotal : total_nodes two_groups_with_overrides = 2) by (vm_compute; reflexivity).
  apply (self_distance_without_matrix two_groups_with_overrides).
  - vm_compute. reflexivity.
  - vm_compute. reflexivity.
  - lia.
Defined.

(** C3 (counterexample): a [dist-all] matrix with 99 on its diagonal passes
    validation and compiles, and the table has 99 as a self-distance. *)
Lemma self_distance_from_matrix :
  validate dist_all_99 = Ok tt
  /\ is_ok (qemuopts dist_all_99) = true
  /\ effective_dist_all dist_all_99 = JList [JList [JInt 99]]
  /\ (let* dd := dists dist_all_99 in Ok (get2 dd 0 0)) = Ok (Some (JInt 99)).
Proof. repeat split; vm_compute; reflexivity. Qed.

(** Without a [dist-all] matrix, two nodes in different packages with no
    [node-dist] entry for each other are at the initial default distance,
    whatever the groups say. *)
Lemma other_package_distance (numalist : list jobj) (dd : dist_table) (v : dvars)
  (i j : Z) (pd_i pd_j : Z * Z) :
  effective_dist_all numalist = JNull ->
  dists numalist = Ok dd ->
  dists_first_pass numalist = Ok v ->
  0 <= i < total_nodes numalist -> 0 <= j < total_nodes numalist ->
  node_package_die (topology v) !! i = Some pd_i ->
  node_package_die (topology v) !! j = Some pd_j ->
  pd_i.1 <> pd_j.1 ->
  get2 (node_node_dist v) i j = None -> get2 (node_node_dist v) j i = None ->
  get2 dd i j = Some (JInt DEFAULT_DIST).
Proof.
  intros Hnone Hrun Hv Hi Hj Hpi Hpj Hne Hij Hji.
  destruct (dists_without_matrix _ _ Hnone Hrun) as (v' & Hv' & (_ & _ & Hsrc) & Hall).
  assert (v' = v) by congruence. subst v'.
  destruct (Hall i j Hi Hj) as [x Hx]. rewrite Hx. f_equal.
  assert (Hne' : i <> j) by (intros ->; congruence).
  destruct (Hsrc i j x Hne' Hx) as [H|[H|H]]; [congruence | congruence |].
  unfold topology_dist, lookup_or_keyerror in H. rewrite Hpi, Hpj in H. cbn in H.
  destruct (Z.eqb_spec pd_i.1 pd_j.1); [contradiction|]. cbn in H.
  destruct (dists_first_pass_nodes _ _ Hv) as (_ & _ & _ & _ & _ & _ & Hother & _).
  congruence.
Qed.

(** C1 (the code at the failing input): the second group sets
    ["dist-other-package"] to 50; the two nodes are in different packages and
    have no [node-dist] entry, and their distance is 21. *)
Theorem dist_other_package_has_no_effect :
  validate other_package_50 = Ok tt
  /\ (let* v := dists_first_pass other_package_50 in
      Ok (node_package_die (topology v) !! 0, node_package_die (topology v) !! 1,
          dist_other_package v))
     = Ok (Some (0, 0), Some (1, 0), JInt 21)
  /\ (let* dd := dists other_package_50 in Ok (get2 dd 0 1, get2 dd 1 0))
     = Ok (Some (JInt 21), Some (JInt 21))
  /\ numa_dist_params (options_of (qemuopts other_package_50))
     = [(0, 1, JInt 21); (1, 0, JInt 21)].
Proof. repeat split; vm_compute; reflexivity. Qed.

(** ** The group loop of [qemuopts] *)

Lemma advances_refl (v : vars) : advances 0 v v.
Proof. unfold advances. repeat split; lia. Qed.

Lemma advances_trans (c1 c2 : Z) (v1 v2 v3 : vars) :
  advances c1 v1 v2 -> advances c2 v2 v3 -> advances (c1 + c2) v1 v3.
Proof. intros (T1 & N1 & C1) (T2 & N2 & C2). unfold advances. repeat split; try congruence; lia. Qed.

Lemma for_each_advances {A : Type} (body : A -> vars -> result vars) (c : Z) (l : list A) :
  (forall x v v', body x v = Ok v' -> advances c v v') ->
  forall v v', for_each body l v = Ok v' -> advances (Z.of_nat (length l) * c) v v'.
Proof.
  intros Hbody. induction l as [|x l IH]; intros v v' H.
  - inversion H; subst. apply advances_refl.
  - cbn [for_each] in H. apply bind_ok in H as (v1 & H1 & H2).
    replace (Z.of_nat (length (x :: l)) * c) with (c + Z.of_nat (length l) * c)
      by (cbn [length]; lia).
    eapply advances_trans; [apply (Hbody _ _ _ H1) | apply (IH _ _ H2)].
Qed.

Lemma for_range_advances (body : Z -> vars -> result vars) (c n : Z) :
  (forall x v v', body x v = Ok v' -> advances c v v') ->
  forall v v', for_each body (range n) v = Ok v' -> advances (Z.max 0 n * c) v v'.
Proof.
  intros Hbody v v' H.
  replace (Z.max 0 n) with (Z.of_nat (length (range n)))
    by (unfold range; rewrite length_seqZ; lia).
  eapply for_each_advances; eassumption.
Qed.

Lemma node_body_advances (g : groupvars) (i : Z) (v v' : vars) :
  node_body g i v = Ok v' -> advances (Z.max 0 (cpucount g)) v v'.
Proof.
  unfold node_body. intros H.
  apply bind_ok in H as (st & _ & H). apply bind_ok in H as ([m params] & _ & H).
  unfold cpu_body in H. destruct (Z.ltb_spec 0 (cpucount g)) as [Hpos|Hneg];
    inversion H; subst; clear H; unfold advances; cbn; repeat split; lia.
Qed.

Lemma die_body_advances (g : groupvars) (i : Z) (v v' : vars) :
  die_body g i v = Ok v' ->
  advances (Z.max 0 (nodecount g) * Z.max 0 (cpucount g)) v v'.
Proof.
  unfold die_body. intros H.
  apply for_range_advances with (c := Z.max 0 (cpucount g)) in H;
    [|apply node_body_advances].
  replace (Z.max 0 (nodecount g) * Z.max 0 (cpucount g))
    with (0 + Z.max 0 (nodecount g) * Z.max 0 (cpucount g)) by lia.
  eapply advances_trans; [|exact H].
  destruct (has_cpu_nodes g); [|apply advances_refl].
  unfold advances; cbn. repeat split; lia.
Qed.

Lemma package_body_advances (g : groupvars) (i : Z) (v v' : vars) :
  package_body g i v = Ok v' ->
  advances (Z.max 0 (diecount g) * (Z.max 0 (nodecount g) * Z.max 0 (cpucount g))) v v'.
Proof.
  unfold package_body. intros H.
  apply for_range_advances
    with (c := Z.max 0 (nodecount g) * Z.max 0 (cpucount g)) in H;
    [|apply die_body_advances].
  replace (Z.max 0 (diecount g) * (Z.max 0 (nodecount g) * Z.max 0 (cpucount g)))
    with (0 + Z.max 0 (diecount g) * (Z.max 0 (nodecount g) * Z.max 0 (cpucount g))) by lia.
  eapply advances_trans; [|exact H].
  destruct (has_cpu_nodes g); [|apply advances_refl].
  unfold advances; cbn. repeat split; lia.
Qed.

(** One NUMA group: the thread count after [check_threads], the group added
    to the list for [dists], and packages x dies x nodes x cpucount more
    logical CPUs. *)
Lemma numa_group_ok (numaspec : jobj) (v v' : vars) :
  numa_group numaspec v = Ok v' ->
  exists threads,
    check_threads numaspec (int_key numaspec "cores" 0) (threadcount v) = Ok threads
    /\ threadcount v' = threads
    /\ numalist_with_dist v' = numalist_with_dist v ++ [numaspec]
    /\ lastcpu (cpuv v')
       = lastcpu (cpuv v)
         + Z.max 0 (int_key numaspec "packages" 1)
           * (Z.max 0 (int_key numaspec "dies" 1)
              * (Z.max 0 (int_key numaspec "nodes" 1)
                 * Z.max 0 (int_key numaspec "cores" 0 * threads))).
Proof.
  unfold numa_group. intros H.
  apply bind_ok in H as (n & Hn & H). apply bind_ok in H as (c & Hc & H).
  apply bind_ok in H as (t & Ht & H). apply bind_ok in H as (c' & Hc' & H).
  apply bind_ok in H as (d & Hd & H). apply bind_ok in H as (p & Hp & H).
  apply bind_ok in H as (cp & Hcp & H).
  assert (c' = c) by congruence. subst c'.
  rewrite (int_key_ok _ _ _ _ Hn), (int_key_ok _ _ _ _ Hc), (int_key_ok _ _ _ _ Hd),
    (int_key_ok _ _ _ _ Hp).
  exists t. split; [assumption|].
  apply for_range_advances with (c := Z.max 0 d * (Z.max 0 n * Z.max 0 (c * t))) in H.
  - destruct H as (T & N & C). cbn in T, N, C. auto.
  - intros i a b Hab. apply package_body_advances in Hab. exact Hab.
Qed.

Lemma cxl_group_ok (cxl_spec : jval) (v v' : vars) :
  cxl_group cxl_spec v = Ok v' -> advances 0 v v'.
Proof.
  unfold cxl_group. intros H. apply bind_ok in H as ([[[o d] m] t] & _ & H).
  inversion H; subst; clear H. unfold advances; cbn. repeat split; lia.
Qed.

(** The groups handed to [dists] are the NUMA groups of the list. *)
Lemma qemuopts_groups_numa (numalist : list jobj) :
  forall v v', for_each qemuopts_group numalist v = Ok v' ->
    numalist_with_dist v' = numalist_with_dist v ++ numa_groups numalist.
Proof.
  induction numalist as [|g l IH]; intros v v' H.
  - inversion H; subst. cbn. rewrite app_nil_r. reflexivity.
  - cbn [for_each] in H. apply bind_ok in H as (v1 & H1 & H2).
    rewrite (IH _ _ H2). unfold numa_groups. cbn [List.filter]. unfold qemuopts_group in H1.
    unfold is_numa_group. destruct (truthy (jget_default g "cxl" JNull)); cbn.
    + destruct (has_other_keys g); [discriminate|].
      apply cxl_group_ok in H1 as (_ & -> & _). reflexivity.
    + apply numa_group_ok in H1 as (t & _ & _ & -> & _).
      rewrite <- app_assoc. reflexivity.
Qed.

(** ** The [dist-all] matrix *)

Lemma copy_row_ok (s : Z) (cells : list jval) :
  forall j dd, is_Some (dd !! s) ->
    exists dd',
      for_enumerate_from j (fun destnode x dd => set2 dd s destnode x) cells dd = Ok dd'
      /\ forall k, is_Some (dd' !! k) <-> is_Some (dd !! k).
Proof.
  induction cells as [|x cells IH]; intros j dd Hs.
  - exists dd. split; [reflexivity | tauto].
  - cbn [for_enumerate_from].
    destruct (set2_succeeds dd s j x Hs) as [dd1 H1]. rewrite H1. cbn [bind].
    pose proof (set2_rows _ _ _ _ _ H1) as R1.
    destruct (IH (j + 1) dd1) as (dd2 & -> & R2); [apply R1, Hs|].
    exists dd2. split; [reflexivity|]. intros k. rewrite R2. apply R1.
Qed.

(** The row loop of [fill_from_matrix] raises at the first row of the wrong
    length. *)
Lemma matrix_rows_fail (lastnode : Z) (rows : list (list jval)) :
  (exists row, In row rows /\ Z.of_nat (length row) <> lastnode + 1) ->
  forall i dd,
    (forall k, i <= k < i + Z.of_nat (length rows) -> is_Some (dd !! k)) ->
    for_enumerate_from i
      (fun sourcenode row dd =>
         let* ncols := py_len row in
         if negb (ncols =? lastnode + 1) then Err (ValueError WrongDimensionsRow)
         else
           let* cells := py_iter row in
           for_enumerate
             (fun destnode source_dest_dist dd =>
                set2 dd sourcenode destnode source_dest_dist)
             cells dd)
      (map JList rows) dd
    = Err (ValueError WrongDimensionsRow).
Proof.
  induction rows as [|row rows IH]; intros (bad & Hin & Hbad) i dd Hdom.
  - destruct Hin.
  - cbn [map for_enumerate_from py_len py_iter bind].
    destruct (Z.eqb_spec (Z.of_nat (length row)) (lastnode + 1)) as [Hlen|Hlen];
      [|reflexivity].
    cbn [negb]. unfold for_enumerate.
    destruct (copy_row_ok i row 0 dd) as (dd1 & -> & R1).
    { apply Hdom. cbn [length]. lia. }
    cbn [bind]. apply IH.
    + destruct Hin as [->|Hin]; [contradiction | eauto].
    + intros k Hk. apply R1, Hdom. cbn [length]. lia.
Qed.

(** ** What validation guarantees *)

Lemma for_each_unit {A : Type} (body : A -> unit -> result unit) (l : list A) :
  for_each body l tt = Ok tt -> forall x, In x l -> body x tt = Ok tt.
Proof.
  induction l as [|y l IH]; intros H x Hx; [destruct Hx|].
  cbn [for_each] in H. apply bind_ok in H as ([] & H1 & H2).
  destruct Hx as [->|Hx]; [assumption | apply IH; assumption].
Qed.

Lemma int_range_key_is_not_size (key : string) (holds : Z -> bool) :
  int_range_of int_range_keys key = Some holds ->
  str_in key valid_keys = true /\ str_in key ["mem"; "nvmem"]%string = false.
Proof.
  unfold int_range_keys. cbn [int_range_of].
  repeat match goal with
         | |- context [String.eqb ?a key] =>
             destruct (String.eqb_spec a key) as [<-|_]; [intros _; split; reflexivity|]
         end.
  discriminate.
Qed.

Lemma validate_in_ranges (numalist : list jobj) :
  validate numalist = Ok tt -> forall numaspec, In numaspec numalist -> in_ranges numaspec.
Proof.
  intros Hvalid g Hg key holds x Hrange Hget.
  pose proof (for_each_unit _ _ Hvalid g Hg) as Hspec.
  unfold validate_spec in Hspec. apply bind_ok in Hspec as ([] & Hkeys & _).
  pose proof (for_each_unit _ _ Hkeys key (jget_in_keys _ _ _ Hget)) as Hkey.
  unfold validate_key in Hkey.
  destruct (int_range_key_is_not_size _ _ Hrange) as [Hname Hsize].
  rewrite Hname, Hsize in Hkey. cbn [negb bind] in Hkey.
  unfold validate_int_range, py_getitem in Hkey. rewrite Hrange, Hget in Hkey.
  cbn [bind] in Hkey. destruct (py_int x) as [z|]; [|discriminate].
  exists z. split; [reflexivity|]. destruct (holds z); [reflexivity | discriminate].
Qed.

Lemma in_ranges_int_key (numaspec : jobj) (key : string) (default : Z) (holds : Z -> bool) :
  in_ranges numaspec ->
  int_range_of int_range_keys key = Some holds ->
  holds default = true ->
  py_int (jget_default numaspec key (JInt default)) = Ok (int_key numaspec key default)
  /\ holds (int_key numaspec key default) = true.
Proof.
  intros Hin Hrange Hdefault. unfold int_key, jget_default.
  destruct (jget numaspec key) as [x|] eqn:Hget.
  - destruct (Hin key holds x Hrange Hget) as (z & -> & Hz). auto.
  - cbn. auto.
Qed.

(** The outcomes of [check_threads] on a validated group. *)
Lemma check_threads_cases (numaspec : jobj) (tc t1 : Z) :
  in_ranges numaspec ->
  check_threads numaspec (int_key numaspec "cores" 0) tc = Ok t1 ->
  (cpu_bearing numaspec = false /\ t1 = tc)
  \/ (cpu_bearing numaspec = true /\ tc < 0
      /\ t1 = int_key numaspec "threads" 2 /\ 0 < t1)
  \/ (cpu_bearing numaspec = true /\ 0 <= tc /\ t1 = tc
      /\ (jget numaspec "threads" <> None -> int_key numaspec "threads" 2 = tc)).
Proof.
  intros Hin. unfold check_threads, cpu_bearing.
  destruct (Z.ltb_spec 0 (int_key numaspec "cores" 0)) as [Hc|Hc];
    [|intros H; inversion H; auto].
  destruct (in_ranges_int_key numaspec "threads" 2 _ Hin eq_refl eq_refl) as [Ht Hpos].
  apply Z.ltb_lt in Hpos.
  destruct (Z.ltb_spec tc 0) as [Htc|Htc].
  - rewrite Ht. intros H. inversion H; subst. right. left. auto.
  - intros H. right. right. split; [reflexivity|]. split; [assumption|].
    unfold int_key in *. unfold jget_default in *.
    destruct (jget numaspec "threads") as [x|] eqn:Hget.
    + destruct (Hin "threads"%string _ x eq_refl Hget) as (z & Hz & _).
      assert (Hnone : is_none x = false) by (destruct x; try reflexivity; discriminate).
      rewrite Hnone in H. cbn [negb] in H. rewrite Hz in *. cbn [bind] in H.
      destruct (Z.eqb_spec tc z) as [->|]; [|discriminate].
      inversion H; auto.
    + cbn in H. inversion H. split; [reflexivity | congruence].
Qed.

(** ** The logical CPUs *)

(** The number of logical CPUs a validated group adds. *)
Lemma group_cpus_added (numaspec : jobj) (threads : Z) :
  in_ranges numaspec ->
  (cpu_bearing numaspec = true -> 0 < threads) ->
  Z.max 0 (int_key numaspec "packages" 1)
  * (Z.max 0 (int_key numaspec "dies" 1)
     * (Z.max 0 (int_key numaspec "nodes" 1)
        * Z.max 0 (int_key numaspec "cores" 0 * threads)))
  = group_cpus threads numaspec.
Proof.
  intros Hin Hthreads. unfold group_cpus, cpu_bearing in *.
  destruct (in_ranges_int_key numaspec "packages" 1 _ Hin eq_refl eq_refl) as [_ Hp].
  destruct (in_ranges_int_key numaspec "dies" 1 _ Hin eq_refl eq_refl) as [_ Hd].
  destruct (in_ranges_int_key numaspec "nodes" 1 _ Hin eq_refl eq_refl) as [_ Hn].
  destruct (in_ranges_int_key numaspec "cores" 0 _ Hin eq_refl eq_refl) as [_ Hc].
  apply Z.ltb_lt in Hp, Hd, Hn. apply Z.leb_le in Hc.
  destruct (Z.ltb_spec 0 (int_key numaspec "cores" 0)) as [Hpos|Hzero].
  - specialize (Hthreads eq_refl). nia.
  - assert (int_key numaspec "cores" 0 = 0) as -> by lia. lia.
Qed.

Lemma group_cpus_without_cores (numaspec : jobj) (t1 t2 : Z) :
  cpu_bearing numaspec = false -> group_cpus t1 numaspec = group_cpus t2 numaspec.
Proof. unfold group_cpus. intros ->. reflexivity. Qed.

(** The group loop: the thread count is the one of the first CPU-bearing
    group, every CPU-bearing group that gives a thread count gives that one,
    and the CPU counter has advanced by the sum over the groups. *)
Lemma groups_loop_cpus (numalist : list jobj) :
  (forall numaspec, In numaspec numalist -> in_ranges numaspec) ->
  forall v v',
    threadcount v = -1 \/ 0 < threadcount v ->
    for_each qemuopts_group numalist v = Ok v' ->
    (threadcount v' = -1 \/ 0 < threadcount v')
    /\ (0 < threadcount v -> threadcount v' = threadcount v)
    /\ (existsb cpu_bearing (numa_groups numalist) = true -> 0 < threadcount v')
    /\ (threadcount v = -1 -> existsb cpu_bearing (numa_groups numalist) = true ->
        threadcount v' = first_threads (numa_groups numalist))
    /\ (forall numaspec, In numaspec (numa_groups numalist) ->
                         cpu_bearing numaspec = true ->
                         jget numaspec "threads" <> None ->
                         int_key numaspec "threads" 2 = threadcount v')
    /\ lastcpu (cpuv v')
       = lastcpu (cpuv v) + sumZ (map (group_cpus (threadcount v')) (numa_groups numalist)).
Proof.
  induction numalist as [|g l IH]; intros Hvalid v v' Htc H.
  - inversion H; subst. cbn. repeat split; auto; try discriminate; try tauto; lia.
  - cbn [for_each] in H. apply bind_ok in H as (v1 & H1 & H2).
    assert (Hl : forall numaspec, In numaspec l -> in_ranges numaspec)
      by (intros; apply Hvalid; right; assumption).
    pose proof (Hvalid g (or_introl eq_refl)) as Hg.
    unfold numa_groups. cbn [List.filter]. fold (numa_groups l).
    unfold qemuopts_group in H1. unfold is_numa_group.
    destruct (truthy (jget_default g "cxl" JNull)); cbn [negb].
    + (* a CXL entry *)
      destruct (has_other_keys g); [discriminate|].
      apply cxl_group_ok in H1 as (T1 & _ & C1).
      destruct (IH Hl v1 v') as (A & B & C & D & E & F); auto.
      { rewrite T1. assumption. }
      rewrite T1 in B, D. repeat split; auto. lia.
    + (* a NUMA group *)
      apply numa_group_ok in H1 as (t1 & Hcheck & T1 & _ & C1).
      apply (check_threads_cases g _ _ Hg) in Hcheck.
      destruct (IH Hl v1 v') as (A & B & C & D & E & F); auto.
      { rewrite T1. destruct Hcheck as [(_ & ->)|[(_ & _ & _ & ?)|(_ & ? & -> & _)]]; lia. }
      rewrite T1 in *. cbn [existsb map sumZ fold_right].
      fold (sumZ (map (group_cpus (threadcount v')) (numa_groups l))).
      destruct Hcheck as [(Hcpu & ->)|[(Hcpu & Hneg & Ht1 & Hpos)|(Hcpu & Hnn & -> & Hsame)]].
      * (* no cores *)
        rewrite Hcpu. cbn [orb]. unfold first_threads. cbn [find]. rewrite Hcpu.
        fold (first_threads (numa_groups l)).
        repeat split; auto.
        -- intros x [<-|Hx]; [congruence | auto].
        -- rewrite F, C1. rewrite (group_cpus_added g _ Hg) by congruence.
           rewrite (group_cpus_without_cores g (threadcount v) (threadcount v') Hcpu). lia.
      * (* the first group with cores sets the thread count *)
        rewrite Hcpu. cbn [orb]. unfold first_threads. cbn [find]. rewrite Hcpu.
        specialize (B Hpos). rewrite B in *.
        repeat split; auto; try lia.
        -- intros x [<-|Hx]; [auto | auto].
        -- rewrite F, C1. rewrite (group_cpus_added g _ Hg) by auto. lia.
      * (* a later group with cores *)
        rewrite Hcpu. cbn [orb].
        assert (Hpos : 0 < threadcount v) by lia.
        specialize (B Hpos). rewrite B in *.
        repeat split; auto; try lia.
        -- intros x [<-|Hx]; [auto | auto].
        -- rewrite F, C1. rewrite (group_cpus_added g _ Hg) by auto. lia.
Qed.




(** * Further properties *)

(** ** What [validate] accepts *)

Lemma for_each_unit_ok {A : Type} (body : A -> unit -> result unit) (l : list A) :
  (forall x, In x l -> body x tt = Ok tt) -> for_each body l tt = Ok tt.
Proof.
  induction l as [|x l IH]; intros H; [reflexivity|].
  cbn [for_each]. rewrite (H x (or_introl eq_refl)). cbn [bind].
  apply IH. intros y Hy. apply H. right. assumption.
Qed.

Lemma str_in_In (key : string) (l : list string) : str_in key l = true <-> In key l.
Proof.
  unfold str_in. rewrite existsb_exists. split.
  - intros (x & Hx & Heq). apply String.eqb_eq in Heq. congruence.
  - intros H. exists key. split; [assumption | apply String.eqb_refl].
Qed.

Lemma in_keys_jget (d : jobj) (key : string) :
  In key (jkeys d) -> exists v, jget d key = Some v.
Proof.
  induction d as [|[k x] d IH]; cbn; [intros []|].
  destruct (String.eqb_spec k key) as [->|Hne]; [eauto|].
  intros [H|H]; [contradiction | auto].
Qed.

Lemma validate_size_accepts (val : jval) :
  (exists skip, validate_size val = Ok skip) <-> size_ok val.
Proof.
  split.
  - intros [skip H]. unfold validate_size in H.
    destruct val as [| b | z | s | l | kvs]; cbn in H; try discriminate.
    destruct (String.eqb_spec s "0") as [->|_]; [left; reflexivity|].
    right. unfold siadd in H.
    destruct (lower_endswith_g s) eqn:Hg; cbn in H; [|discriminate].
    destruct (int_of_str (drop_last s)) as [n|e] eqn:Hn; cbn in H.
    + exists s, n. auto.
    + destruct e; discriminate.
  - intros [->|(s & n & -> & Hg & Hn)]; [exists true; reflexivity|].
    unfold validate_size. cbn [is_str].
    destruct (String.eqb s "0"); [eauto|].
    unfold siadd. rewrite Hg, Hn. cbn. eauto.
Qed.

Lemma size_key_has_no_range (key : string) :
  key = "mem"%string \/ key = "nvmem"%string ->
  str_in key ["mem"; "nvmem"]%string = true /\ int_range_of int_range_keys key = None.
Proof. intros [-> | ->]; split; reflexivity. Qed.

Lemma validate_spec_iff (numaspec : jobj) :
  validate_spec numaspec tt = Ok tt <-> valid_spec numaspec.
Proof.
  split.
  - intros H.
    assert (Hlist : validate [numaspec] = Ok tt)
      by (unfold validate; cbn [for_each]; rewrite H; reflexivity).
    unfold validate_spec in H. apply bind_ok in H as ([] & Hkeys & Hthreads).
    pose proof (for_each_unit _ _ Hkeys) as Hkey.
    split; [|split; [|split]].
    + intros key Hin. specialize (Hkey key Hin). unfold validate_key in Hkey.
      apply str_in_In. destruct (str_in key valid_keys); [reflexivity | discriminate].
    + intros key val Hsize Hget. specialize (Hkey key (jget_in_keys _ _ _ Hget)).
      unfold validate_key, jget_default in Hkey. rewrite Hget in Hkey.
      destruct (str_in key valid_keys); [|discriminate]. cbn [negb] in Hkey.
      destruct (size_key_has_no_range key Hsize) as [Hs _]. rewrite Hs in Hkey.
      apply validate_size_accepts.
      destruct (validate_size val) as [skip|]; [eauto | discriminate].
    + apply (validate_in_ranges _ Hlist). left. reflexivity.
    + intros Hhas. rewrite Hhas in Hthreads.
      apply bind_ok in Hthreads as (c & Hc & Hzero).
      rewrite (int_key_ok _ _ _ _ Hc).
      destruct (Z.eqb_spec c 0); [discriminate | assumption].
  - intros (Hnames & Hsizes & Hranges & Hthreads). unfold validate_spec.
    rewrite for_each_unit_ok.
    + cbn [bind]. destruct (jhas numaspec "threads") eqn:Hhas; [|reflexivity].
      destruct (in_ranges_int_key numaspec "cores" 0 _ Hranges eq_refl eq_refl) as [-> _].
      cbn [bind]. specialize (Hthreads eq_refl).
      destruct (Z.eqb_spec (int_key numaspec "cores" 0) 0); [contradiction | reflexivity].
    + intros key Hin. unfold validate_key.
      rewrite (proj2 (str_in_In key valid_keys) (Hnames key Hin)). cbn [negb].
      destruct (in_keys_jget _ _ Hin) as [val Hget].
      destruct (str_in key ["mem"; "nvmem"]%string) eqn:Hsize.
      * assert (Hkey : key = "mem"%string \/ key = "nvmem"%string).
        { apply str_in_In in Hsize. destruct Hsize as [<-|[<-|[]]]; auto. }
        unfold jget_default. rewrite Hget.
        destruct (proj2 (validate_size_accepts val) (Hsizes key val Hkey Hget)) as [skip ->].
        cbn [bind]. destruct skip; [reflexivity|].
        unfold validate_int_range.
        rewrite (proj2 (size_key_has_no_range key Hkey)). reflexivity.
      * cbn [bind]. unfold validate_int_range, py_getitem.
        destruct (int_range_of int_range_keys key) as [holds|] eqn:Hrange; [|reflexivity].
        rewrite Hget. cbn [bind].
        destruct (Hranges key holds val Hrange Hget) as (z & -> & ->). reflexivity.
Qed.

(** [validate] accepts exactly the lists all of whose entries have only
    documented keys, [mem] and [nvmem] values that are ["0"] or a gigabyte
    literal, integers in the documented ranges, and no ["threads"] with
    [cores] equal to 0. *)
Theorem validate_accepts_iff (numalist : list jobj) :
  validate numalist = Ok tt <-> (forall numaspec, In numaspec numalist -> valid_spec numaspec).
Proof.
  unfold validate. split.
  - intros H g Hg. apply validate_spec_iff. apply (for_each_unit _ _ H g Hg).
  - intros H. apply for_each_unit_ok. intros g Hg. apply validate_spec_iff, H, Hg.
Qed.

(** ** The errors of [qemuopts] *)

(** A list without NUMA groups (an empty list, or CXL entries only) does not
    compile; when validation and the group loop pass, the error is
    'no NUMA nodes found'. *)
Theorem no_numa_groups_fails (numalist : list jobj) :
  numa_groups numalist = [] ->
  exists e, qemuopts numalist = Err e
            /\ (validate numalist = Ok tt -> is_ok (qemuopts_groups numalist) = true ->
                e = ValueError NoNumaNodes).
Proof.
  intros Hnone. unfold qemuopts.
  destruct (validate numalist) as [[]|e]; cbn [bind]; [|exists e; split; [reflexivity | discriminate]].
  destruct (qemuopts_groups numalist) as [v|e] eqn:Hv; cbn [bind];
    [|exists e; split; [reflexivity | discriminate]].
  apply qemuopts_groups_numa in Hv. cbn in Hv. rewrite Hnone in Hv.
  unfold assemble. rewrite Hv. cbn. eauto.
Qed.

Lemma no_numa_groups_fails_witness :
  exists e, qemuopts only_cxl = Err e
            /\ (validate only_cxl = Ok tt -> is_ok (qemuopts_groups only_cxl) = true ->
                e = ValueError NoNumaNodes).
Proof. apply (no_numa_groups_fails only_cxl). reflexivity. Defined.

Lemma sumZ_zero {A : Type} (f : A -> Z) (l : list A) :
  (forall x, In x l -> f x = 0) -> sumZ (map f l) = 0.
Proof.
  induction l as [|x l IH]; intros H; [reflexivity|].
  cbn [map sumZ fold_right]. fold (sumZ (map f l)).
  rewrite (H x (or_introl eq_refl)), IH; [reflexivity|].
  intros y Hy. apply H. right. assumption.
Qed.

(** A list none of whose NUMA groups has cores does not compile; when
    validation, the group loop and the distance builder pass, the error is
    'no CPUs found'. *)
Theorem no_cpus_fails (numalist : list jobj) :
  (forall numaspec, In numaspec (numa_groups numalist) -> cpu_bearing numaspec = false) ->
  exists e, qemuopts numalist = Err e
            /\ (validate numalist = Ok tt -> is_ok (qemuopts_groups numalist) = true ->
                is_ok (dists (numa_groups numalist)) = true ->
                e = ValueError NoCpus).
Proof.
  intros Hnone. unfold qemuopts.
  destruct (validate numalist) as [[]|e] eqn:Hvalid; cbn [bind];
    [|exists e; split; [reflexivity | discriminate]].
  destruct (qemuopts_groups numalist) as [v|e] eqn:Hv; cbn [bind];
    [|exists e; split; [reflexivity | discriminate]].
  destruct (groups_loop_cpus numalist (validate_in_ranges _ Hvalid) qemuopts_init v)
    as (_ & _ & _ & _ & _ & Hcpu); [left; reflexivity | exact Hv |].
  rewrite sumZ_zero in Hcpu
    by (intros g Hg; unfold group_cpus; rewrite (Hnone g Hg); reflexivity).
  cbn in Hcpu. apply qemuopts_groups_numa in Hv. cbn in Hv.
  unfold assemble. rewrite Hv.
  destruct (dists (numa_groups numalist)) as [dd|e]; cbn [bind];
    [|exists e; split; [reflexivity | discriminate]].
  rewrite Hcpu. cbn. eauto.
Qed.

Lemma no_cpus_fails_witness :
  exists e, qemuopts no_cores = Err e
            /\ (validate no_cores = Ok tt -> is_ok (qemuopts_groups no_cores) = true ->
                is_ok (dists (numa_groups no_cores)) = true ->
                e = ValueError NoCpus).
Proof.
  apply (no_cpus_fails no_cores).
  intros g [<-|[<-|[]]]; reflexivity.
Defined.

(** Two NUMA groups with cores that give different thread counts do not
    compile. *)
Theorem thread_mismatch_fails (numalist : list jobj) (g1 g2 : jobj) :
  In g1 (numa_groups numalist) -> In g2 (numa_groups numalist) ->
  cpu_bearing g1 = true -> cpu_bearing g2 = true ->
  jget g1 "threads" <> None -> jget g2 "threads" <> None ->
  int_key g1 "threads" 2 <> int_key g2 "threads" 2 ->
  exists e, qemuopts numalist = Err e.
Proof.
  intros H1 H2 C1 C2 T1 T2 Hne.
  destruct (qemuopts numalist) as [o|e] eqn:Hrun; [exfalso | eauto].
  unfold qemuopts in Hrun.
  apply bind_ok in Hrun as ([] & Hvalid & Hrun). apply bind_ok in Hrun as (v & Hv & _).
  destruct (groups_loop_cpus numalist (validate_in_ranges _ Hvalid) qemuopts_init v)
    as (_ & _ & _ & _ & Hown & _); [left; reflexivity | exact Hv |].
  apply Hne. rewrite (Hown g1 H1 C1 T1), (Hown g2 H2 C2 T2). reflexivity.
Qed.

Lemma thread_mismatch_fails_witness : exists e, qemuopts threads_2_and_4 = Err e.
Proof.
  apply (thread_mismatch_fails threads_2_and_4
           [("cores", JInt 1); ("threads", JInt 2); ("mem", JStr "1G")]%string
           [("cores", JInt 1); ("threads", JInt 4); ("mem", JStr "1G")]%string).
  - left. reflexivity.
  - right. left. reflexivity.
  - reflexivity.
  - reflexivity.
  - discriminate.
  - discriminate.
  - vm_compute. discriminate.
Defined.

Lemma for_range_fails {S : Type} (body : Z -> S -> result S) (n : Z) :
  0 < n -> (forall i s, exists e, body i s = Err e) ->
  forall s, exists e, for_each body (range n) s = Err e.
Proof.
  intros Hn Hbody. apply (for_each_fails body (range n) 0); [|apply Hbody].
  apply in_range. lia.
Qed.

Lemma memory_body_unknown_dimm (nv : bool) (memdimm size : jval) (lastnode : Z)
  (st : memvars * list string) :
  known_dimm memdimm = false ->
  memory_body nv memdimm size lastnode st = Err (ValueError UnsupportedDimm).
Proof.
  unfold known_dimm, memory_body. intros H. destruct st as [m params].
  destruct (is_str memdimm ""); [discriminate|].
  destruct (is_str memdimm "plugged"); [discriminate|].
  destruct (is_str memdimm "unplugged"); [discriminate|].
  reflexivity.
Qed.

Lemma node_body_unknown_dimm (g : groupvars) (i : Z) (v : vars) :
  known_dimm (memdimm g) = false ->
  memcount g = 1 \/ (memcount g = 0 /\ nvmemcount g = 1) ->
  exists e, node_body g i v = Err e.
Proof.
  intros Hdimm Hmem. unfold node_body.
  destruct Hmem as [-> | [-> ->]]; cbn [range seqZ for_each bind].
  - change (for_each _ (range 1) _) with
      (let* s' := memory_body false (memdimm g) (memsize g)
                    (lastnode (next_node (cpuv v))) (memv v, []) in Ok s').
    rewrite memory_body_unknown_dimm by assumption. cbn. eauto.
  - change (for_each _ (range 0) _) with (Ok (memv v, @nil string)). cbn [bind].
    change (for_each _ (range 1) _) with
      (let* s' := memory_body true (memdimm g) (nvmemsize g)
                    (lastnode (next_node (cpuv v))) (memv v, []) in Ok s').
    rewrite memory_body_unknown_dimm by assumption. cbn. eauto.
Qed.

(** A NUMA group with memory of an unknown ["dimm"] stops the group loop. *)
Lemma numa_group_unknown_dimm (numaspec : jobj) (v : vars) :
  in_ranges numaspec ->
  has_memory numaspec = true ->
  known_dimm (jget_default numaspec "dimm" (JStr "")) = false ->
  exists e, numa_group numaspec v = Err e.
Proof.
  intros Hranges Hmem Hdimm. unfold numa_group.
  destruct (in_ranges_int_key numaspec "nodes" 1 _ Hranges eq_refl eq_refl) as [-> Hn].
  destruct (in_ranges_int_key numaspec "cores" 0 _ Hranges eq_refl eq_refl) as [-> _].
  destruct (in_ranges_int_key numaspec "dies" 1 _ Hranges eq_refl eq_refl) as [-> Hd].
  destruct (in_ranges_int_key numaspec "packages" 1 _ Hranges eq_refl eq_refl) as [-> Hp].
  apply Z.ltb_lt in Hn, Hd, Hp. cbn [bind].
  destruct (check_threads numaspec _ (threadcount v)) as [threads|e]; cbn [bind]; [|eauto].
  destruct (py_int (jget_default numaspec "cpus-present" (JInt 0))) as [cp|e];
    cbn [bind]; [|eauto].
  apply for_range_fails; [assumption|]. intros i1 v1. unfold package_body.
  apply for_range_fails; [assumption|]. intros i2 v2. unfold die_body.
  apply for_range_fails; [assumption|]. intros i3 v3.
  apply node_body_unknown_dimm; cbn [memdimm memcount nvmemcount]; [assumption|].
  unfold has_memory in Hmem.
  destruct (is_str (jget_default numaspec "mem" (JStr "0")) "0"); cbn [negb]; [|auto].
  destruct (is_str (jget_default numaspec "nvmem" (JStr "0")) "0"); cbn [negb];
    [discriminate | auto].
Qed.

(** A NUMA group that has memory and a ["dimm"] value other than [""],
    ["plugged"] and ["unplugged"] does not compile. *)
Theorem unknown_dimm_fails (numalist : list jobj) (numaspec : jobj) :
  In numaspec numalist ->
  is_numa_group numaspec = true ->
  has_memory numaspec = true ->
  known_dimm (jget_default numaspec "dimm" (JStr "")) = false ->
  exists e, qemuopts numalist = Err e.
Proof.
  intros Hin Hnuma Hmem Hdimm. unfold qemuopts.
  destruct (validate numalist) as [[]|e] eqn:Hvalid; cbn [bind]; [|eauto].
  apply bind_err. unfold qemuopts_groups.
  apply (for_each_fails qemuopts_group numalist numaspec Hin). intros v.
  pose proof (validate_in_ranges _ Hvalid numaspec Hin) as Hranges.
  unfold qemuopts_group. unfold is_numa_group in Hnuma.
  destruct (truthy (jget_default numaspec "cxl" JNull)); [discriminate|].
  apply numa_group_unknown_dimm; assumption.
Qed.

Lemma unknown_dimm_fails_witness : exists e, qemuopts dimm_hotplug = Err e.
Proof.
  apply (unknown_dimm_fails dimm_hotplug [("nvmem", JStr "1G"); ("dimm", JStr "hotplug")]%string).
  - right. left. reflexivity.
  - reflexivity.
  - reflexivity.
  - reflexivity.
Defined.

(** ** The distance table with a [dist-all] matrix *)

Lemma for_enumerate_from_invariant {A S : Type} (P : S -> Prop)
  (body : Z -> A -> S -> result S) (l : list A) :
  (forall i x s s', P s -> body i x s = Ok s' -> P s') ->
  forall i s s', P s -> for_enumerate_from i body l s = Ok s' -> P s'.
Proof.
  intros Hbody. induction l as [|x l IH]; intros i s s' Hs H.
  - inversion H; subst. assumption.
  - cbn [for_enumerate_from] in H. apply bind_ok in H as (s1 & H1 & H2).
    apply (IH (i + 1) s1 s'); [|assumption]. apply (Hbody i x s s1); assumption.
Qed.

(** Copying one row: the cells land in row [s] from column [j] on, the rest
    of the table is kept. *)
Lemma copy_row_get (s : Z) (cells : list jval) :
  forall j dd dd',
    for_enumerate_from j (fun destnode x dd => set2 dd s destnode x) cells dd = Ok dd' ->
    forall a b,
      get2 dd' a b
      = if decide (a = s /\ j <= b < j + Z.of_nat (length cells))
        then cells !! Z.to_nat (b - j)
        else get2 dd a b.
Proof.
  induction cells as [|x cells IH]; intros j dd dd' H a b.
  - inversion H; subst. rewrite decide_False; [reflexivity | cbn; lia].
  - cbn [for_enumerate_from] in H. apply bind_ok in H as (dd1 & H1 & H2).
    rewrite (IH _ _ _ H2 a b). rewrite (set2_get2 _ _ _ _ _ H1 a b).
    cbn [length].
    destruct (decide (a = s /\ j + 1 <= b < j + 1 + Z.of_nat (length cells))) as [Hin|Hout].
    + rewrite decide_True by lia.
      replace (Z.to_nat (b - j)) with (S (Z.to_nat (b - (j + 1)))) by lia. reflexivity.
    + destruct (decide (a = s /\ b = j)) as [[-> ->]|Hne].
      * rewrite decide_True by lia. replace (j - j) with 0 by lia. reflexivity.
      * rewrite decide_False by lia. reflexivity.
Qed.

Lemma for_enumerate_rows (lastnode : Z) (rows : list (list jval)) :
  forall i dd dd',
    0 <= i ->
    for_enumerate_from i
      (fun sourcenode row dd =>
         let* ncols := py_len row in
         if negb (ncols =? lastnode + 1) then Err (ValueError WrongDimensionsRow)
         else
           let* cells := py_iter row in
           for_enumerate
             (fun destnode source_dest_dist dd =>
                set2 dd sourcenode destnode source_dest_dist)
             cells dd)
      (map JList rows) dd = Ok dd' ->
    (forall row, In row rows -> Z.of_nat (length row) = lastnode + 1)
    /\ forall a b,
        get2 dd' a b
        = match matrix_get rows (a - i) b with
          | Some x => Some x
          | None => get2 dd a b
          end.
Proof.
  induction rows as [|row rows IH]; intros i dd dd' Hi H.
  - inversion H; subst. split; [intros ? []|]. intros a b.
    unfold matrix_get. destruct ((0 <=? a - i) && (0 <=? b))%bool; reflexivity.
  - cbn [map for_enumerate_from py_len py_iter bind] in H.
    destruct (Z.eqb_spec (Z.of_nat (length row)) (lastnode + 1)) as [Hlen|]; [|discriminate].
    cbn [negb] in H. apply bind_ok in H as (dd1 & H1 & H2).
    destruct (IH (i + 1) dd1 dd') as [Hlens Hget]; [lia | exact H2 |].
    split; [intros r [<-|Hr]; auto|].
    intros a b. rewrite Hget. unfold for_enumerate in H1.
    rewrite (copy_row_get _ _ _ _ _ H1 a b). unfold matrix_get.
    destruct (Z.leb_spec 0 b) as [Hb|Hb]; cycle 1.
    { rewrite !andb_false_r. rewrite decide_False by lia. reflexivity. }
    rewrite !andb_true_r.
    destruct (Z.leb_spec 0 (a - (i + 1))) as [Ha|Ha].
    + destruct (Z.leb_spec 0 (a - i)); [|lia].
      replace (Z.to_nat (a - i)) with (S (Z.to_nat (a - (i + 1)))) by lia.
      cbn [lookup list_lookup]. rewrite decide_False by lia.
      change (list_lookup (Z.to_nat (a - (i + 1))) rows) with (rows !! Z.to_nat (a - (i + 1))).
      reflexivity.
    + destruct (Z.leb_spec 0 (a - i)) as [Ha'|Ha'].
      * assert (a = i) by lia. subst a. replace (i - i) with 0 by lia.
        change ((row :: rows) !! Z.to_nat 0) with (Some row).
        replace (b - 0) with b by lia.
        destruct (decide (i = i /\ 0 <= b < 0 + Z.of_nat (length row))) as [[_ Hin]|Hout].
        -- destruct (row !! Z.to_nat b) eqn:Hcell; [reflexivity|].
           apply lookup_ge_None in Hcell. lia.
        -- rewrite lookup_ge_None_2 by lia. reflexivity.
      * rewrite decide_False by lia. reflexivity.
Qed.

Lemma get2_empty_rows (dd : dist_table) :
  (forall k row, dd !! k = Some row -> row = ∅) -> forall s d, get2 dd s d = None.
Proof.
  intros Hrows s d. unfold get2. destruct (dd !! s) as [row|] eqn:Hs; [|reflexivity].
  rewrite (Hrows s row Hs). apply lookup_empty.
Qed.

(** With a [dist-all] matrix in effect the table is the matrix, entry by
    entry, whether symmetric or not, and the matrix is square with one row
    for each node. *)
Theorem dist_all_copied (numalist : list jobj) (matrix : list (list jval))
  (dd : dist_table) :
  effective_dist_all numalist = JList (map JList matrix) ->
  dists numalist = Ok dd ->
  Z.of_nat (length matrix) = total_nodes numalist
  /\ (forall row, In row matrix -> Z.of_nat (length row) = total_nodes numalist)
  /\ forall s d, get2 dd s d = matrix_get matrix s d.
Proof.
  intros Hmatrix Hrun. unfold dists in Hrun.
  apply bind_ok in Hrun as (v & Hv & Hrun).
  destruct (dists_first_pass_nodes _ _ Hv) as (S & P & D & R & L & E & O & M).
  destruct numalist as [|g l]; [discriminate|].
  rewrite (L ltac:(discriminate)), M, Hmatrix in Hrun.
  destruct (Z.ltb_spec (total_nodes (g :: l)) 0) as [|_]; [lia|].
  cbn [is_none negb] in Hrun. unfold fill_from_matrix in Hrun.
  cbn [py_len py_iter bind] in Hrun. rewrite length_map in Hrun.
  destruct (Z.eqb_spec (Z.of_nat (length matrix)) (total_nodes (g :: l) - 1 + 1)) as [Hrows|];
    [|discriminate].
  cbn [negb] in Hrun.
  destruct (for_enumerate_rows (total_nodes (g :: l) - 1) matrix 0 _ _ (Z.le_refl 0) Hrun)
    as [Hlens Hget].
  split; [lia|]. split; [intros row Hrow; rewrite (Hlens row Hrow); lia|].
  intros s d. rewrite Hget. replace (s - 0) with s by lia.
  rewrite (get2_empty_rows _ R). destruct (matrix_get matrix s d); reflexivity.
Qed.

Lemma dist_all_copied_witness :
  get2 (table_of (dists asymmetric_matrix)) 0 1 = Some (JInt 20)
  /\ get2 (table_of (dists asymmetric_matrix)) 1 0 = Some (JInt 30).
Proof.
  destruct (dist_all_copied asymmetric_matrix
              [[JInt 10; JInt 20]; [JInt 30; JInt 10]]
              (table_of (dists asymmetric_matrix))) as (_ & _ & Hget).
  - vm_compute. reflexivity.
  - vm_compute. reflexivity.
  - split; rewrite Hget; reflexivity.
Defined.

(** ** The distance table without a [dist-all] matrix, entry by entry *)

Lemma for_seqZ_indexed {St : Type} (P : Z -> St -> Prop) (body : Z -> St -> result St)
  (len : nat) :
  forall m s s',
    (forall k t t', m <= k < m + Z.of_nat len -> P k t -> body k t = Ok t' -> P (k + 1) t') ->
    P m s -> for_each body (seqZ m (Z.of_nat len)) s = Ok s' ->
    P (m + Z.of_nat len) s'.
Proof.
  induction len as [|len IH]; intros m s s' Hbody Hs H.
  - cbn in H. inversion H; subst. replace (m + Z.of_nat 0) with m by lia. assumption.
  - rewrite seqZ_cons in H by lia. cbn [for_each] in H.
    apply bind_ok in H as (s1 & H1 & H2).
    replace (Z.pred (Z.of_nat (S len))) with (Z.of_nat len) in H2 by lia.
    replace (m + Z.of_nat (S len)) with (Z.succ m + Z.of_nat len) by lia.
    apply (IH (Z.succ m) s1 s'); [| |assumption].
    + intros k t t' Hk. apply Hbody. lia.
    + replace (Z.succ m) with (m + 1) by lia. apply (Hbody m s s1); [lia | assumption..].
Qed.

Lemma for_range_indexed {St : Type} (P : Z -> St -> Prop) (body : Z -> St -> result St) (n : Z) :
  0 <= n ->
  (forall k t t', 0 <= k < n -> P k t -> body k t = Ok t' -> P (k + 1) t') ->
  forall s s', P 0 s -> for_each body (range n) s = Ok s' -> P n s'.
Proof.
  intros Hn Hbody s s' Hs H. unfold range in H.
  replace n with (Z.of_nat (Z.to_nat n)) in H by lia.
  replace n with (0 + Z.of_nat (Z.to_nat n)) at 1 by lia.
  apply (for_seqZ_indexed P body (Z.to_nat n) 0 s s'); [|assumption..].
  intros k t t' Hk. apply Hbody. lia.
Qed.

Lemma filled_next_row (v : dvars) (n s : Z) (dd : dist_table) :
  filled_upto v n s n dd -> filled_upto v n (s + 1) 0 dd.
Proof.
  intros H i j Hi Hj. specialize (H i j Hi Hj). unfold before in *.
  destruct H as [Hsame Hdiff]. split.
  - intros Heq. destruct (Hsame Heq) as [A B]. split; intros ?; [apply A | apply B]; lia.
  - intros Hne. destruct (Hdiff Hne) as (A & B & C & D).
    repeat split; intros ? ?; [apply A | apply B | apply C | apply D]; lia.
Qed.

(** One step of the filling loops moves the description of the table one
    pair forward. *)
Lemma fill_pair_filled (v : dvars) (n s d : Z) (dd dd' : dist_table) :
  0 <= s < n -> 0 <= d < n ->
  filled_upto v n s d dd -> fill_pair v s d dd = Ok dd' ->
  filled_upto v n s (d + 1) dd'.
Proof.
  intros Hs Hd H Hrun. unfold fill_pair in Hrun.
  destruct (Z.eqb_spec s d) as [->|Hsd].
  - (* the diagonal *)
    pose proof (set2_get2 _ _ _ _ _ Hrun) as Hget.
    intros i j Hi Hj. specialize (H i j Hi Hj). unfold before in *.
    destruct H as [Hsame Hdiff]. rewrite !Hget. split.
    + intros <-. destruct (Hsame eq_refl) as [A B].
      destruct (decide (i = d /\ i = d)) as [[-> _]|Hne]; split; intros ?;
        try reflexivity; try lia; [apply A | apply B]; lia.
    + intros Hne. destruct (Hdiff Hne) as (A & B & C & D).
      rewrite decide_False by lia.
      repeat split; intros ? ?; [apply A | apply B | apply C | apply D]; lia.
  - destruct (get2 (node_node_dist v) s d) as [x|] eqn:Hover.
    + (* an explicit distance *)
      apply bind_ok in Hrun as (dd1 & H1 & H2).
      pose proof (set2_get2 _ _ _ _ _ H1) as G1.
      pose proof (set2_get2 _ _ _ _ _ H2) as G2.
      assert (Hget : forall i j, get2 dd' i j =
                if decide ((i = s /\ j = d) \/ (i = d /\ j = s)) then Some x
                else get2 dd i j).
      { intros i j. rewrite G2, G1. repeat case_decide; try reflexivity; tauto. }
      clear G1 G2 H1 H2 dd1.
      intros i j Hi Hj. specialize (H i j Hi Hj). unfold before in *.
      destruct H as [Hsame Hdiff]. rewrite !Hget. split.
      * intros <-. destruct (Hsame eq_refl) as [A B].
        rewrite decide_False by lia. split; intros ?; [apply A | apply B]; lia.
      * intros Hne. destruct (Hdiff Hne) as (A & B & C & D).
        destruct (decide ((i = s /\ j = d) \/ (i = d /\ j = s))) as [[[-> ->]|[-> ->]]|Hother].
        -- (* the pair itself *)
           repeat split; intros ? ?; try lia.
           ++ exists x. split; [|reflexivity]. unfold expected_dist.
              destruct (Z.eqb_spec s d); [contradiction|].
              rewrite Z.max_l, Z.min_r by lia. rewrite Hover. reflexivity.
           ++ rewrite Hover. reflexivity.
        -- (* its mirror *)
           repeat split; intros ? ?; try lia.
           ++ exists x. split; [|reflexivity]. unfold expected_dist.
              destruct (Z.eqb_spec d s); [lia|].
              rewrite Z.max_r, Z.min_l by lia. rewrite Hover. reflexivity.
           ++ symmetry. exact Hover.
        -- repeat split; intros ? ?; [apply A | apply B | apply C | apply D]; lia.
    + (* no explicit distance from [s] to [d] *)
      apply bind_ok in Hrun as (row & Hrow & Hrun).
      unfold lookup_or_keyerror in Hrow.
      destruct (dd !! s) as [row'|] eqn:Hdd; inversion Hrow; subst; clear Hrow.
      assert (Hsd_get : get2 dd s d = row !! d) by (unfold get2; rewrite Hdd; reflexivity).
      pose proof (H s d Hs Hd) as [_ Hsd_old]. specialize (Hsd_old Hsd).
      pose proof (H d s Hd Hs) as [_ Hds_old]. specialize (Hds_old (not_eq_sym Hsd)).
      unfold before in Hsd_old, Hds_old.
      destruct Hsd_old as (_ & _ & Csd & Dsd). destruct Hds_old as (_ & Bds & _ & Dds).
      destruct (row !! d) as [y|] eqn:Hcell.
      * (* the entry is there: it came from the mirror pair *)
        inversion Hrun; subst; clear Hrun.
        assert (Hlt : d < s).
        { destruct (Z.lt_ge_cases d s); [assumption|].
          rewrite Dsd in Hsd_get by lia. discriminate. }
        assert (Hmirror : get2 (node_node_dist v) d s = Some y).
        { rewrite <- Csd by lia. exact Hsd_get. }
        specialize (Bds ltac:(lia) ltac:(lia)). rewrite Hmirror in Bds.
        intros i j Hi Hj. specialize (H i j Hi Hj). unfold before in *.
        destruct H as [Hsame Hdiff]. split.
        -- intros <-. destruct (Hsame eq_refl) as [A B].
           split; intros ?; [apply A | apply B]; lia.
        -- intros Hne. destruct (Hdiff Hne) as (A & B & C & D).
           destruct (decide (i = s /\ j = d)) as [[-> ->]|Hn1];
             [|destruct (decide (i = d /\ j = s)) as [[-> ->]|Hn2]].
           ++ repeat split; intros ? ?; try lia.
              exists y. split; [|assumption]. unfold expected_dist.
              destruct (Z.eqb_spec s d); [contradiction|].
              rewrite Z.max_l, Z.min_r by lia. rewrite Hover, Hmirror. reflexivity.
           ++ repeat split; intros ? ?; try lia.
              exists y. split; [|assumption]. unfold expected_dist.
              destruct (Z.eqb_spec d s); [lia|].
              rewrite Z.max_r, Z.min_l by lia. rewrite Hover, Hmirror. reflexivity.
           ++ repeat split; intros ? ?; [apply A | apply B | apply C | apply D]; lia.
      * (* the topology *)
        apply bind_ok in Hrun as (x & Hx & Hset).
        pose proof (set2_get2 _ _ _ _ _ Hset) as Hget.
        intros i j Hi Hj. specialize (H i j Hi Hj). unfold before in *.
        destruct H as [Hsame Hdiff]. rewrite !Hget. split.
        -- intros <-. destruct (Hsame eq_refl) as [A B].
           rewrite decide_False by lia. split; intros ?; [apply A | apply B]; lia.
        -- intros Hne. destruct (Hdiff Hne) as (A & B & C & D).
           destruct (decide (i = s /\ j = d)) as [[-> ->]|Hn1];
             [|destruct (decide (i = d /\ j = s)) as [[-> ->]|Hn2]].
           ++ repeat split; intros ? ?; try lia.
              ** exists x. split; [|reflexivity]. unfold expected_dist.
                 destruct (Z.eqb_spec s d); [contradiction|].
                 rewrite Z.max_l, Z.min_r by lia. rewrite Hover.
                 rewrite <- Csd by lia. rewrite Hsd_get. exact Hx.
              ** rewrite Hover. eauto.
           ++ repeat split; intros ? ?; try lia.
              ** assert (Hnone : get2 (node_node_dist v) d s = None)
                   by (rewrite <- Csd by lia; exact Hsd_get).
                 specialize (Bds ltac:(lia) ltac:(lia)). rewrite Hnone in Bds.
                 destruct Bds as (z & Hz & Hdz). exists z. split; [|assumption].
                 unfold expected_dist. destruct (Z.eqb_spec d s); [lia|].
                 rewrite Z.max_r, Z.min_l by lia. rewrite Hover, Hnone. exact Hz.
              ** rewrite Hover. apply D; lia.
           ++ repeat split; intros ? ?; [apply A | apply B | apply C | apply D]; lia.
Qed.

Lemma filled_initial (v : dvars) (n : Z) (dd : dist_table) :
  (forall s d, get2 dd s d = None) -> filled_upto v n 0 0 dd.
Proof.
  intros Hnone i j Hi Hj. unfold before. rewrite !Hnone.
  split; [intros _; split; intros ?; [lia | reflexivity]|].
  intros _. repeat split; intros ? ?; lia || reflexivity.
Qed.

Lemma fill_from_topology_filled (v : dvars) (n : Z) (dd dd' : dist_table) :
  0 <= n ->
  filled_upto v n 0 0 dd -> fill_from_topology v (n - 1) dd = Ok dd' ->
  filled_upto v n n 0 dd'.
Proof.
  intros Hn Hinit Hrun. unfold fill_from_topology in Hrun.
  replace (n - 1 + 1) with n in Hrun by lia.
  refine (for_range_indexed (fun s dd => filled_upto v n s 0 dd) _ n Hn _ dd dd' Hinit Hrun).
  intros s t t' Hs Ht Hrow. apply filled_next_row.
  refine (for_range_indexed (fun d dd => filled_upto v n s d dd) _ n Hn _ t t' Ht Hrow).
  intros d u u' Hd Hu Hstep. apply (fill_pair_filled v n s d u u' Hs Hd Hu Hstep).
Qed.

(** Without a [dist-all] matrix every entry of the table is the expected
    distance: 10 on the diagonal; off the diagonal the [node-dist] entry that
    the higher-numbered node of the pair has for the lower-numbered one, else
    the entry the lower-numbered node has for the higher-numbered one, else
    the distance of the topology. *)
Theorem dists_entries (numalist : list jobj) (v : dvars) (dd : dist_table) :
  effective_dist_all numalist = JNull ->
  dists_first_pass numalist = Ok v ->
  dists numalist = Ok dd ->
  forall i j, 0 <= i < total_nodes numalist -> 0 <= j < total_nodes numalist ->
    exists x, expected_dist v i j = Ok x /\ get2 dd i j = Some x.
Proof.
  intros Hnone Hv Hrun i j Hi Hj. unfold dists in Hrun. rewrite Hv in Hrun.
  cbn [bind] in Hrun.
  destruct (dists_first_pass_nodes _ _ Hv) as (S & P & D & R & L & E & O & M).
  destruct (Z.ltb_spec (lastnode_in_group v) 0) as [|Hlast]; [discriminate|].
  rewrite M, Hnone in Hrun. cbn [is_none negb] in Hrun.
  destruct numalist as [|g l]; [rewrite (E eq_refl) in Hlast; lia|].
  rewrite (L ltac:(discriminate)) in Hrun.
  pose proof (fill_from_topology_filled v _ _ _ P
                (filled_initial v _ _ (get2_empty_rows _ R)) Hrun) as Hfilled.
  destruct (Hfilled i j Hi Hj) as [Hsame Hdiff]. unfold before in *.
  destruct (decide (i = j)) as [<-|Hne].
  - destruct (Hsame eq_refl) as [A _]. exists (JInt DEFAULT_DIST_SAME_NODE).
    split; [|apply A; lia]. unfold expected_dist. rewrite Z.eqb_refl. reflexivity.
  - destruct (Hdiff Hne) as (A & _). apply A; lia.
Qed.

Lemma dists_entries_witness :
  exists x,
    expected_dist (vars_of (dists_first_pass overrides_both_ways)) 0 1 = Ok x
    /\ get2 (table_of (dists overrides_both_ways)) 0 1 = Some x.
Proof.
  assert (Htotal : total_nodes overrides_both_ways = 3) by (vm_compute; reflexivity).
  apply (dists_entries overrides_both_ways).
  - vm_compute. reflexivity.
  - vm_compute. reflexivity.
  - vm_compute. reflexivity.
  - lia.
  - lia.
Defined.

(** ** The rows of the table and the distance lines *)

Lemma fill_from_matrix_rows (dist_matrix : jval) (lastnode : Z) (dd dd' : dist_table) :
  fill_from_matrix dist_matrix lastnode dd = Ok dd' ->
  forall k, is_Some (dd' !! k) <-> is_Some (dd !! k).
Proof.
  unfold fill_from_matrix. intros H.
  apply bind_ok in H as (nrows & _ & H).
  destruct (negb (nrows =? lastnode + 1)); [discriminate|].
  apply bind_ok in H as (rows & _ & H). revert H. unfold for_enumerate.
  apply (for_enumerate_from_invariant
           (fun t : dist_table => forall k, is_Some (t !! k) <-> is_Some (dd !! k)));
    [|tauto].
  intros i row t t' Ht Hrow.
  apply bind_ok in Hrow as (ncols & _ & Hrow).
  destruct (negb (ncols =? lastnode + 1)); [discriminate|].
  apply bind_ok in Hrow as (cells & _ & Hrow). revert Hrow.
  apply (for_enumerate_from_invariant
           (fun u : dist_table => forall k, is_Some (u !! k) <-> is_Some (dd !! k)));
    [|assumption].
  intros j x u u' Hu Hset k. rewrite (set2_rows _ _ _ _ _ Hset k). apply Hu.
Qed.

(** The table [dists] returns has one row for each compiled node: the nodes
    are numbered from 0, and there are packages x dies x nodes of them for each
    group. *)
Theorem dists_rows_are_nodes (numalist : list jobj) (dd : dist_table) :
  dists numalist = Ok dd ->
  forall k, is_Some (dd !! k) <-> 0 <= k < total_nodes numalist.
Proof.
  intros Hrun k. unfold dists in Hrun. apply bind_ok in Hrun as (v & Hv & Hrun).
  destruct (dists_first_pass_nodes _ _ Hv) as (S & P & D & R & L & E & O & M).
  rewrite <- D.
  destruct (lastnode_in_group v <? 0); [discriminate|].
  destruct (negb (is_none (dist_matrix v))).
  - apply (fill_from_matrix_rows _ _ _ _ Hrun).
  - destruct (fill_from_topology_fills v _ _ _ (pair_inv_initial v _ R) Hrun)
      as (_ & [Hrows _] & _).
    apply Hrows.
Qed.

Lemma dists_rows_are_nodes_witness :
  is_Some (table_of (dists three_cpu_groups) !! 3)
  <-> 0 <= 3 < total_nodes three_cpu_groups.
Proof. apply (dists_rows_are_nodes three_cpu_groups). vm_compute. reflexivity. Defined.

Lemma sorted_keys_elem {V : Type} (m : gmap Z V) (k : Z) :
  In k (sorted_keys m) <-> is_Some (m !! k).
Proof.
  unfold sorted_keys. rewrite <- list_elem_of_In, merge_sort_Permutation.
  rewrite list_elem_of_fmap. split.
  - intros ([k' x] & -> & Hin). apply elem_of_map_to_list in Hin. eauto.
  - intros [x Hx]. exists (k, x). split; [reflexivity | apply elem_of_map_to_list, Hx].
Qed.

Lemma sorted_keys_increasing {V : Type} (m : gmap Z V) : StronglySorted Z.lt (sorted_keys m).
Proof.
  unfold sorted_keys.
  assert (Hsorted : StronglySorted Z.le (merge_sort Z.le (map fst (map_to_list m))))
    by (apply StronglySorted_merge_sort; apply _).
  assert (Hnodup : NoDup (merge_sort Z.le (map fst (map_to_list m))))
    by (rewrite merge_sort_Permutation; apply NoDup_fst_map_to_list).
  induction Hsorted as [|k l _ IH Hall]; [constructor|].
  apply NoDup_cons in Hnodup as [Hk Hnodup].
  constructor; [apply IH, Hnodup|].
  rewrite List.Forall_forall in *. intros k' Hin.
  specialize (Hall k' Hin). apply list_elem_of_In in Hin.
  assert (k <> k') by (intros ->; apply Hk; exact Hin). lia.
Qed.

(** The lines of consecutive keys, each key giving lines in order under
    it, are in order. *)
Lemma flat_map_sorted {A : Type} (R : A -> A -> Prop) (f : Z -> list A) (keys : list Z) :
  StronglySorted Z.lt keys ->
  (forall k, StronglySorted R (f k)) ->
  (forall k k' x x', k < k' -> In x (f k) -> In x' (f k') -> R x x') ->
  StronglySorted R (flat_map f keys).
Proof.
  intros Hkeys Hin Hacross.
  induction Hkeys as [|k keys _ IH Hall]; [constructor|].
  cbn [flat_map].
  assert (Hrest : forall x x', In x (f k) -> In x' (flat_map f keys) -> R x x').
  { intros x x' Hx Hx'. apply in_flat_map in Hx' as (k' & Hk' & Hx').
    rewrite List.Forall_forall in Hall. apply (Hacross k k'); auto. }
  specialize (Hin k). induction Hin as [|x l _ IHl Hx]; [exact IH|].
  cbn [app]. constructor.
  - apply IHl. intros y y' Hy. apply Hrest. right. exact Hy.
  - apply Forall_app. split; [exact Hx|].
    apply List.Forall_forall. intros y Hy. apply Hrest; [left; reflexivity | exact Hy].
Qed.

Lemma dist_lines_elem (dd : dist_table) (s d : Z) (x : jval) :
  In (s, d, x) (dist_lines dd) <-> s <> d /\ get2 dd s d = Some x.
Proof.
  unfold dist_lines, get2. rewrite in_flat_map. split.
  - intros (s' & Hs' & Hin).
    destruct (dd !! s') as [row|] eqn:Hrow; [|destruct Hin].
    apply in_flat_map in Hin as (d' & Hd' & Hin).
    destruct (Z.eqb_spec s' d') as [|Hne]; [destruct Hin|].
    destruct (row !! d') as [y|] eqn:Hcell; [|destruct Hin].
    destruct Hin as [Heq|[]]. inversion Heq; subst. rewrite Hrow. auto.
  - intros [Hne Hget]. destruct (dd !! s) as [row|] eqn:Hrow; [|discriminate].
    exists s. split; [apply sorted_keys_elem; eauto|]. rewrite Hrow.
    apply in_flat_map. exists d. split; [apply sorted_keys_elem; eauto|].
    destruct (Z.eqb_spec s d); [contradiction|]. rewrite Hget. left. reflexivity.
Qed.

Lemma dist_lines_sorted (dd : dist_table) : StronglySorted line_before (dist_lines dd).
Proof.
  unfold dist_lines. apply flat_map_sorted.
  - apply sorted_keys_increasing.
  - intros s. destruct (dd !! s) as [row|]; [|constructor].
    apply flat_map_sorted.
    + apply sorted_keys_increasing.
    + intros d. destruct (s =? d); [constructor|].
      destruct (row !! d); repeat constructor.
    + intros d d' l l' Hlt Hl Hl'.
      destruct (s =? d); [destruct Hl|]. destruct (s =? d'); [destruct Hl'|].
      destruct (row !! d); [|destruct Hl]. destruct (row !! d'); [|destruct Hl'].
      destruct Hl as [<-|[]]. destruct Hl' as [<-|[]]. right. cbn. lia.
  - intros s s' l l' Hlt Hl Hl'.
    assert (Hsrc : forall k (y : Z * Z * jval),
              In y match dd !! k with
                   | Some row =>
                       flat_map (fun destnode =>
                                   if k =? destnode then []
                                   else match row !! destnode with
                                        | Some x => [(k, destnode, x)]
                                        | None => []
                                        end) (sorted_keys row)
                   | None => []
                   end -> y.1.1 = k).
    { intros k y Hy. destruct (dd !! k) as [row|]; [|destruct Hy].
      apply in_flat_map in Hy as (d & _ & Hy).
      destruct (k =? d); [destruct Hy|]. destruct (row !! d); [|destruct Hy].
      destruct Hy as [<-|[]]. reflexivity. }
    left. rewrite (Hsrc _ _ Hl), (Hsrc _ _ Hl'). exact Hlt.
Qed.

(** The rows of the table [dists] builds are those of the nodes. *)
Lemma dists_table_rows (numalist : list jobj) (dd : dist_table) (k : Z) :
  dists numalist = Ok dd -> is_Some (dd !! k) -> 0 <= k < total_nodes numalist.
Proof.
  intros Hrun. unfold dists in Hrun. apply bind_ok in Hrun as (v & Hv & Hrun).
  destruct (dists_first_pass_nodes _ _ Hv) as (S & P & D & R & L & E & O & M).
  rewrite <- D.
  destruct (lastnode_in_group v <? 0); [discriminate|].
  destruct (negb (is_none (dist_matrix v))).
  - apply (fill_from_matrix_rows _ _ _ _ Hrun).
  - destruct (fill_from_topology_fills v _ _ _ (pair_inv_initial v _ R) Hrun)
      as (_ & [Hrows _] & _).
    apply Hrows.
Qed.

(** The [-numa dist] lines [qemuopts] emits are the entries off the diagonal
    of the table [dists] builds for the NUMA groups of the list: an entry
    gives a line exactly when it is for two different nodes; the nodes of a
    line are nodes of the list; and the lines come in the order of their
    source nodes and, for a source node, of their destination nodes, so that
    no pair of nodes has two lines. *)
Theorem dist_lines_are_off_diagonal (numalist : list jobj) (o : qemu_options) :
  qemuopts numalist = Ok o ->
  exists dd,
    dists (numa_groups numalist) = Ok dd
    /\ (forall s d x,
          In (s, d, x) (numa_dist_params o) <-> s <> d /\ get2 dd s d = Some x)
    /\ (forall s d x,
          In (s, d, x) (numa_dist_params o) ->
          0 <= s < total_nodes (numa_groups numalist))
    /\ StronglySorted line_before (numa_dist_params o).
Proof.
  intros H. unfold qemuopts in H.
  apply bind_ok in H as ([] & _ & H). apply bind_ok in H as (v & Hv & H).
  apply qemuopts_groups_numa in Hv. cbn in Hv.
  unfold assemble in H. rewrite Hv in H.
  destruct (dists (numa_groups numalist)) as [dd|e] eqn:Hdd; [|discriminate].
  cbn [bind] in H.
  assert (Hlines : numa_dist_params o = dist_lines dd).
  { destruct (lastcpu (cpuv v) =? -1); [discriminate|].
    destruct (last_socket (cpuv v) + 1 =? 0); [discriminate|].
    repeat (apply bind_ok in H as (? & _ & H)).
    destruct (startswith_0 _); [destruct (startswith_0 _); discriminate|].
    inversion H; subst. reflexivity. }
  exists dd. rewrite Hlines. split; [reflexivity|]. split; [|split].
  - intros s d x. apply dist_lines_elem.
  - intros s d x Hin. apply dist_lines_elem in Hin as [_ Hget].
    apply (dists_table_rows _ dd s Hdd). unfold get2 in Hget.
    destruct (dd !! s); [eauto | discriminate].
  - apply dist_lines_sorted.
Qed.

Lemma dist_lines_are_off_diagonal_witness :
  exists dd,
    dists (numa_groups two_groups_with_overrides) = Ok dd
    /\ (forall s d x,
          In (s, d, x) (numa_dist_params (options_of (qemuopts two_groups_with_overrides)))
          <-> s <> d /\ get2 dd s d = Some x)
    /\ (forall s d x,
          In (s, d, x) (numa_dist_params (options_of (qemuopts two_groups_with_overrides))) ->
          0 <= s < total_nodes (numa_groups two_groups_with_overrides))
    /\ StronglySorted line_before
         (numa_dist_params (options_of (qemuopts two_groups_with_overrides))).
Proof.
  apply (dist_lines_are_off_diagonal two_groups_with_overrides).
  vm_compute. reflexivity.
Defined.

(** ** Counting in the CXL builder *)

Section cxl_counting.
Variable measure : cxlvars -> Z.
Variables wobj wdev wport wmem : Z.
Hypothesis measure_device : forall p c, measure (extend_device p c) = measure c + wdev.
Hypothesis measure_object : forall p c, measure (extend_object p c) = measure c + wobj.
Hypothesis measure_port : forall c, measure (next_port c) = measure c + wport.
Hypothesis measure_memory : forall n c, measure (count_memory n c) = measure c + wmem.

Lemma cxlmemopts_count (size : string) (present : option bool) (bus_id : string)
  (c : cxlvars) :
  is_Some (megabytes size) ->
  exists c', cxlmemopts (json_of_device (MemoryDevice size present)) bus_id c = Ok c'
             /\ measure c' = measure c + device_count wobj wdev wport wmem
                                          (MemoryDevice size present).
Proof.
  intros [n Hn]. unfold megabytes in Hn.
  destruct (cxl_sizeM (JStr size)) as [n'|] eqn:Hsize; [|discriminate].
  unfold cxlmemopts. cbn [json_of_device py_getitem jget].
  change (String.eqb "mem" "mem") with true. cbv iota. cbn [bind].
  rewrite Hsize. cbn [bind]. eexists. split; [reflexivity|].
  cbn [device_count present_at_boot].
  destruct present as [[]|]; cbn;
    rewrite measure_memory, ?measure_device, measure_object; lia.
Qed.

(** The dispatch on a device adds the count of the device. *)
Definition dispatch_counts (d : cxl_device) : Prop :=
  forall bus_id c,
    (py_contains "mem" (json_of_device d) = Ok true ->
     exists c', cxlmemopts (json_of_device d) bus_id c = Ok c'
                /\ measure c' = measure c + device_count wobj wdev wport wmem d)
    /\ (py_contains "mem" (json_of_device d) = Ok false ->
        py_contains "switch" (json_of_device d) = Ok true
        /\ exists c', cxlswitchopts (json_of_device d) bus_id c = Ok c'
                      /\ measure c' = measure c + device_count wobj wdev wport wmem d).

Lemma downstream_body_count (upstream_id : string) (d : cxl_device) :
  dispatch_counts d ->
  forall i c, exists c',
    downstream_body cxlswitchopts upstream_id i (json_of_device d) c = Ok c'
    /\ measure c' = measure c + (wdev + wport + device_count wobj wdev wport wmem d).
Proof.
  intros Hd i c. unfold downstream_body.
  destruct (downstream_port upstream_id i c) as [id c1] eqn:Hport.
  assert (Hc1 : measure c1 = measure c + wdev + wport).
  { unfold downstream_port in Hport. inversion Hport.
    rewrite measure_port, measure_device. reflexivity. }
  destruct (Hd id c1) as [Hmem Hsw].
  destruct (contains_mem_total d) as [[] Hb]; rewrite Hb in *; cbn [bind].
  - destruct (Hmem eq_refl) as (c2 & -> & H2). exists c2. split; [reflexivity | lia].
  - destruct (Hsw eq_refl) as (-> & c2 & -> & H2). cbn [bind].
    exists c2. split; [reflexivity | lia].
Qed.

Lemma device_counts (d : cxl_device) : well_sized d -> dispatch_counts d.
Proof.
  induction d as [size present | downstream IH] using cxl_device_induction;
    intros Hwell bus_id c.
  - split; [intros _; apply cxlmemopts_count; assumption | discriminate].
  - split; [discriminate | intros _]. split; [reflexivity|].
    cbn [json_of_device device_count]. rewrite cxlswitchopts_list.
    cbn [well_sized] in Hwell. apply well_sized_Forall in Hwell.
    unfold for_enumerate. rewrite for_enumerate_from_map.
    match goal with
    | |- context [for_enumerate_from 0 ?body downstream ?c0] =>
        destruct (for_enumerate_from_sum measure
                    (fun d' => wdev + wport + device_count wobj wdev wport wmem d')
                    body downstream) with (i := 0) (s := c0)
          as (c' & Hrun & Hcount)
    end.
    + apply Forall_forall. intros d Hd i s.
      apply downstream_body_count.
      rewrite Forall_forall in IH, Hwell. apply IH; [|apply Hwell]; assumption.
    + exists c'. split; [exact Hrun|]. rewrite Hcount, measure_device. lia.
Qed.

Lemma root_port_body_count (host_bridge_id : string) (d : cxl_device) :
  well_sized d ->
  forall i c, exists c',
    root_port_body host_bridge_id i (json_of_device d) c = Ok c'
    /\ measure c' = measure c + (wdev + wport + device_count wobj wdev wport wmem d).
Proof.
  intros Hwell i c. unfold root_port_body.
  set (id := ("cxlrp" +:+ _)%string). set (c1 := next_port _).
  assert (Hc1 : measure c1 = measure c + wdev + wport).
  { subst c1. rewrite measure_port, measure_device. reflexivity. }
  destruct (device_counts d Hwell id c1) as [Hmem Hsw].
  destruct (contains_mem_total d) as [[] Hb]; rewrite Hb in *; cbn [bind].
  - destruct (Hmem eq_refl) as (c2 & -> & H2). exists c2. split; [reflexivity | lia].
  - destruct (Hsw eq_refl) as (-> & c2 & -> & H2). cbn [bind].
    exists c2. split; [reflexivity | lia].
Qed.

Lemma host_bridge_body_count (root_ports : list cxl_device) :
  Forall well_sized root_ports ->
  forall i r, exists r',
    host_bridge_body i (JList (map json_of_device root_ports)) r = Ok r'
    /\ measure (shared r')
       = measure (shared r)
         + (wdev + sumZ (map (fun d => wdev + wport + device_count wobj wdev wport wmem d)
                             root_ports))
    /\ bus_nr r' = bus_nr r + 12.
Proof.
  intros Hwell i r. unfold host_bridge_body. cbn [py_iter bind].
  unfold for_enumerate. rewrite for_enumerate_from_map.
  match goal with
  | |- context [for_enumerate_from 0 ?body root_ports ?c0] =>
      destruct (for_enumerate_from_sum measure
                  (fun d => wdev + wport + device_count wobj wdev wport wmem d)
                  body root_ports)
        with (i := 0) (s := c0) as (c' & -> & Hcount)
  end.
  - eapply Forall_impl; [exact Hwell|]. intros d Hd j s.
    apply root_port_body_count. exact Hd.
  - cbn [bind]. eexists. split; [reflexivity|]. cbn [shared bus_nr].
    split; [|reflexivity]. rewrite Hcount, measure_device. lia.
Qed.

Lemma host_bridge_loop_count (forest : list (list cxl_device)) :
  Forall (Forall well_sized) forest ->
  forall i r, exists r',
    for_enumerate_from i host_bridge_body
      (map (fun root_ports => JList (map json_of_device root_ports)) forest) r = Ok r'
    /\ measure (shared r') = measure (shared r) + forest_count wobj wdev wport wmem forest
    /\ bus_nr r' = bus_nr r + 12 * Z.of_nat (length forest).
Proof.
  induction 1 as [|root_ports forest Hports _ IH]; intros i r.
  - exists r. split; [reflexivity|]. cbn. split; lia.
  - cbn [map for_enumerate_from].
    destruct (host_bridge_body_count root_ports Hports i r) as (r1 & -> & Hm1 & Hb1).
    cbn [bind]. destruct (IH (i + 1) r1) as (r2 & -> & Hm2 & Hb2).
    exists r2. split; [reflexivity|]. split.
    + unfold forest_count in *. cbn [map sumZ fold_right] in *.
      unfold sumZ in *. lia.
    + cbn [length]. lia.
Qed.

End cxl_counting.

(** For every CXL forest with sizes in [M] or [G], the builder numbers the
    memory devices and the ports one after the other: it ends with as many
    memory backends counted as there are memory devices (present at boot or
    not), a port counter and a slot both equal to the number of ports, two
    [-object] tokens for each memory device, and a bus number advanced by 12
    for each host bridge. *)
Theorem cxl_counters (forest : list (list cxl_device)) :
  Forall (Forall well_sized) forest ->
  exists r,
    cxl_build (json_of_forest forest) = Ok r
    /\ mem_count (shared r) = memory_devices forest
    /\ port_count (shared r) = ports forest
    /\ slot (shared r) = ports forest
    /\ Z.of_nat (length (cxl_objectparams (shared r))) = 2 * memory_devices forest
    /\ bus_nr r = 12 + 12 * Z.of_nat (length forest).
Proof.
  intros Hwell. unfold cxl_build, json_of_forest. cbn [py_iter bind]. unfold for_enumerate.
  set (r0 := {| shared := cxl_init; bus_nr := 12; firmware_targets := [] |}).
  destruct (host_bridge_loop_count mem_count 0 0 0 1) with (forest := forest) (i := 0) (r := r0)
    as (r & Hrun & Hmem & Hbus); try reflexivity; [cbn; intros; lia.. | assumption |].
  destruct (host_bridge_loop_count port_count 0 0 1 0) with (forest := forest) (i := 0) (r := r0)
    as (r' & Hrun' & Hport & _); try reflexivity; [cbn; intros; lia.. | assumption |].
  destruct (host_bridge_loop_count slot 0 0 1 0) with (forest := forest) (i := 0) (r := r0)
    as (r'' & Hrun'' & Hslot & _); try reflexivity; [cbn; intros; lia.. | assumption |].
  destruct (host_bridge_loop_count (fun c => Z.of_nat (length (cxl_objectparams c))) 2 0 0 0)
    with (forest := forest) (i := 0) (r := r0)
    as (r''' & Hrun''' & Hobj & _);
    [intros; cbn; lia | intros; cbn; rewrite length_app; cbn; lia
     | intros; cbn; lia | intros; cbn; lia | assumption |].
  assert (r' = r) by congruence. assert (r'' = r) by congruence.
  assert (r''' = r) by congruence. subst r' r'' r'''.
  exists r. split; [assumption|]. unfold memory_devices, ports.
  cbn in Hmem, Hport, Hslot, Hobj, Hbus.
  repeat split; try lia.
  rewrite Hobj. clear. unfold forest_count.
  induction forest as [|root_ports forest IH]; [reflexivity|].
  cbn [map sumZ fold_right]. unfold sumZ in *.
  assert (Hdev : forall d, device_count 2 0 0 0 d = 2 * device_count 0 0 0 1 d).
  { induction d as [size present | downstream IHd] using cxl_device_induction.
    - cbn. destruct (present_at_boot present); lia.
    - cbn [device_count]. unfold sumZ.
      induction IHd as [|d l Hd _ IHl]; [reflexivity|].
      cbn [map fold_right] in *. lia. }
  assert (Hports : forall l : list cxl_device,
            fold_right Z.add 0 (map (fun d => 0 + 0 + device_count 2 0 0 0 d) l)
            = 2 * fold_right Z.add 0 (map (fun d => 0 + 0 + device_count 0 0 0 1 d) l)).
  { induction l as [|d l IHl]; [reflexivity|]. cbn [map fold_right].
    rewrite IHl, Hdev. lia. }
  rewrite Hports. lia.
Qed.

Lemma cxl_counters_witness :
  exists r,
    cxl_build (json_of_forest small_forest) = Ok r
    /\ mem_count (shared r) = memory_devices small_forest
    /\ port_count (shared r) = ports small_forest
    /\ slot (shared r) = ports small_forest
    /\ Z.of_nat (length (cxl_objectparams (shared r))) = 2 * memory_devices small_forest
    /\ bus_nr r = 12 + 12 * Z.of_nat (length small_forest).
Proof.
  apply (cxl_counters small_forest). repeat constructor; vm_compute; eauto.
Defined.

(** For every CXL forest with sizes in [M] or [G], the total size
    [qemucxlopts] reports (the one [qemuopts] adds to [maxmem]) is the total
    of the device sizes in megabytes divided by 1024 and rounded up, in G. *)
Theorem cxl_reported_total (forest : list (list cxl_device)) :
  Forall (Forall well_sized) forest ->
  reported_total (qemucxlopts (json_of_forest forest))
  = Ok (str_of_Z (ceil_div (forest_megabytes forest) 1024) +:+ "G").
Proof.
  intros Hwell. unfold qemucxlopts, cxl_build, json_of_forest.
  cbn [py_iter bind]. unfold for_enumerate.
  destruct (host_bridge_loop_total forest Hwell 0
              {| shared := cxl_init; bus_nr := 12; firmware_targets := [] |})
    as (r & -> & Htotal & _).
  cbn [bind reported_total]. rewrite Htotal. cbn [cxl_init total_mem_sizeM shared].
  do 3 f_equal. unfold total_mem_sizeG, ceil_div.
  generalize (forest_megabytes forest). intros t. Z.div_mod_to_equations. lia.
Qed.

Lemma cxl_reported_total_witness :
  reported_total (qemucxlopts (json_of_forest small_forest))
  = Ok (str_of_Z (ceil_div (forest_megabytes small_forest) 1024) +:+ "G").
Proof. apply (cxl_reported_total small_forest). repeat constructor; vm_compute; eauto. Defined.

Lemma for_enumerate_from_fails {A S : Type} (body : Z -> A -> S -> result S) (l : list A)
  (x : A) :
  In x l -> (forall i s, exists e, body i x s = Err e) ->
  forall i s, exists e, for_enumerate_from i body l s = Err e.
Proof.
  intros Hin Hx. induction l as [|y l IH]; intros i s; [destruct Hin|].
  cbn [for_enumerate_from]. destruct Hin as [->|Hin].
  - destruct (Hx i s) as [e ->]. cbn. eauto.
  - destruct (body i y s) as [s'|e]; cbn; eauto.
Qed.

(** [cxlswitchopts] on a dictionary whose ["switch"] is a list: the loop over
    the list, wherever the key is in the dictionary. *)
Lemma cxlswitchopts_get (kvs : jobj) (devices : list jval) (bus_id : string) (c : cxlvars) :
  jget kvs "switch" = Some (JList devices) ->
  cxlswitchopts (JObj kvs) bus_id c
  = for_enumerate (downstream_body cxlswitchopts (upstream_id_of bus_id)) devices
      (extend_device ("cxl-upstream,bus=" +:+ bus_id +:+ ",id=" +:+ upstream_id_of bus_id) c).
Proof.
  intros Hget. cbn [cxlswitchopts].
  generalize (extend_device ("cxl-upstream,bus=" +:+ bus_id +:+ ",id=" +:+ upstream_id_of bus_id) c).
  induction kvs as [|[k x] kvs IH]; intros c0; [discriminate|].
  cbn [jget] in Hget. destruct (String.eqb k "switch") eqn:Hk.
  - inversion Hget; subst. clear IH. unfold for_enumerate. generalize 0. revert c0.
    induction devices as [|d l IHl]; intros c0 i; [reflexivity|].
    cbn [for_enumerate_from].
    destruct (downstream_body cxlswitchopts (upstream_id_of bus_id) i d c0); cbn [bind]; auto.
  - apply IH. assumption.
Qed.

(** A switch with, among its downstream devices, a dictionary that has
    neither ["mem"] nor ["switch"] makes [cxlswitchopts] raise. *)
Theorem shapeless_device_in_switch_fails (kvs : jobj) (devices : list jval) (d : jval)
  (bus_id : string) (c : cxlvars) :
  jget kvs "switch" = Some (JList devices) ->
  In d devices -> shapeless d ->
  exists e, cxlswitchopts (JObj kvs) bus_id c = Err e.
Proof.
  intros Hget Hin (dk & -> & Hmem & Hswitch).
  rewrite (cxlswitchopts_get _ _ _ _ Hget). unfold for_enumerate.
  apply (for_enumerate_from_fails _ devices (JObj dk) Hin).
  intros i s. unfold downstream_body.
  destruct (downstream_port (upstream_id_of bus_id) i s) as [id s1].
  cbn [py_contains bind]. unfold jhas. rewrite Hmem, Hswitch. cbn. eauto.
Qed.

Lemma shapeless_device_in_switch_fails_witness :
  exists e,
    cxlswitchopts
      (JObj [("switch", JList [JObj [("mem", JStr "1G")]; JObj [("size", JStr "1G")]])]%string)
      "cxlrp0hb0" cxl_init = Err e.
Proof.
  apply (shapeless_device_in_switch_fails _
           [JObj [("mem", JStr "1G")]; JObj [("size", JStr "1G")]]%string
           (JObj [("size", JStr "1G")]%string)).
  - reflexivity.
  - right. left. reflexivity.
  - eexists. split; [reflexivity|]. split; reflexivity.
Defined.

(** ** The sizes the CXL builder accepts *)

Lemma megabytes_size (size : string) :
  (is_Some (megabytes size) <-> accepted_size size)
  /\ default 0 (megabytes size) = size_megabytes size.
Proof.
  unfold megabytes, accepted_size, size_megabytes, size_unit, cxl_sizeM.
  destruct (endswith_char size "G"); [|destruct (endswith_char size "M")];
    destruct (int_of_str (drop_last size)) as [n|e]; cbn;
    (split; [split; [intros [? ?] | intros [[? ?] ?]]; try discriminate; eauto | try lia]).
Qed.

Lemma well_sized_decidable (d : cxl_device) : well_sized d \/ ~ well_sized d.
Proof.
  induction d as [size present | downstream IH] using cxl_device_induction.
  - cbn [well_sized]. destruct (megabytes size); [left; eauto | right; intros [? ?]; discriminate].
  - cbn [well_sized]. rewrite well_sized_Forall.
    induction IH as [|d l Hd _ IHl]; [left; constructor|].
    destruct Hd as [Hd|Hd]; [|right; inversion 1; contradiction].
    destruct IHl as [Hl|Hl]; [left; constructor; assumption | right; inversion 1; contradiction].
Qed.

(** A loop whose body succeeds on the elements that are as they must be,
    and raises [e] on the others, raises [e] when an element is not as it
    must be. *)
Lemma for_enumerate_from_first_failure {A St : Type} (P : A -> Prop) (e : error)
  (body : Z -> A -> St -> result St) (l : list A) :
  Forall (fun x => P x \/ ~ P x) l ->
  Forall (fun x => forall i s, (P x -> exists s', body i x s = Ok s')
                               /\ (~ P x -> body i x s = Err e)) l ->
  ~ Forall P l ->
  forall i s, for_enumerate_from i body l s = Err e.
Proof.
  intros Hdec. induction Hdec as [|x l Hx _ IH]; intros Hbody Hbad i s.
  - exfalso. apply Hbad. constructor.
  - apply Forall_cons in Hbody as [Hhead Htail]. cbn [for_enumerate_from].
    destruct (Hhead i s) as [Hgood Hwrong]. destruct Hx as [Hx|Hx].
    + destruct (Hgood Hx) as [s' ->]. cbn [bind]. apply IH; [exact Htail|].
      intros Hl. apply Hbad. constructor; assumption.
    + rewrite (Hwrong Hx). reflexivity.
Qed.

Lemma Forall_decidable {A : Type} (P : A -> Prop) (l : list A) :
  Forall (fun x => P x \/ ~ P x) l -> Forall P l \/ ~ Forall P l.
Proof.
  induction 1 as [|x l Hx _ IH]; [left; constructor|].
  destruct Hx as [Hx|Hx]; [|right; inversion 1; contradiction].
  destruct IH as [Hl|Hl]; [left; constructor; assumption | right; inversion 1; contradiction].
Qed.

Lemma downstream_body_rejected (upstream_id : string) (d : cxl_device) :
  dispatch_rejects d ->
  forall i c,
    downstream_body cxlswitchopts upstream_id i (json_of_device d) c = Err BadCxlMemorySize.
Proof.
  intros Hd i c. unfold downstream_body.
  destruct (downstream_port upstream_id i c) as [id c1].
  destruct (Hd id c1) as [Hmem Hsw].
  destruct (contains_mem_total d) as [[] Hb]; rewrite Hb in *; cbn [bind].
  - apply Hmem. reflexivity.
  - destruct (Hsw eq_refl) as [-> ->]. reflexivity.
Qed.

Lemma device_rejected (d : cxl_device) : ~ well_sized d -> dispatch_rejects d.
Proof.
  induction d as [size present | downstream IH] using cxl_device_induction;
    intros Hbad bus_id c.
  - split; [intros _ | discriminate].
    cbn [well_sized] in Hbad. unfold megabytes in Hbad.
    unfold cxlmemopts. cbn [json_of_device py_getitem jget].
    change (String.eqb "mem" "mem") with true. cbv iota. cbn [bind].
    destruct (cxl_sizeM (JStr size)) as [n|e] eqn:Hsize; [exfalso; apply Hbad; eauto|].
    cbn [bind]. f_equal. unfold cxl_sizeM in Hsize.
    destruct (endswith_char size "G"); [|destruct (endswith_char size "M")];
      try destruct (int_of_str (drop_last size)); congruence.
  - split; [discriminate | intros _]. split; [reflexivity|].
    cbn [json_of_device]. rewrite cxlswitchopts_list.
    unfold for_enumerate. rewrite for_enumerate_from_map.
    cbn [well_sized] in Hbad. rewrite well_sized_Forall in Hbad.
    apply (for_enumerate_from_first_failure well_sized).
    + apply List.Forall_forall. intros d _. apply well_sized_decidable.
    + eapply Forall_impl; [exact IH|]. intros d Hd i s. split.
      * intros Hwell.
        destruct (downstream_body_total (upstream_id_of bus_id) d (device_total d Hwell) i s)
          as (s' & Hrun & _). eauto.
      * intros Hwrong. apply downstream_body_rejected, Hd, Hwrong.
    + exact Hbad.
Qed.

Lemma root_port_body_rejected (host_bridge_id : string) (d : cxl_device) :
  ~ well_sized d ->
  forall i c, root_port_body host_bridge_id i (json_of_device d) c = Err BadCxlMemorySize.
Proof.
  intros Hbad i c. unfold root_port_body.
  set (id := ("cxlrp" +:+ _)%string). set (c1 := next_port _).
  destruct (device_rejected d Hbad id c1) as [Hmem Hsw].
  destruct (contains_mem_total d) as [[] Hb]; rewrite Hb in *; cbn [bind].
  - apply Hmem. reflexivity.
  - destruct (Hsw eq_refl) as [-> ->]. reflexivity.
Qed.

Lemma host_bridge_body_rejected (root_ports : list cxl_device) :
  ~ Forall well_sized root_ports ->
  forall i r, host_bridge_body i (JList (map json_of_device root_ports)) r
              = Err BadCxlMemorySize.
Proof.
  intros Hbad i r. unfold host_bridge_body. cbn [py_iter bind].
  unfold for_enumerate. rewrite for_enumerate_from_map.
  rewrite (for_enumerate_from_first_failure well_sized BadCxlMemorySize); [reflexivity | | |exact Hbad].
  - apply List.Forall_forall. intros d _. apply well_sized_decidable.
  - apply List.Forall_forall. intros d _ j s. split.
    + intros Hwell.
      destruct (root_port_body_total ("cxlhb" +:+ str_of_Z i) d Hwell j s) as (s' & Hrun & _).
      eauto.
    + intros Hwrong. apply root_port_body_rejected, Hwrong.
Qed.

Lemma cxl_build_rejected (forest : list (list cxl_device)) :
  ~ Forall (Forall well_sized) forest ->
  cxl_build (json_of_forest forest) = Err BadCxlMemorySize.
Proof.
  intros Hbad. unfold cxl_build, json_of_forest. cbn [py_iter bind].
  unfold for_enumerate. rewrite for_enumerate_from_map.
  apply (for_enumerate_from_first_failure (Forall well_sized)); [| |exact Hbad].
  - apply List.Forall_forall. intros root_ports _. apply Forall_decidable.
    apply List.Forall_forall. intros d _. apply well_sized_decidable.
  - apply List.Forall_forall. intros root_ports _ i r. split.
    + intros Hwell.
      destruct (host_bridge_body_total root_ports Hwell i r) as (r' & Hrun & _). eauto.
    + intros Hwrong. apply host_bridge_body_rejected, Hwrong.
Qed.

(** The memory devices of a list of devices have a property when those of
    each device have it. *)
Lemma flat_enumerate_Forall {A B : Type} (P : B -> Prop) (Q : A -> Prop)
  (f : Z -> A -> list B) (l : list A) :
  Forall (fun x => forall i, Forall P (f i x) <-> Q x) l ->
  forall i, Forall P (flat_enumerate f i l) <-> Forall Q l.
Proof.
  induction 1 as [|x l Hx _ IH]; intros i; cbn [flat_enumerate].
  - split; constructor.
  - rewrite Forall_app, Hx, IH, Forall_cons. reflexivity.
Qed.

Lemma device_memories_accepted (d : cxl_device) :
  forall bus_id,
    Forall (fun m => accepted_size (at_size m)) (device_memories bus_id d) <-> well_sized d.
Proof.
  induction d as [size present | downstream IH] using cxl_device_induction; intros bus_id.
  - cbn [device_memories well_sized]. rewrite (proj1 (megabytes_size size)).
    rewrite Forall_cons, Forall_nil. cbn [at_size]. tauto.
  - rewrite device_memories_switch. cbn [well_sized]. rewrite well_sized_Forall.
    apply flat_enumerate_Forall.
    eapply Forall_impl; [exact IH|]. intros d Hd i. apply Hd.
Qed.

Lemma forest_memories_accepted (forest : list (list cxl_device)) :
  Forall (fun m => accepted_size (at_size m)) (forest_memories forest)
  <-> Forall (Forall well_sized) forest.
Proof.
  unfold forest_memories. apply flat_enumerate_Forall.
  apply List.Forall_forall. intros root_ports _ i.
  apply flat_enumerate_Forall.
  apply List.Forall_forall. intros d _ j. apply device_memories_accepted.
Qed.

(** The CXL builder accepts a forest exactly when the size of every memory
    device in it, below switches too, is a number [int()] accepts followed
    by an upper-case [G] or [M]; the total it counts is then the sum of the
    sizes in megabytes, 1024 for each [G].  With any other size (a unit in
    lower case, another unit, no number) it raises the exception of a bad
    memory size. *)
Theorem cxl_size_units (forest : list (list cxl_device)) :
  (Forall (fun m => accepted_size (at_size m)) (forest_memories forest) ->
   exists r,
     cxl_build (json_of_forest forest) = Ok r
     /\ is_ok (qemucxlopts (json_of_forest forest)) = true
     /\ total_mem_sizeM (shared r)
        = sumZ (map (fun m => size_megabytes (at_size m)) (forest_memories forest)))
  /\ (~ Forall (fun m => accepted_size (at_size m)) (forest_memories forest) ->
      qemucxlopts (json_of_forest forest) = Err BadCxlMemorySize).
Proof.
  rewrite forest_memories_accepted. split.
  - intros Hwell. unfold qemucxlopts, cxl_build, json_of_forest.
    cbn [py_iter bind]. unfold for_enumerate.
    destruct (host_bridge_loop_emitted forest Hwell 0
                {| shared := cxl_init; bus_nr := 12; firmware_targets := [] |})
      as (r & -> & _ & _ & _ & T).
    exists r. split; [reflexivity|]. split; [reflexivity|].
    rewrite T. fold (forest_memories forest). cbn [shared cxl_init total_mem_sizeM].
    unfold memories_megabytes. rewrite Z.add_0_l. f_equal.
    apply map_ext. intros m. apply megabytes_size.
  - intros Hbad. unfold qemucxlopts. rewrite (cxl_build_rejected forest Hbad). reflexivity.
Qed.

Lemma cxl_size_units_witness :
  qemucxlopts (json_of_forest lower_case_below_switch) = Err BadCxlMemorySize
  /\ exists r,
       cxl_build (json_of_forest both_units) = Ok r
       /\ is_ok (qemucxlopts (json_of_forest both_units)) = true
       /\ total_mem_sizeM (shared r) = 1024 + 512 + 3 * 1024.
Proof.
  split.
  - apply (cxl_size_units lower_case_below_switch).
    intros H. apply Forall_app in H as [_ H]. apply Forall_app in H as [H _].
    apply Forall_cons in H as [_ H]. apply Forall_cons in H as [[[u Hu] _] _].
    vm_compute in Hu. discriminate.
  - apply (cxl_size_units both_units).
    repeat constructor; vm_compute; eauto.
Defined.

(** ** Size literals *)

Lemma of_uint_acc_value (d : Decimal.uint) :
  forall acc, Z.pos (Pos.of_uint_acc d acc) = uint_value (Z.pos acc) d.
Proof.
  induction d; intros acc; cbn [Pos.of_uint_acc uint_value];
    [reflexivity | rewrite IHd; f_equal; lia ..].
Qed.

Lemma of_uint_value (d : Decimal.uint) : Z.of_uint d = uint_value 0 d.
Proof.
  unfold Z.of_uint. induction d; cbn [Pos.of_uint uint_value Z.of_N];
    [reflexivity | exact IHd | rewrite of_uint_acc_value; reflexivity ..].
Qed.

Lemma digits_of_uint (d : Decimal.uint) :
  forall acc,
    digits_value acc true (chars (DecimalString.NilEmpty.string_of_uint d))
    = Some (uint_value acc d).
Proof.
  unfold chars. induction d; intros acc;
    cbn [DecimalString.NilEmpty.string_of_uint list_ascii_of_string digits_value uint_value];
    [reflexivity | exact (IHd _) ..].
Qed.

Lemma digits_of_uint_nonnil (d : Decimal.uint) (acc : Z) :
  d <> Decimal.Nil ->
  digits_value acc false (chars (DecimalString.NilEmpty.string_of_uint d))
  = Some (uint_value acc d).
Proof.
  intros Hd. destruct d; [contradiction | ..];
    unfold chars;
    cbn [DecimalString.NilEmpty.string_of_uint list_ascii_of_string digits_value uint_value];
    exact (digits_of_uint _ _).
Qed.

Lemma uint_chars_no_space (d : Decimal.uint) :
  Forall (fun c => is_space c = false) (chars (DecimalString.NilEmpty.string_of_uint d)).
Proof.
  unfold chars. induction d;
    cbn [DecimalString.NilEmpty.string_of_uint list_ascii_of_string];
    constructor; auto.
Qed.

Lemma lstrip_no_space (l : list ascii) :
  Forall (fun c => is_space c = false) l -> lstrip l = l.
Proof. intros H. destruct H as [|c l Hc _]; [reflexivity|]. cbn. rewrite Hc. reflexivity. Qed.

Lemma strip_no_space (l : list ascii) :
  Forall (fun c => is_space c = false) l -> strip l = l.
Proof.
  intros H. unfold strip. rewrite (lstrip_no_space l H).
  rewrite lstrip_no_space by (apply Forall_rev; assumption).
  apply rev_involutive.
Qed.

(** [int(str(z))] is [z]. *)
Lemma int_of_str_of_Z (z : Z) : int_of_str (str_of_Z z) = Ok z.
Proof.
  unfold int_of_str, str_of_Z.
  rewrite <- (DecimalZ.of_to z) at 2.
  destruct z as [|p|p]; [reflexivity | |]; cbn [Z.to_int DecimalString.NilZero.string_of_int].
  - pose proof (DecimalPos.Unsigned.to_uint_nonnil p) as Hnil.
    unfold DecimalString.NilZero.string_of_uint.
    assert (Hs : (match Pos.to_uint p with
                  | Decimal.Nil => "0"%string
                  | _ => DecimalString.NilEmpty.string_of_uint (Pos.to_uint p)
                  end) = DecimalString.NilEmpty.string_of_uint (Pos.to_uint p))
      by (destruct (Pos.to_uint p); [contradiction | reflexivity ..]).
    rewrite Hs. rewrite strip_no_space by apply uint_chars_no_space.
    cbn [Z.of_int]. rewrite of_uint_value.
    destruct (Pos.to_uint p) eqn:Hp; [contradiction | ..];
      cbn [DecimalString.NilEmpty.string_of_uint];
      change (chars (String ?c ?s)) with (c :: chars s);
      cbn [signed_value];
      repeat match goal with
             | |- context [Ascii.eqb ?a ?b] =>
                 let r := eval vm_compute in (Ascii.eqb a b) in
                 change (Ascii.eqb a b) with r
             end;
      cbv iota; cbn [digits_value];
      match goal with
      | |- context [digit_of ?a] =>
          let r := eval vm_compute in (digit_of a) in change (digit_of a) with r
      end;
      cbv iota; rewrite digits_of_uint; reflexivity.
  - pose proof (DecimalPos.Unsigned.to_uint_nonnil p) as Hnil.
    unfold DecimalString.NilZero.string_of_uint.
    assert (Hs : (match Pos.to_uint p with
                  | Decimal.Nil => "0"%string
                  | _ => DecimalString.NilEmpty.string_of_uint (Pos.to_uint p)
                  end) = DecimalString.NilEmpty.string_of_uint (Pos.to_uint p))
      by (destruct (Pos.to_uint p); [contradiction | reflexivity ..]).
    rewrite Hs.
    change (chars (String "-" ?s)) with ("-"%char :: chars s).
    rewrite strip_no_space
      by (constructor; [reflexivity | apply uint_chars_no_space]).
    cbn [signed_value]. change (Ascii.eqb "-" "-") with true. cbv iota.
    rewrite digits_of_uint_nonnil by assumption.
    cbn [fmap option_fmap option_map Z.of_int]. rewrite of_uint_value. reflexivity.
Qed.

Lemma chars_append (s t : string) : chars (s +:+ t) = chars s ++ chars t.
Proof.
  unfold chars. induction s as [|c s IH]; [reflexivity|].
  change (String c s +:+ t) with (String c (s +:+ t)).
  cbn [list_ascii_of_string app]. f_equal. exact IH.
Qed.

Lemma gigabytes_suffix (n : Z) : lower_endswith_g (gigabytes n) = true.
Proof.
  unfold lower_endswith_g, endswith_char, last_char, gigabytes.
  rewrite chars_append. change (chars "G") with ["G"%char]. rewrite last_snoc. reflexivity.
Qed.

Lemma gigabytes_prefix (n : Z) : drop_last (gigabytes n) = str_of_Z n.
Proof.
  unfold drop_last, gigabytes. rewrite chars_append. change (chars "G") with ["G"%char].
  rewrite removelast_last. apply string_of_list_ascii_of_string.
Qed.

(** A size [siadd] or [sisub] returns is again a size, of the number of
    gigabytes it was made from. *)
Lemma gigabytes_value (n : Z) :
  lower_endswith_g (gigabytes n) = true /\ int_of_str (drop_last (gigabytes n)) = Ok n.
Proof. split; [apply gigabytes_suffix | rewrite gigabytes_prefix; apply int_of_str_of_Z]. Qed.

(** On two sizes in gigabytes [siadd] returns the sum and [sisub] the
    difference, as sizes that can be added and subtracted again; subtracting
    what was added gives back the first size (in canonical form), and the
    order of the summands does not matter. *)
Theorem siadd_sisub_round_trip (s1 s2 : string) (a b : Z) :
  lower_endswith_g s1 = true -> int_of_str (drop_last s1) = Ok a ->
  lower_endswith_g s2 = true -> int_of_str (drop_last s2) = Ok b ->
  siadd s1 s2 = Ok (gigabytes (a + b))
  /\ sisub s1 s2 = Ok (gigabytes (a - b))
  /\ siadd s2 s1 = siadd s1 s2
  /\ sisub (gigabytes (a + b)) s2 = Ok (gigabytes a)
  /\ siadd (gigabytes (a - b)) s2 = Ok (gigabytes a).
Proof.
  intros G1 V1 G2 V2.
  destruct (gigabytes_value (a + b)) as [Gs Vs].
  destruct (gigabytes_value (a - b)) as [Gd Vd].
  unfold siadd, sisub. rewrite G1, G2, V1, V2, Gs, Gd, Vs, Vd. cbn.
  repeat split; unfold gigabytes; do 3 f_equal; lia.
Qed.

Lemma siadd_sisub_round_trip_witness :
  siadd " 2g" "3G" = Ok (gigabytes (2 + 3))
  /\ sisub " 2g" "3G" = Ok (gigabytes (2 - 3))
  /\ siadd "3G" " 2g" = siadd " 2g" "3G"
  /\ sisub (gigabytes (2 + 3)) "3G" = Ok (gigabytes 2)
  /\ siadd (gigabytes (2 - 3)) "3G" = Ok (gigabytes 2).
Proof. apply (siadd_sisub_round_trip " 2g" "3G" 2 3); reflexivity. Defined.

(** ** The totals of the group loop *)

Lemma siadd_sizes (s : string) (a k : Z) :
  lower_endswith_g s = true -> int_of_str (drop_last s) = Ok k ->
  siadd (gigabytes a) s = Ok (gigabytes (a + k)).
Proof.
  intros G V. destruct (gigabytes_value a) as [Ga Va].
  unfold siadd. rewrite Ga, G, Va, V. reflexivity.
Qed.

Lemma sisub_sizes (a b : Z) : sisub (gigabytes a) (gigabytes b) = Ok (gigabytes (a - b)).
Proof.
  destruct (gigabytes_value a) as [Ga Va]. destruct (gigabytes_value b) as [Gb Vb].
  unfold sisub. rewrite Ga, Gb, Va, Vb. reflexivity.
Qed.

Lemma size_value_literal (s : string) (k : Z) :
  int_of_str (drop_last s) = Ok k -> size_value s = k.
Proof. unfold size_value. intros ->. reflexivity. Qed.

(** One memory of a node: the totals by kind, and the slot. *)
Lemma memory_body_totals (nv : bool) (dimm : jval) (s : string) (k lastnode : Z)
  (m m' : memvars) (ps ps' : list string) (mem nvmem unplugged plugged : Z) :
  lower_endswith_g s = true -> int_of_str (drop_last s) = Ok k ->
  totals_are m mem nvmem unplugged plugged ->
  memory_body nv dimm (JStr s) lastnode (m, ps) = Ok (m', ps') ->
  totals_are m' (mem + (if nv then 0 else k)) (nvmem + (if nv then k else 0))
             (unplugged + (if is_str dimm "" then 0
                           else if is_str dimm "plugged" then 0 else k))
             (plugged + (if is_str dimm "" then 0
                         else if is_str dimm "plugged" then k else 0))
  /\ memslots m' = memslots m + (if is_str dimm "" then 0 else 1).
Proof.
  intros G V (Tm & Tn & Tu & Tp) H. unfold memory_body in H.
  assert (Htotal : siadd_input (if nv then totalnvmem m else totalmem m) (JStr s)
                   = Ok (gigabytes ((if nv then nvmem else mem) + k))).
  { cbn [siadd_input]. destruct nv; [rewrite Tn | rewrite Tm]; apply siadd_sizes; assumption. }
  destruct (is_str dimm "").
  - cbn [bind] in H. rewrite Htotal in H. cbn [bind] in H.
    inversion H; subst; clear H. unfold totals_are. cbn.
    destruct nv; rewrite ?Tm, ?Tn, ?Tu, ?Tp, ?Z.add_0_r; auto.
  - destruct (is_str dimm "plugged").
    + cbn [siadd_input] in H. rewrite Tp, (siadd_sizes s plugged k G V) in H.
      cbn [bind] in H. cbn [siadd_input] in Htotal. rewrite Htotal in H. cbn [bind] in H.
      inversion H; subst; clear H. unfold totals_are. cbn.
      destruct nv; rewrite ?Tm, ?Tn, ?Tu, ?Tp, ?Z.add_0_r; auto.
    + destruct (is_str dimm "unplugged"); [|discriminate].
      cbn [siadd_input] in H. rewrite Tu, (siadd_sizes s unplugged k G V) in H.
      cbn [bind] in H. cbn [siadd_input] in Htotal. rewrite Htotal in H. cbn [bind] in H.
      inversion H; subst; clear H. unfold totals_are. cbn.
      destruct nv; rewrite ?Tm, ?Tn, ?Tu, ?Tp, ?Z.add_0_r; auto.
Qed.

(** The memory loop of a node, of no or of one memory. *)
Lemma memory_loop_totals (nv : bool) (count : Z) (size dimm : jval) (lastnode : Z)
  (m m' : memvars) (ps ps' : list string) (mem nvmem unplugged plugged : Z) :
  sized count size ->
  totals_are m mem nvmem unplugged plugged ->
  for_each (fun _ => memory_body nv dimm size lastnode) (range count) (m, ps) = Ok (m', ps') ->
  totals_are m' (mem + (if nv then 0 else count * size_of size))
             (nvmem + (if nv then count * size_of size else 0))
             (unplugged + (if is_str dimm "" then 0
                           else if is_str dimm "plugged" then 0 else count * size_of size))
             (plugged + (if is_str dimm "" then 0
                         else if is_str dimm "plugged" then count * size_of size else 0))
  /\ memslots m' = memslots m + (if is_str dimm "" then 0 else count).
Proof.
  intros [-> | [-> (s & k & -> & G & V)]] T H.
  - inversion H; subst; clear H. rewrite !Z.mul_0_l.
    destruct T as (Tm & Tn & Tu & Tp). unfold totals_are.
    destruct nv, (is_str dimm ""), (is_str dimm "plugged"); rewrite ?Z.add_0_r; auto.
  - change (for_each _ (range 1) _)
      with (let* s' := memory_body nv dimm (JStr s) lastnode (m, ps) in Ok s') in H.
    apply bind_ok in H as ([m1 ps1] & H1 & H). inversion H; subst; clear H.
    cbn [size_of]. rewrite (size_value_literal s k V), !Z.mul_1_l.
    apply (memory_body_totals nv dimm s k lastnode m m' ps ps'); assumption.
Qed.

(** The flags of the machine parameter. *)
Lemma add_flag_again (flags : list flag) (f : flag) :
  add_flag (add_flag flags f) f = add_flag flags f.
Proof.
  unfold add_flag. destruct (existsb (flag_eqb f) flags) eqn:Hin; [rewrite Hin; reflexivity|].
  rewrite existsb_app. cbn [existsb]. destruct f; cbn [flag_eqb]; rewrite orb_true_r; reflexivity.
Qed.

(** One memory of a node and the machine parameter: the first NVDIMM adds
    [nvdimm=on]. *)
Lemma memory_body_machine (nv : bool) (dimm size : jval) (lastnode : Z)
  (m m' : memvars) (ps ps' : list string) (flags : list flag) :
  machine_is m flags ->
  memory_body nv dimm size lastnode (m, ps) = Ok (m', ps') ->
  machine_is m' (if nv then add_flag flags Nvdimm else flags).
Proof.
  intros (Hin & Hmachine & Hcount) H. unfold memory_body in H.
  apply bind_ok in H as ([[[[[o c] d] p] u] k] & _ & H).
  apply bind_ok in H as (total & _ & H). inversion H; subst; clear H.
  unfold machine_is. cbn [machineparam lastnvmem]. rewrite Hmachine.
  destruct nv; cbn [andb]; [|auto].
  cbn in Hin.
  destruct Hin as [<-|[<-|[<-|[<-|[<-|[]]]]]]; cbn [existsb flag_eqb orb] in Hcount;
    cbn [add_flag existsb flag_eqb orb app].
  all: destruct (Z.eqb_spec (lastnvmem m + 1) 0) as [Hzero|Hzero]; try (exfalso; lia).
  all: split; [cbn; auto 10 | split; [reflexivity | lia]].
Qed.

Lemma memory_loop_machine (nv : bool) (count : Z) (size dimm : jval) (lastnode : Z)
  (m m' : memvars) (ps ps' : list string) (flags : list flag) :
  sized count size ->
  machine_is m flags ->
  for_each (fun _ => memory_body nv dimm size lastnode) (range count) (m, ps) = Ok (m', ps') ->
  machine_is m' (if nv && (count =? 1) then add_flag flags Nvdimm else flags).
Proof.
  intros [-> | [-> _]] Hm H.
  - inversion H; subst; clear H. rewrite andb_false_r. exact Hm.
  - change (for_each _ (range 1) _)
      with (let* s' := memory_body nv dimm size lastnode (m, ps) in Ok s') in H.
    apply bind_ok in H as ([m1 ps1] & H1 & H). inversion H; subst; clear H.
    rewrite andb_true_r. apply (memory_body_machine nv dimm size lastnode m m' ps ps'); assumption.
Qed.

Lemma present_after_add (g : groupvars) (a b present : Z) :
  0 <= a -> 0 <= b ->
  present_after g b (present_after g a present) = present_after g (a + b) present.
Proof.
  intros Ha Hb. unfold present_after.
  destruct (0 <? cpucount g); [|reflexivity].
  destruct (0 <? cpuspresentcount g).
  - destruct (Z.ltb_spec 0 a), (Z.ltb_spec 0 b), (Z.ltb_spec 0 (a + b)); try reflexivity; lia.
  - lia.
Qed.

Lemma moved_refl (g : groupvars) (v : vars) : moved g 0 0 0 v v.
Proof.
  unfold moved, present_after. rewrite !Z.mul_0_l, !Z.add_0_r.
  split; [lia|]. do 5 (split; [reflexivity|]).
  split; [destruct (0 <? cpucount g), (0 <? cpuspresentcount g); cbn; lia|].
  split; [|intros flags F; exact F].
  intros mem nvmem unplugged plugged T. rewrite !Z.add_0_r. split; [exact T | reflexivity].
Qed.

Lemma moved_trans (g : groupvars) (a b c a' b' c' : Z) (v1 v2 v3 : vars) :
  moved g a b c v1 v2 -> moved g a' b' c' v2 v3 -> moved g (a + a') (b + b') (c + c') v1 v3.
Proof.
  intros (A1 & T1 & X1 & N1 & D1 & S1 & P1 & M1 & F1) (A2 & T2 & X2 & N2 & D2 & S2 & P2 & M2 & F2).
  unfold moved.
  split; [lia|]. split; [congruence|]. split; [congruence|].
  split; [lia|]. split; [lia|]. split; [lia|].
  split; [rewrite P2, P1; apply present_after_add; assumption|].
  split.
  2: { intros flags F. specialize (F2 _ (F1 _ F)).
       destruct (nvmemcount g =? 1); rewrite ?andb_false_r, ?andb_true_r in *; [|exact F2].
       destruct (Z.ltb_spec 0 a), (Z.ltb_spec 0 a'), (Z.ltb_spec 0 (a + a')); try lia;
         rewrite ?add_flag_again in F2; exact F2. }
  intros mem nvmem unplugged plugged T.
  destruct (M1 _ _ _ _ T) as [T1' L1]. destruct (M2 _ _ _ _ T1') as [T2' L2].
  replace (mem + (a + a') * node_mem g) with (mem + a * node_mem g + a' * node_mem g) by lia.
  replace (nvmem + (a + a') * node_nvmem g)
    with (nvmem + a * node_nvmem g + a' * node_nvmem g) by lia.
  replace (unplugged + (a + a') * node_unplugged g)
    with (unplugged + a * node_unplugged g + a' * node_unplugged g) by lia.
  replace (plugged + (a + a') * node_plugged g)
    with (plugged + a * node_plugged g + a' * node_plugged g) by lia.
  split; [exact T2' | lia].
Qed.

Lemma for_each_moved {A : Type} (g : groupvars) (body : A -> vars -> result vars)
  (a b c : Z) (l : list A) :
  (forall x v v', body x v = Ok v' -> moved g a b c v v') ->
  forall v v', for_each body l v = Ok v' ->
    moved g (Z.of_nat (length l) * a) (Z.of_nat (length l) * b) (Z.of_nat (length l) * c) v v'.
Proof.
  intros Hbody. induction l as [|x l IH]; intros v v' H.
  - inversion H; subst. apply moved_refl.
  - cbn [for_each] in H. apply bind_ok in H as (v1 & H1 & H2).
    replace (Z.of_nat (length (x :: l)) * a) with (a + Z.of_nat (length l) * a)
      by (cbn [length]; lia).
    replace (Z.of_nat (length (x :: l)) * b) with (b + Z.of_nat (length l) * b)
      by (cbn [length]; lia).
    replace (Z.of_nat (length (x :: l)) * c) with (c + Z.of_nat (length l) * c)
      by (cbn [length]; lia).
    eapply moved_trans; [apply (Hbody _ _ _ H1) | apply (IH _ _ H2)].
Qed.

Lemma for_range_moved (g : groupvars) (body : Z -> vars -> result vars) (a b c n : Z) :
  (forall x v v', body x v = Ok v' -> moved g a b c v v') ->
  forall v v', for_each body (range n) v = Ok v' ->
    moved g (Z.max 0 n * a) (Z.max 0 n * b) (Z.max 0 n * c) v v'.
Proof.
  intros Hbody v v' H.
  replace (Z.max 0 n) with (Z.of_nat (length (range n)))
    by (unfold range; rewrite length_seqZ; lia).
  eapply for_each_moved; eassumption.
Qed.

(** One node of a group. *)
Lemma node_body_moved (g : groupvars) (i : Z) (v v' : vars) :
  group_ok g -> node_body g i v = Ok v' -> moved g 1 0 0 v v'.
Proof.
  intros [Hmem Hnv] H. unfold node_body in H.
  apply bind_ok in H as ([m1 ps1] & H1 & H). apply bind_ok in H as ([m2 ps2] & H2 & H).
  assert (Hcpu : cpuv v' = fst (cpu_body g (next_node (cpuv v)) ps2)
                 /\ memv v' = m2 /\ threadcount v' = threadcount v
                 /\ totalcxlmem v' = totalcxlmem v).
  { destruct (cpu_body g (next_node (cpuv v)) ps2) as [c ps]. inversion H; subst. cbn. auto. }
  clear H. destruct Hcpu as (Hc & Hm & Ht & Hx).
  unfold moved. rewrite Hc, Hm, Ht, Hx. unfold cpu_body, present_after.
  split; [lia|]. split; [reflexivity|]. split; [reflexivity|].
  split; [destruct (0 <? cpucount g); cbn; lia|].
  split; [destruct (0 <? cpucount g); cbn; lia|].
  split; [destruct (0 <? cpucount g); cbn; lia|].
  split; [destruct (0 <? cpucount g), (0 <? cpuspresentcount g); cbn; lia|].
  split.
  2: { intros flags F.
       pose proof (memory_loop_machine false _ _ _ _ _ _ _ _ _ Hmem F H1) as F1.
       cbn [andb] in F1.
       exact (memory_loop_machine true _ _ _ _ _ _ _ _ _ Hnv F1 H2). }
  intros mem nvmem unplugged plugged T.
  destruct (memory_loop_totals false _ _ _ _ _ _ _ _ _ _ _ _ Hmem T H1) as [T1 S1].
  destruct (memory_loop_totals true _ _ _ _ _ _ _ _ _ _ _ _ Hnv T1 H2) as [T2 S2].
  unfold node_unplugged, node_plugged, node_slots, node_mem, node_nvmem.
  rewrite !Z.mul_1_l. rewrite S2, S1.
  destruct T2 as (A & B & C & D). unfold totals_are. rewrite A, B, C, D.
  destruct (is_str (memdimm g) ""), (is_str (memdimm g) "plugged"); cbv iota;
    repeat split; try (f_equal; lia); lia.
Qed.

Lemma moved_then (g : groupvars) (a b c a' b' c' n d k : Z) (v1 v2 v3 : vars) :
  moved g a b c v1 v2 -> moved g a' b' c' v2 v3 ->
  n = a + a' -> d = b + b' -> k = c + c' -> moved g n d k v1 v3.
Proof. intros H1 H2 -> -> ->. exact (moved_trans g _ _ _ _ _ _ _ _ _ H1 H2). Qed.

(** The step of the die counter and of the socket counter. *)
Lemma counter_moved (g : groupvars) (kd ks : Z) (v : vars) :
  moved g 0 kd ks v
    (set_cpuv {| lastnode := lastnode (cpuv v); lastcpu := lastcpu (cpuv v);
                 lastcpupresent := lastcpupresent (cpuv v);
                 lastdie := lastdie (cpuv v) + kd;
                 last_socket := last_socket (cpuv v) + ks |} v).
Proof.
  unfold moved, present_after. cbn. rewrite !Z.mul_0_l, !Z.add_0_r.
  split; [lia|]. do 5 (split; [reflexivity|]).
  split; [destruct (0 <? cpucount g), (0 <? cpuspresentcount g); reflexivity|].
  split; [|intros flags F; exact F].
  intros mem nvmem unplugged plugged T. rewrite !Z.add_0_r. split; [exact T | reflexivity].
Qed.

Lemma die_body_moved (g : groupvars) (i : Z) (v v' : vars) :
  group_ok g -> die_body g i v = Ok v' ->
  moved g (Z.max 0 (nodecount g)) (if has_cpu_nodes g then 1 else 0) 0 v v'.
Proof.
  intros Hg H. unfold die_body in H.
  apply for_range_moved with (g := g) (a := 1) (b := 0) (c := 0) in H;
    [|intros x a b; apply node_body_moved; assumption].
  destruct (has_cpu_nodes g).
  - pose proof (counter_moved g 1 0 v) as Hstep. rewrite Z.add_0_r in Hstep.
    apply (moved_then g _ _ _ _ _ _ _ _ _ _ _ _ Hstep H); lia.
  - apply (moved_then g _ _ _ _ _ _ _ _ _ _ _ _ (moved_refl g v) H); lia.
Qed.

Lemma package_body_moved (g : groupvars) (i : Z) (v v' : vars) :
  group_ok g -> package_body g i v = Ok v' ->
  moved g (Z.max 0 (diecount g) * Z.max 0 (nodecount g))
        (Z.max 0 (diecount g) * (if has_cpu_nodes g then 1 else 0))
        (if has_cpu_nodes g then 1 else 0) v v'.
Proof.
  intros Hg H. unfold package_body in H.
  apply for_range_moved
    with (g := g) (a := Z.max 0 (nodecount g)) (b := if has_cpu_nodes g then 1 else 0) (c := 0)
    in H; [|intros x a b; apply die_body_moved; assumption].
  destruct (has_cpu_nodes g).
  - pose proof (counter_moved g 0 1 v) as Hstep. rewrite Z.add_0_r in Hstep.
    apply (moved_then g _ _ _ _ _ _ _ _ _ _ _ _ Hstep H); lia.
  - apply (moved_then g _ _ _ _ _ _ _ _ _ _ _ _ (moved_refl g v) H); lia.
Qed.

(** The sizes of a validated group. *)
Lemma valid_spec_sized (numaspec : jobj) (key : string) :
  valid_spec numaspec -> key = "mem"%string \/ key = "nvmem"%string ->
  sized (key_count numaspec key) (jget_default numaspec key (JStr "0")).
Proof.
  intros (_ & Hsizes & _) Hkey. unfold sized, key_count, jget_default.
  destruct (jget numaspec key) as [val|] eqn:Hget; [|left; reflexivity].
  destruct (Hsizes key val Hkey Hget) as [-> | Hlit]; [left; reflexivity|].
  destruct (is_str val "0"); cbn [negb]; auto.
Qed.

Lemma key_count_gigabytes (numaspec : jobj) (key : string) :
  key_count numaspec key * size_of (jget_default numaspec key (JStr "0"))
  = key_gigabytes numaspec key.
Proof.
  unfold key_count, key_gigabytes.
  destruct (is_str (jget_default numaspec key (JStr "0")) "0"); cbn [negb]; lia.
Qed.

(** One NUMA group of a validated list. *)
Lemma numa_group_totals (numaspec : jobj) (v v' : vars) :
  valid_spec numaspec ->
  threadcount v = -1 \/ 0 < threadcount v ->
  numa_group numaspec v = Ok v' ->
  (threadcount v' = -1 \/ 0 < threadcount v')
  /\ (cpu_bearing numaspec = true -> 0 < threadcount v')
  /\ totalcxlmem v' = totalcxlmem v
  /\ lastnode (cpuv v') = lastnode (cpuv v) + group_node_count numaspec
  /\ lastdie (cpuv v') = lastdie (cpuv v) + group_dies numaspec
  /\ last_socket (cpuv v') = last_socket (cpuv v) + group_sockets numaspec
  /\ lastcpupresent (cpuv v') + 1
     = group_present (threadcount v') (lastcpupresent (cpuv v) + 1) numaspec
  /\ (forall mem nvmem unplugged plugged,
       totals_are (memv v) mem nvmem unplugged plugged ->
       totals_are (memv v')
                  (mem + group_key_gigabytes "mem" numaspec)
                  (nvmem + group_key_gigabytes "nvmem" numaspec)
                  (unplugged + group_unplugged numaspec)
                  (plugged + group_plugged numaspec)
       /\ memslots (memv v') = memslots (memv v) + group_slots numaspec)
  /\ forall flags,
       machine_is (memv v) flags ->
       machine_is (memv v') (if has_nvmem numaspec then add_flag flags Nvdimm else flags).
Proof.
  intros Hvalid Htc H.
  pose proof Hvalid as (_ & _ & Hranges & _).
  destruct (numa_group_ok _ _ _ H) as (t1 & Hcheck & Ht1 & _).
  apply (check_threads_cases _ _ _ Hranges) in Hcheck.
  destruct (in_ranges_int_key numaspec "packages" 1 _ Hranges eq_refl eq_refl) as [_ Hp].
  destruct (in_ranges_int_key numaspec "dies" 1 _ Hranges eq_refl eq_refl) as [_ Hd].
  destruct (in_ranges_int_key numaspec "nodes" 1 _ Hranges eq_refl eq_refl) as [_ Hn].
  destruct (in_ranges_int_key numaspec "cores" 0 _ Hranges eq_refl eq_refl) as [_ Hc].
  apply Z.ltb_lt in Hp, Hd, Hn. apply Z.leb_le in Hc.
  unfold numa_group in H.
  apply bind_ok in H as (n & En & H). apply bind_ok in H as (c & Ec & H).
  apply bind_ok in H as (t & Et & H). apply bind_ok in H as (c' & Ec' & H).
  apply bind_ok in H as (d & Ed & H). apply bind_ok in H as (p & Ep & H).
  apply bind_ok in H as (cp & Ecp & H).
  apply int_key_ok in En, Ec, Ec', Ed, Ep, Ecp. subst n c c' d p cp.
  set (g := groupvars_of numaspec t).
  change (for_each (package_body g) (range (packagecount g))
            {| memv := memv v; cpuv := cpuv v; numaparams := numaparams v;
               threadcount := t; totalcxlmem := totalcxlmem v;
               numalist_with_dist := numalist_with_dist v ++ [numaspec] |} = Ok v') in H.
  assert (Hg : group_ok g).
  { split; [apply (valid_spec_sized numaspec "mem") | apply (valid_spec_sized numaspec "nvmem")];
      auto. }
  apply for_range_moved
    with (g := g) (a := Z.max 0 (diecount g) * Z.max 0 (nodecount g))
         (b := Z.max 0 (diecount g) * (if has_cpu_nodes g then 1 else 0))
         (c := if has_cpu_nodes g then 1 else 0) in H;
    [|intros x a b; apply package_body_moved; assumption].
  destruct H as (_ & T & X & N & D & S & P & M & F).
  cbn [threadcount totalcxlmem cpuv memv] in T, X, N, D, S, P, M, F.
  assert (t = t1) as -> by congruence.
  assert (Hcpu : has_cpu_nodes g = cpu_bearing numaspec /\ (cpu_bearing numaspec = true -> 0 < t1)).
  { unfold has_cpu_nodes, cpu_bearing. cbn [g groupvars_of nodecount cpucount].
    unfold cpu_bearing in Hcheck.
    destruct Hcheck as [(Hb & _)|[(Hb & _ & _ & Hpos)|(Hb & Hnn & -> & _)]]; rewrite Hb.
    - apply Z.ltb_ge in Hb. split; [|discriminate].
      replace (int_key numaspec "cores" 0) with 0 by lia.
      rewrite andb_false_r. reflexivity.
    - apply Z.ltb_lt in Hb. split; [|auto].
      apply andb_true_iff. split; apply Z.ltb_lt; nia.
    - apply Z.ltb_lt in Hb. split; [|lia].
      apply andb_true_iff. split; apply Z.ltb_lt; nia. }
  destruct Hcpu as [Hcpu Hpos]. rewrite Hcpu in *.
  assert (Htc' : t1 = -1 \/ 0 < t1)
    by (destruct Hcheck as [(_ & ->)|[(_ & _ & _ & ?)|(_ & ? & -> & _)]]; lia).
  clear Hcpu Hcheck Et.
  change (Z.max 0 (packagecount g) * (Z.max 0 (diecount g) * Z.max 0 (nodecount g)))
    with (group_node_count numaspec) in *.
  assert (Hnodes : 0 < group_node_count numaspec) by (unfold group_node_count; nia).
  assert (Hmem : node_mem g = key_gigabytes numaspec "mem")
    by apply key_count_gigabytes.
  assert (Hnvmem : node_nvmem g = key_gigabytes numaspec "nvmem")
    by apply key_count_gigabytes.
  split; [rewrite T; exact Htc'|]. split; [rewrite T; exact Hpos|].
  split; [exact X|]. split; [exact N|].
  split; [rewrite D; unfold group_dies; cbn [g groupvars_of packagecount diecount];
          destruct (cpu_bearing numaspec); lia|].
  split; [rewrite S; unfold group_sockets; cbn [g groupvars_of packagecount];
          destruct (cpu_bearing numaspec); lia|].
  split; [|split].
  3: { intros flags Fl. specialize (F flags Fl).
       destruct (Z.ltb_spec 0 (group_node_count numaspec)) as [_|]; [|lia].
       cbn [g groupvars_of nvmemcount andb] in F. unfold key_count in F.
       unfold has_nvmem.
       destruct (negb (is_str (jget_default numaspec "nvmem" (JStr "0")) "0")); exact F. }
  - rewrite P, T. unfold present_after, group_present, group_cpus.
    cbn [g groupvars_of cpucount cpuspresentcount].
    destruct (cpu_bearing numaspec) eqn:Hb; unfold cpu_bearing in Hb.
    + apply Z.ltb_lt in Hb. specialize (Hpos eq_refl).
      destruct (Z.ltb_spec 0 (int_key numaspec "cores" 0 * t1)) as [_|Hneg]; [|nia].
      destruct (0 <? int_key numaspec "cpus-present" 0).
      * destruct (Z.ltb_spec 0 (group_node_count numaspec)); lia.
      * unfold group_node_count. nia.
    + apply Z.ltb_ge in Hb. replace (int_key numaspec "cores" 0) with 0 by lia.
      reflexivity.
  - intros mem nvmem unplugged plugged Tot. destruct (M _ _ _ _ Tot) as [Tot' Slots].
    rewrite Slots. unfold node_unplugged, node_plugged, node_slots in *.
    rewrite Hmem, Hnvmem in Tot'.
    unfold group_unplugged, group_plugged, group_slots, group_gigabytes, group_key_gigabytes.
    cbn [g groupvars_of memdimm memcount nvmemcount] in *.
    destruct Tot' as (A & B & C & E). unfold totals_are. rewrite A, B, C, E.
    destruct (is_str (dimm_of numaspec) ""), (is_str (dimm_of numaspec) "plugged");
      repeat split; try (f_equal; lia); lia.
Qed.

(** One CXL entry: the totals of the NUMA groups stay, the slots do not
    shrink, and the CXL total is the one the builder reports. *)
Lemma cxl_group_totals (cxl_spec : jval) (v v' : vars) :
  cxl_group cxl_spec v = Ok v' ->
  cpuv v' = cpuv v
  /\ threadcount v' = threadcount v
  /\ (exists s, reported_total (qemucxlopts cxl_spec) = Ok s
                /\ totalcxlmem v' = gigabytes (size_value s))
  /\ memslots (memv v) <= memslots (memv v')
  /\ (forall mem nvmem unplugged plugged,
       totals_are (memv v) mem nvmem unplugged plugged ->
       totals_are (memv v') mem nvmem unplugged plugged)
  /\ forall flags,
       machine_is (memv v) flags ->
       machine_is (memv v')
                  (match qemucxlopts cxl_spec with
                   | Ok (_, _ :: _, _, _) => add_flag flags Cxl
                   | _ => flags
                   end).
Proof.
  unfold cxl_group. intros H. apply bind_ok in H as ([[[o d] m] t] & Hcxl & H).
  assert (Htotal : exists k, t = gigabytes k).
  { unfold qemucxlopts in Hcxl. apply bind_ok in Hcxl as (r & _ & Hcxl).
    inversion Hcxl; subst. eexists. reflexivity. }
  destruct Htotal as [k ->].
  inversion H; subst; clear H. cbn [cpuv threadcount totalcxlmem memv].
  split; [reflexivity|]. split; [reflexivity|]. split.
  - exists (gigabytes k). unfold reported_total. rewrite Hcxl. cbn [bind].
    split; [reflexivity|]. unfold size_value.
    rewrite (proj2 (gigabytes_value k)). reflexivity.
  - rewrite Hcxl. destruct d as [|x d]; [split; [lia | auto]|].
    cbn [memslots totalmem totalnvmem unpluggedmem pluggedmem]. split; [lia|].
    split; [intros mem nvmem unplugged plugged T; exact T|].
    intros flags (Hin & Hmachine & Hcount). unfold machine_is.
    cbn [machineparam lastnvmem]. rewrite Hmachine. cbn in Hin.
    destruct Hin as [<-|[<-|[<-|[<-|[<-|[]]]]]];
      (split; [cbn; auto 10 | split; [reflexivity | exact Hcount]]).
Qed.

Lemma fold_present_ext (t t' : Z) (groups : list jobj) :
  (forall numaspec, In numaspec groups -> cpu_bearing numaspec = true -> t = t') ->
  forall present,
    fold_left (group_present t) groups present = fold_left (group_present t') groups present.
Proof.
  induction groups as [|g l IH]; intros H present; [reflexivity|].
  cbn [fold_left].
  assert (Hg : group_present t present g = group_present t' present g).
  { unfold group_present. destruct (cpu_bearing g) eqn:Hb; [|reflexivity].
    rewrite (H g (or_introl eq_refl) Hb). reflexivity. }
  rewrite Hg. apply IH. intros x Hx. apply H. right. assumption.
Qed.

(** The group loop on a validated list: the counters and the totals after
    it. *)
Lemma groups_loop_totals (numalist : list jobj) :
  (forall numaspec, In numaspec numalist -> valid_spec numaspec) ->
  forall v v' cxl,
    threadcount v = -1 \/ 0 < threadcount v ->
    totalcxlmem v = gigabytes cxl ->
    for_each qemuopts_group numalist v = Ok v' ->
    totalcxlmem v' = gigabytes (cxl_gigabytes_from cxl numalist)
    /\ lastnode (cpuv v') = lastnode (cpuv v) + total_nodes (numa_groups numalist)
    /\ lastdie (cpuv v') = lastdie (cpuv v) + sumZ (map group_dies (numa_groups numalist))
    /\ last_socket (cpuv v')
       = last_socket (cpuv v) + sumZ (map group_sockets (numa_groups numalist))
    /\ lastcpupresent (cpuv v') + 1
       = fold_left (group_present (threadcount v')) (numa_groups numalist)
                   (lastcpupresent (cpuv v) + 1)
    /\ (forall flags,
          machine_is (memv v) flags -> machine_is (memv v') (flags_from flags numalist))
    /\ forall mem nvmem unplugged plugged,
         totals_are (memv v) mem nvmem unplugged plugged ->
         totals_are (memv v')
                    (mem + sumZ (map (group_key_gigabytes "mem") (numa_groups numalist)))
                    (nvmem + sumZ (map (group_key_gigabytes "nvmem") (numa_groups numalist)))
                    (unplugged + sumZ (map group_unplugged (numa_groups numalist)))
                    (plugged + sumZ (map group_plugged (numa_groups numalist)))
         /\ memslots (memv v) + sumZ (map group_slots (numa_groups numalist))
            <= memslots (memv v')
         /\ (forallb is_numa_group numalist = true ->
             memslots (memv v')
             = memslots (memv v) + sumZ (map group_slots (numa_groups numalist))).
Proof.
  induction numalist as [|g l IH]; intros Hvalid v v' cxl Htc Hcxl H.
  - inversion H; subst. unfold numa_groups, cxl_gigabytes_from, total_nodes, flags_from.
    cbn [List.filter map sumZ fold_right fold_left]. rewrite !Z.add_0_r.
    do 5 (split; [assumption || reflexivity|]). split; [auto|].
    intros mem nvmem unplugged plugged Tot. rewrite !Z.add_0_r.
    split; [exact Tot|]. split; [lia | reflexivity].
  - cbn [for_each] in H. apply bind_ok in H as (v1 & H1 & H2).
    assert (Hl : forall numaspec, In numaspec l -> valid_spec numaspec)
      by (intros; apply Hvalid; right; assumption).
    pose proof (Hvalid g (or_introl eq_refl)) as Hg.
    assert (Hranges : forall numaspec, In numaspec l -> in_ranges numaspec)
      by (intros x Hx; apply (Hl x Hx)).
    unfold numa_groups, cxl_gigabytes_from, total_nodes, flags_from.
    cbn [List.filter fold_left forallb].
    fold (numa_groups l). unfold qemuopts_group in H1.
    assert (Htruthy : truthy (jget_default g "cxl" JNull) = negb (is_numa_group g))
      by (unfold is_numa_group; rewrite negb_involutive; reflexivity).
    rewrite Htruthy in H1. clear Htruthy.
    destruct (is_numa_group g); cbn [negb andb] in *.
    2: { (* a CXL entry *)
      destruct (has_other_keys g); [discriminate|].
      apply cxl_group_totals in H1 as (C1 & T1 & (s & Hs & X1) & L1 & M1 & F1).
      rewrite Hs.
      destruct (IH Hl v1 v' (size_value s)) as (X & N & D & S & P & F & M); auto.
      { rewrite T1. assumption. }
      rewrite C1 in *. fold (cxl_gigabytes_from (size_value s) l).
      fold (total_nodes (numa_groups l)).
      split; [exact X|]. split; [exact N|]. split; [exact D|]. split; [exact S|].
      split; [exact P|]. split.
      { intros flags Fl. specialize (F _ (F1 _ Fl)). unfold flags_from in F.
        unfold cxl_has_devices.
        destruct (qemucxlopts (jget_default g "cxl" JNull)) as [[[[o d] mp] t]|e];
          [destruct d|]; exact F. }
      intros mem nvmem unplugged plugged Tot.
      destruct (M _ _ _ _ (M1 _ _ _ _ Tot)) as (Tot' & Hle & _).
      split; [exact Tot'|]. split; [lia | discriminate]. }
    { (* a NUMA group *)
      apply numa_group_totals in H1 as (Htc1 & Hpos1 & X1 & N1 & D1 & S1 & P1 & M1 & F1);
        [|assumption|assumption].
      destruct (IH Hl v1 v' cxl) as (X & N & D & S & P & F & M); auto; [congruence|].
      destruct (groups_loop_cpus l Hranges v1 v' Htc1 H2) as (_ & Hsame & _).
      fold (cxl_gigabytes_from cxl l).
      cbn [map sumZ fold_right fold_left]. unfold total_nodes in N.
      fold (sumZ (map group_node_count (numa_groups l))).
      fold (sumZ (map group_dies (numa_groups l))).
      fold (sumZ (map group_sockets (numa_groups l))).
      fold (sumZ (map (group_key_gigabytes "mem") (numa_groups l))).
      fold (sumZ (map (group_key_gigabytes "nvmem") (numa_groups l))).
      fold (sumZ (map group_unplugged (numa_groups l))).
      fold (sumZ (map group_plugged (numa_groups l))).
      fold (sumZ (map group_slots (numa_groups l))).
      split; [exact X|]. split; [lia|]. split; [lia|]. split; [lia|].
      split; [|split].
      * rewrite P, P1. f_equal. unfold group_present.
        destruct (cpu_bearing g) eqn:Hb; [|reflexivity].
        rewrite (Hsame (Hpos1 eq_refl)). reflexivity.
      * intros flags Fl. exact (F _ (F1 _ Fl)).
      * intros mem nvmem unplugged plugged Tot.
        destruct (M1 _ _ _ _ Tot) as [Tot1 Slots1].
        destruct (M _ _ _ _ Tot1) as (Tot' & Hle & Heq).
        rewrite !Z.add_assoc. split; [exact Tot'|]. split; [lia|].
        intros Hall. rewrite (Heq Hall). lia. }
Qed.

(** What [assemble] returns, read off its last lines. *)
Lemma assemble_ok (v : vars) (o : qemu_options) :
  assemble v = Ok o ->
  lastcpu (cpuv v) <> -1
  /\ last_socket (cpuv v) + 1 <> 0
  /\ smp_param o
     = smpparam (lastcpupresent (cpuv v) + 1) (threadcount v)
                (dies_param (lastdie (cpuv v) + 1) (last_socket (cpuv v) + 1))
                (last_socket (cpuv v) + 1) (lastcpu (cpuv v) + 1)
  /\ exists mem_nvmem maxmem without_unplugged without_plugged startmem,
       siadd (totalmem (memv v)) (totalnvmem (memv v)) = Ok mem_nvmem
       /\ siadd mem_nvmem (totalcxlmem v) = Ok maxmem
       /\ sisub maxmem (unpluggedmem (memv v)) = Ok without_unplugged
       /\ sisub without_unplugged (pluggedmem (memv v)) = Ok without_plugged
       /\ sisub without_plugged (totalcxlmem v) = Ok startmem
       /\ startswith_0 startmem = false
       /\ mem_param o = memparam startmem (memslots (memv v)) maxmem.
Proof.
  unfold assemble. intros H. apply bind_ok in H as (dd & _ & H).
  destruct (Z.eqb_spec (lastcpu (cpuv v)) (-1)) as [|Hcpu]; [discriminate|].
  destruct (Z.eqb_spec (last_socket (cpuv v) + 1) 0) as [|Hsocket]; [discriminate|].
  apply bind_ok in H as (a & Ha & H). apply bind_ok in H as (maxmem & Hmax & H).
  apply bind_ok in H as (b & Hb & H). apply bind_ok in H as (c & Hc & H).
  apply bind_ok in H as (startmem & Hstart & H).
  destruct (startswith_0 startmem) eqn:Hzero;
    [destruct (startswith_0 (pluggedmem (memv v))); discriminate|].
  inversion H; subst; clear H. cbn [smp_param mem_param].
  split; [assumption|]. split; [assumption|]. split; [reflexivity|].
  exists a, maxmem, b, c, startmem. auto 10.
Qed.

Lemma sum_by_kind (groups : list jobj) :
  sumZ (map group_gigabytes groups)
  = sumZ (map (group_key_gigabytes "mem") groups)
    + sumZ (map (group_key_gigabytes "nvmem") groups)
  /\ sumZ (map group_builtin groups)
     = sumZ (map group_gigabytes groups) - sumZ (map group_unplugged groups)
       - sumZ (map group_plugged groups).
Proof.
  induction groups as [|g l [IH1 IH2]]; [split; reflexivity|].
  cbn [map sumZ fold_right].
  fold (sumZ (map group_gigabytes l)). fold (sumZ (map (group_key_gigabytes "mem") l)).
  fold (sumZ (map (group_key_gigabytes "nvmem") l)). fold (sumZ (map group_builtin l)).
  fold (sumZ (map group_unplugged l)). fold (sumZ (map group_plugged l)).
  rewrite IH2, IH1. unfold group_builtin, group_unplugged, group_plugged, group_gigabytes.
  destruct (is_str (dimm_of g) ""), (is_str (dimm_of g) "plugged"); lia.
Qed.

Lemma validate_valid_spec (numalist : list jobj) :
  validate numalist = Ok tt -> forall numaspec, In numaspec numalist -> valid_spec numaspec.
Proof. intros H g Hg. apply validate_spec_iff. apply (for_each_unit _ _ H g Hg). Qed.

Lemma initial_totals : totals_are (memv qemuopts_init) 0 0 0 0.
Proof. repeat split. Qed.

(** The sizes of the [-m] parameter after the group loop. *)
Lemma assemble_memory (numalist : list jobj) (v : vars) :
  validate numalist = Ok tt ->
  qemuopts_groups numalist = Ok v ->
  exists maxmem startmem,
    siadd (totalmem (memv v)) (totalnvmem (memv v))
    = Ok (gigabytes (sumZ (map group_gigabytes (numa_groups numalist))))
    /\ siadd (gigabytes (sumZ (map group_gigabytes (numa_groups numalist)))) (totalcxlmem v)
       = Ok maxmem
    /\ maxmem = gigabytes (sumZ (map group_gigabytes (numa_groups numalist))
                           + cxl_gigabytes numalist)
    /\ (let* without_unplugged := sisub maxmem (unpluggedmem (memv v)) in
        let* without_plugged := sisub without_unplugged (pluggedmem (memv v)) in
        sisub without_plugged (totalcxlmem v)) = Ok startmem
    /\ startmem = gigabytes (sumZ (map group_builtin (numa_groups numalist)))
    /\ pluggedmem (memv v) = gigabytes (sumZ (map group_plugged (numa_groups numalist)))
    /\ sumZ (map group_slots (numa_groups numalist)) <= memslots (memv v)
    /\ (forallb is_numa_group numalist = true ->
        memslots (memv v) = sumZ (map group_slots (numa_groups numalist))).
Proof.
  intros Hvalid Hv.
  destruct (groups_loop_totals numalist (validate_valid_spec _ Hvalid) qemuopts_init v 0)
    as (X & _ & _ & _ & _ & _ & M); [left; reflexivity | reflexivity | exact Hv |].
  destruct (M 0 0 0 0 initial_totals) as ((Tm & Tn & Tu & Tp) & Hle & Heq).
  cbn [qemuopts_init memv memslots] in Hle, Heq. rewrite !Z.add_0_l in *.
  fold (cxl_gigabytes numalist) in X.
  destruct (sum_by_kind (numa_groups numalist)) as [Hsum Hbuiltin].
  rewrite Tm, Tn, Tu, Tp, X.
  destruct (gigabytes_value (sumZ (map (group_key_gigabytes "nvmem") (numa_groups numalist))))
    as [G1 V1].
  destruct (gigabytes_value (cxl_gigabytes numalist)) as [G2 V2].
  rewrite (siadd_sizes _ _ _ G1 V1), (siadd_sizes _ _ _ G2 V2), <- Hsum.
  eexists. eexists. split; [reflexivity|]. split; [reflexivity|]. split; [reflexivity|].
  rewrite !sisub_sizes. cbn [bind]. rewrite !sisub_sizes. cbn [bind]. rewrite sisub_sizes.
  split; [reflexivity|]. split; [f_equal; lia|]. split; [reflexivity|].
  split; [exact Hle | exact Heq].
Qed.





(** A decimal numeral without leading zeros starts with 0 only when it is
    0. *)
Lemma nzhead_no_zero (d d' : Decimal.uint) : Decimal.nzhead d <> Decimal.D0 d'.
Proof. induction d; cbn [Decimal.nzhead]; try discriminate. exact IHd. Qed.

Lemma to_uint_first_digit (p : positive) (d : Decimal.uint) : Pos.to_uint p <> Decimal.D0 d.
Proof.
  intros H.
  pose proof (DecimalPos.Unsigned.to_of (Pos.to_uint p)) as Hnorm.
  rewrite DecimalPos.Unsigned.of_to in Hnorm. cbn [N.to_uint] in Hnorm.
  rewrite H in Hnorm at 1. unfold Decimal.unorm in Hnorm.
  destruct (Decimal.nzhead (Pos.to_uint p)) eqn:Hhead; try discriminate.
  - inversion Hnorm; subst. exact (DecimalPos.Unsigned.to_uint_nonzero p H).
  - exact (nzhead_no_zero _ _ Hhead).
Qed.

(** The size of a number of gigabytes starts with 0 for 0 gigabytes only. *)
Lemma startswith_0_gigabytes (n : Z) : startswith_0 (gigabytes n) = (n =? 0).
Proof.
  unfold gigabytes, str_of_Z. destruct n as [|p|p]; [reflexivity | | reflexivity].
  cbn [Z.to_int DecimalString.NilZero.string_of_int DecimalString.NilZero.string_of_uint Z.eqb].
  pose proof (to_uint_first_digit p) as Hfirst.
  pose proof (DecimalPos.Unsigned.to_uint_nonnil p) as Hnil.
  destruct (Pos.to_uint p) as [|d|d|d|d|d|d|d|d|d|d]; try reflexivity.
  - contradiction.
  - exfalso. exact (Hfirst d eq_refl).
Qed.

Lemma sumZ_nonneg {A : Type} (f : A -> Z) (l : list A) :
  (forall y, In y l -> 0 <= f y) -> 0 <= sumZ (map f l).
Proof.
  induction l as [|y l IH]; intros Hnonneg; [cbn; lia|].
  cbn [map sumZ fold_right]. fold (sumZ (map f l)).
  pose proof (Hnonneg y (or_introl eq_refl)).
  assert (0 <= sumZ (map f l)); [|lia].
  apply IH. intros z Hz. apply Hnonneg. right. exact Hz.
Qed.

Lemma sumZ_positive {A : Type} (f : A -> Z) (l : list A) (x : A) :
  (forall y, In y l -> 0 <= f y) -> In x l -> 0 < f x -> 0 < sumZ (map f l).
Proof.
  induction l as [|y l IH]; intros Hnonneg Hin Hpos; [destruct Hin|].
  cbn [map sumZ fold_right]. fold (sumZ (map f l)).
  assert (Htail : forall z, In z l -> 0 <= f z) by (intros z Hz; apply Hnonneg; right; exact Hz).
  pose proof (Hnonneg y (or_introl eq_refl)) as Hhead.
  destruct Hin as [<-|Hin].
  - pose proof (sumZ_nonneg f l Htail). lia.
  - specialize (IH Htail Hin Hpos). lia.
Qed.

(** A list with a group with cores gets past the CPU and the socket
    checks. *)
Lemma cpus_and_sockets (numalist : list jobj) (v : vars) :
  validate numalist = Ok tt ->
  qemuopts_groups numalist = Ok v ->
  existsb cpu_bearing (numa_groups numalist) = true ->
  lastcpu (cpuv v) <> -1 /\ last_socket (cpuv v) + 1 <> 0.
Proof.
  intros Hvalid Hv Hex.
  pose proof (validate_in_ranges _ Hvalid) as Hranges.
  destruct (groups_loop_cpus numalist Hranges qemuopts_init v)
    as (_ & _ & Hpos & _ & _ & Hcpu); [left; reflexivity | exact Hv |].
  destruct (groups_loop_totals numalist (validate_valid_spec _ Hvalid) qemuopts_init v 0)
    as (_ & _ & _ & S & _); [left; reflexivity | reflexivity | exact Hv |].
  cbn [qemuopts_init cpuv lastcpu last_socket] in Hcpu, S.
  specialize (Hpos Hex). apply existsb_exists in Hex as (g & Hg & Hb).
  assert (Hin : forall x, In x (numa_groups numalist) -> in_ranges x)
    by (intros x Hx; apply Hranges; apply filter_In in Hx as [Hx _]; exact Hx).
  split.
  - enough (0 < sumZ (map (group_cpus (threadcount v)) (numa_groups numalist))) by lia.
    apply (sumZ_positive _ _ g); [|assumption|].
    + intros x Hx. unfold group_cpus. destruct (cpu_bearing x) eqn:Hbx; [|lia].
      unfold cpu_bearing in Hbx. apply Z.ltb_lt in Hbx. specialize (Hin x Hx).
      destruct (in_ranges_int_key x "packages" 1 _ Hin eq_refl eq_refl) as [_ Hp].
      destruct (in_ranges_int_key x "dies" 1 _ Hin eq_refl eq_refl) as [_ Hd].
      destruct (in_ranges_int_key x "nodes" 1 _ Hin eq_refl eq_refl) as [_ Hn].
      apply Z.ltb_lt in Hp, Hd, Hn. nia.
    + unfold group_cpus. rewrite Hb. unfold cpu_bearing in Hb. apply Z.ltb_lt in Hb.
      specialize (Hin g Hg).
      destruct (in_ranges_int_key g "packages" 1 _ Hin eq_refl eq_refl) as [_ Hp].
      destruct (in_ranges_int_key g "dies" 1 _ Hin eq_refl eq_refl) as [_ Hd].
      destruct (in_ranges_int_key g "nodes" 1 _ Hin eq_refl eq_refl) as [_ Hn].
      apply Z.ltb_lt in Hp, Hd, Hn. nia.
  - enough (0 < sumZ (map group_sockets (numa_groups numalist))) by lia.
    apply (sumZ_positive _ _ g); [|assumption|].
    + intros x Hx. unfold group_sockets. destruct (cpu_bearing x); [|lia].
      destruct (in_ranges_int_key x "packages" 1 _ (Hin x Hx) eq_refl eq_refl) as [_ Hp].
      apply Z.ltb_lt in Hp. lia.
    + unfold group_sockets. rewrite Hb.
      destruct (in_ranges_int_key g "packages" 1 _ (Hin g Hg) eq_refl eq_refl) as [_ Hp].
      apply Z.ltb_lt in Hp. lia.
Qed.

(** Without built-in memory the list does not compile: a machine cannot
    boot from hot-pluggable or CXL memory alone.  Past the earlier checks the
    error is 'no memory in any NUMA node' when the plugged memory is 0, and
    'no initial memory' otherwise. *)
Theorem boot_memory_required (numalist : list jobj) :
  sumZ (map group_builtin (numa_groups numalist)) = 0 ->
  exists e,
    qemuopts numalist = Err e
    /\ (validate numalist = Ok tt -> is_ok (qemuopts_groups numalist) = true ->
        is_ok (dists (numa_groups numalist)) = true ->
        existsb cpu_bearing (numa_groups numalist) = true ->
        e = ValueError (if sumZ (map group_plugged (numa_groups numalist)) =? 0
                        then NoMemory else NoInitialMemory)).
Proof.
  intros Hnone. unfold qemuopts.
  destruct (validate numalist) as [[]|e] eqn:Hvalid; cbn [bind];
    [|exists e; split; [reflexivity | discriminate]].
  destruct (qemuopts_groups numalist) as [v|e] eqn:Hv; cbn [bind];
    [|exists e; split; [reflexivity | discriminate]].
  destruct (assemble_memory numalist v Hvalid Hv)
    as (maxmem & startmem & Ha & Hmax & _ & Hstart & Estart & Eplugged & _).
  pose proof (qemuopts_groups_numa _ _ _ Hv) as Hgroups. cbn in Hgroups.
  pose proof (cpus_and_sockets numalist v Hvalid Hv) as Hpast.
  unfold assemble. rewrite Hgroups.
  destruct (dists (numa_groups numalist)) as [dd|e]; cbn [bind];
    [|exists e; split; [reflexivity | discriminate]].
  destruct (Z.eqb_spec (lastcpu (cpuv v)) (-1)) as [Hcpus|Hcpus].
  { eexists. split; [reflexivity|]. intros _ _ _ Hex. destruct (Hpast Hex). contradiction. }
  destruct (Z.eqb_spec (last_socket (cpuv v) + 1) 0) as [Hsockets|Hsockets].
  { eexists. split; [reflexivity|]. intros _ _ _ Hex. destruct (Hpast Hex). contradiction. }
  rewrite Ha. cbn [bind]. rewrite Hmax. cbn [bind].
  apply bind_ok in Hstart as (b & Hb & Hstart). apply bind_ok in Hstart as (c & Hc & Hstart).
  rewrite Hb. cbn [bind]. rewrite Hc. cbn [bind]. rewrite Hstart. cbn [bind].
  rewrite Estart, Hnone, Eplugged, !startswith_0_gigabytes. cbn [Z.eqb].
  destruct (sumZ (map group_plugged (numa_groups numalist)) =? 0);
    eexists; split; reflexivity || (intros; reflexivity).
Qed.

Lemma boot_memory_required_witness :
  exists e,
    qemuopts plugged_only = Err e
    /\ (validate plugged_only = Ok tt -> is_ok (qemuopts_groups plugged_only) = true ->
        is_ok (dists (numa_groups plugged_only)) = true ->
        existsb cpu_bearing (numa_groups plugged_only) = true ->
        e = ValueError (if sumZ (map group_plugged (numa_groups plugged_only)) =? 0
                        then NoMemory else NoInitialMemory)).
Proof. apply (boot_memory_required plugged_only). vm_compute. reflexivity. Defined.

Lemma assemble_machine (v : vars) (o : qemu_options) :
  assemble v = Ok o -> machine_param o = machineparam (memv v) +:+ ",accel=kvm".
Proof.
  unfold assemble. intros H. apply bind_ok in H as (dd & _ & H).
  destruct (lastcpu (cpuv v) =? -1); [discriminate|].
  destruct (last_socket (cpuv v) + 1 =? 0); [discriminate|].
  apply bind_ok in H as (a & _ & H). apply bind_ok in H as (maxmem & _ & H).
  apply bind_ok in H as (b & _ & H). apply bind_ok in H as (c & _ & H).
  apply bind_ok in H as (startmem & _ & H).
  destruct (startswith_0 startmem);
    [destruct (startswith_0 (pluggedmem (memv v))); discriminate|].
  inversion H; subst; clear H. reflexivity.
Qed.

Lemma add_flag_In (flags : list flag) (f f' : flag) :
  In f (add_flag flags f') <-> In f flags \/ f = f'.
Proof.
  unfold add_flag. destruct (existsb (flag_eqb f') flags) eqn:Hin.
  - apply existsb_exists in Hin as (x & Hx & Heq).
    assert (x = f') as -> by (destruct f', x; try discriminate; reflexivity).
    split; [auto | intros [H | ->]; assumption].
  - rewrite in_app_iff. cbn [In]. split; [intros [H|[<-|[]]] | intros [H| ->]]; auto.
Qed.

Lemma flags_from_cons (flags : list flag) (numaspec : jobj) (numalist : list jobj) :
  flags_from flags (numaspec :: numalist)
  = flags_from (if is_numa_group numaspec
                then (if has_nvmem numaspec then add_flag flags Nvdimm else flags)
                else (if cxl_has_devices numaspec then add_flag flags Cxl else flags))
               numalist.
Proof. reflexivity. Qed.

(** Which flags a list brings. *)
Lemma flags_from_In (numalist : list jobj) (f : flag) :
  forall flags,
    In f (flags_from flags numalist)
    <-> In f flags
        \/ exists numaspec,
             In numaspec numalist
             /\ (if is_numa_group numaspec
                 then has_nvmem numaspec = true /\ f = Nvdimm
                 else cxl_has_devices numaspec = true /\ f = Cxl).
Proof.
  induction numalist as [|g l IH]; intros flags.
  - cbn. split; [auto | intros [H | (x & [] & _)]; exact H].
  - rewrite flags_from_cons, IH. cbn [In]. split.
    + intros [H | (x & Hx & Hf)]; [|right; exists x; auto].
      destruct (is_numa_group g) eqn:Hnuma.
      * destruct (has_nvmem g) eqn:Hnv; [|auto].
        apply add_flag_In in H as [H | ->]; [auto|].
        right. exists g. rewrite Hnuma. auto.
      * destruct (cxl_has_devices g) eqn:Hdev; [|auto].
        apply add_flag_In in H as [H | ->]; [auto|].
        right. exists g. rewrite Hnuma. auto.
    + intros [H | (x & [<-|Hx] & Hf)].
      * left. destruct (is_numa_group g), (has_nvmem g), (cxl_has_devices g);
          try assumption; apply add_flag_In; auto.
      * left. destruct (is_numa_group g); destruct Hf as [-> ->]; apply add_flag_In; auto.
      * right. exists x. auto.
Qed.

(** The [-machine] parameter: the fixed machine, [nvdimm=on] when a NUMA
    group has [nvmem], [cxl=on] when a CXL entry compiles to devices, each
    once and in the order in which the list brings them, and the
    accelerator. *)
Theorem machine_parameter (numalist : list jobj) (o : qemu_options) :
  qemuopts numalist = Ok o ->
  machine_param o = machine_of (flags_from [] numalist) +:+ ",accel=kvm"
  /\ (In Nvdimm (flags_from [] numalist)
      <-> exists numaspec, In numaspec (numa_groups numalist) /\ has_nvmem numaspec = true)
  /\ (In Cxl (flags_from [] numalist)
      <-> exists numaspec, In numaspec numalist /\ is_numa_group numaspec = false
                           /\ cxl_has_devices numaspec = true).
Proof.
  unfold qemuopts. intros H.
  apply bind_ok in H as ([] & Hvalid & H). apply bind_ok in H as (v & Hv & H).
  split; [|split].
  - rewrite (assemble_machine _ _ H). f_equal.
    destruct (groups_loop_totals numalist (validate_valid_spec _ Hvalid) qemuopts_init v 0)
      as (_ & _ & _ & _ & _ & F & _); [left; reflexivity | reflexivity | exact Hv |].
    destruct (F []) as (_ & Hmachine & _); [|exact Hmachine].
    split; [left; reflexivity | split; reflexivity].
  - rewrite flags_from_In. cbn [In]. split.
    + intros [[] | (g & Hg & Hf)]. exists g.
      destruct (is_numa_group g) eqn:Hnuma; [|destruct Hf; discriminate].
      split; [apply filter_In; auto | apply Hf].
    + intros (g & Hg & Hnv). apply filter_In in Hg as [Hg Hnuma].
      right. exists g. rewrite Hnuma. auto.
  - rewrite flags_from_In. cbn [In]. split.
    + intros [[] | (g & Hg & Hf)]. exists g.
      destruct (is_numa_group g) eqn:Hnuma; [destruct Hf; discriminate|].
      split; [assumption | split; [reflexivity | apply Hf]].
    + intros (g & Hg & Hnuma & Hdev). right. exists g. rewrite Hnuma. auto.
Qed.

Lemma machine_parameter_witness :
  machine_param (options_of (qemuopts cxl_before_nvmem))
  = machine_of (flags_from [] cxl_before_nvmem) +:+ ",accel=kvm"
  /\ (In Nvdimm (flags_from [] cxl_before_nvmem)
      <-> exists numaspec, In numaspec (numa_groups cxl_before_nvmem)
                           /\ has_nvmem numaspec = true)
  /\ (In Cxl (flags_from [] cxl_before_nvmem)
      <-> exists numaspec, In numaspec cxl_before_nvmem /\ is_numa_group numaspec = false
                           /\ cxl_has_devices numaspec = true).
Proof. apply (machine_parameter cxl_before_nvmem). vm_compute. reflexivity. Defined.

(** ** The lists that compile *)

(** A loop whose body succeeds on the states of an invariant, and keeps it,
    succeeds. *)
Lemma for_each_succeeds {A St : Type} (I : St -> Prop) (body : A -> St -> result St)
  (l : list A) :
  (forall x s, In x l -> I s -> exists s', body x s = Ok s' /\ I s') ->
  forall s, I s -> exists s', for_each body l s = Ok s' /\ I s'.
Proof.
  induction l as [|x l IH]; intros Hbody s Hs; [exists s; auto|].
  cbn [for_each]. destruct (Hbody x s (or_introl eq_refl) Hs) as (s1 & -> & H1).
  cbn [bind]. apply IH; [|exact H1]. intros y t Hy. apply Hbody. right. exact Hy.
Qed.

Lemma for_each_keeps {A St : Type} (I : St -> Prop) (body : A -> St -> result St)
  (l : list A) :
  (forall x s s', In x l -> I s -> body x s = Ok s' -> I s') ->
  forall s s', I s -> for_each body l s = Ok s' -> I s'.
Proof.
  induction l as [|x l IH]; intros Hbody s s' Hs H.
  - inversion H; subst. exact Hs.
  - cbn [for_each] in H. apply bind_ok in H as (s1 & H1 & H2).
    apply (IH (fun y t t' Hy => Hbody y t t' (or_intror Hy)) s1 s'); [|exact H2].
    apply (Hbody x s s1 (or_introl eq_refl) Hs H1).
Qed.

(** A successful loop has run its body on every element. *)
Lemma for_each_ran {A St : Type} (body : A -> St -> result St) (l : list A) :
  forall s s', for_each body l s = Ok s' ->
    forall x, In x l -> exists s1 s2, body x s1 = Ok s2.
Proof.
  induction l as [|y l IH]; intros s s' H x Hx; [destruct Hx|].
  cbn [for_each] in H. apply bind_ok in H as (s1 & H1 & H2).
  destruct Hx as [->|Hx]; [eauto | apply (IH _ _ H2 x Hx)].
Qed.

Lemma for_range_keeps {St : Type} (P : St -> Prop) (body : Z -> St -> St) (n : Z) :
  (forall i s, P s -> P (body i s)) -> forall s, P s -> P (for_range n body s).
Proof.
  intros Hbody. unfold for_range. induction (range n) as [|i l IH]; intros s Hs; [exact Hs|].
  cbn [fold_left]. apply IH, Hbody, Hs.
Qed.

(** *** The distance builder *)

Lemma dists_package_same_keys (nodecount diecount : Z) (t : topo) :
  same_keys t -> same_keys (dists_package nodecount diecount t).
Proof.
  intros Ht. unfold dists_package. cbv zeta.
  apply for_range_keeps.
  - intros die t1 H1. apply for_range_keeps; [|exact H1].
    intros _ t2 H2 k. unfold dists_node. cbn [node_package_die dist_dict].
    destruct (decide (k = sourcenode t2 + 1)) as [->|Hk].
    + rewrite !lookup_insert_eq. split; eauto.
    + rewrite !lookup_insert_ne by congruence. apply H2.
  - destruct (0 <? nodecount); exact Ht.
Qed.

Lemma dists_group_same_keys (numaspec : jobj) (v v' : dvars) :
  dists_group numaspec v = Ok v' -> same_keys (topology v) -> same_keys (topology v').
Proof.
  unfold dists_group. intros H Hv.
  apply bind_ok in H as (n & _ & H). apply bind_ok in H as (c & _ & H).
  apply bind_ok in H as (d & _ & H). apply bind_ok in H as (p & _ & H).
  apply bind_ok in H as (nnd & _ & H). inversion H; subst; clear H. cbn [topology].
  apply for_range_keeps; [|exact Hv]. intros _ t. apply dists_package_same_keys.
Qed.

Lemma dists_group_succeeds (numaspec : jobj) (v : dvars) :
  in_ranges numaspec -> jget numaspec "node-dist" = None ->
  exists v', dists_group numaspec v = Ok v'.
Proof.
  intros Hranges Hnone. unfold dists_group.
  destruct (in_ranges_int_key numaspec "nodes" 1 _ Hranges eq_refl eq_refl) as [-> _].
  destruct (in_ranges_int_key numaspec "cores" 0 _ Hranges eq_refl eq_refl) as [-> _].
  destruct (in_ranges_int_key numaspec "dies" 1 _ Hranges eq_refl eq_refl) as [-> _].
  destruct (in_ranges_int_key numaspec "packages" 1 _ Hranges eq_refl eq_refl) as [-> _].
  rewrite Hnone. cbn [bind]. eauto.
Qed.

Lemma effective_dist_all_none (numalist : list jobj) :
  (forall numaspec, In numaspec numalist -> jget numaspec "dist-all" = None) ->
  effective_dist_all numalist = JNull.
Proof.
  unfold effective_dist_all. generalize JNull.
  induction numalist as [|g l IH]; intros m H; [reflexivity|].
  cbn [fold_left]. rewrite (H g (or_introl eq_refl)). apply IH.
  intros x Hx. apply H. right. exact Hx.
Qed.

(** One pair of nodes is filled when both have a row, a package and a die. *)
Lemma fill_pair_succeeds (v : dvars) (s d : Z) (dd : dist_table) :
  is_Some (dd !! s) -> is_Some (dd !! d) ->
  is_Some (node_package_die (topology v) !! s) ->
  is_Some (node_package_die (topology v) !! d) ->
  exists dd', fill_pair v s d dd = Ok dd'
              /\ forall k, is_Some (dd' !! k) <-> is_Some (dd !! k).
Proof.
  intros Hs Hd [ps Hps] [pd Hpd]. unfold fill_pair.
  destruct (s =? d).
  - destruct (set2_succeeds dd s d (JInt DEFAULT_DIST_SAME_NODE) Hs) as [dd' H].
    exists dd'. split; [exact H | apply (set2_rows _ _ _ _ _ H)].
  - destruct (get2 (node_node_dist v) s d) as [x|].
    + destruct (set2_succeeds dd s d x Hs) as [dd1 H1]. rewrite H1. cbn [bind].
      pose proof (set2_rows _ _ _ _ _ H1) as R1.
      destruct (set2_succeeds dd1 d s x) as [dd2 H2]; [apply R1, Hd|].
      exists dd2. split; [exact H2|].
      intros k. rewrite (set2_rows _ _ _ _ _ H2 k). apply R1.
    + destruct Hs as [row Hrow]. unfold lookup_or_keyerror at 1. rewrite Hrow. cbn [bind].
      destruct (row !! d); [exists dd; split; [reflexivity | tauto]|].
      unfold topology_dist, lookup_or_keyerror. rewrite Hps, Hpd. cbn [bind].
      assert (Hs : is_Some (dd !! s)) by eauto.
      destruct ((ps.1 =? pd.1) && (ps.2 =? pd.2))%bool; [|destruct (ps.1 =? pd.1)];
        cbn [bind];
        match goal with
        | |- exists dd', set2 dd s d ?x = Ok dd' /\ _ =>
            destruct (set2_succeeds dd s d x Hs) as [dd' H];
            exists dd'; split; [exact H | apply (set2_rows _ _ _ _ _ H)]
        end.
Qed.

Lemma fill_from_topology_succeeds (v : dvars) (lastnode : Z) (dd : dist_table) :
  (forall k, 0 <= k <= lastnode -> is_Some (dd !! k)) ->
  (forall k, 0 <= k <= lastnode -> is_Some (node_package_die (topology v) !! k)) ->
  exists dd', fill_from_topology v lastnode dd = Ok dd'.
Proof.
  intros Hrows Hplaces. unfold fill_from_topology.
  set (I := fun dd : dist_table => forall k, 0 <= k <= lastnode -> is_Some (dd !! k)).
  destruct (for_each_succeeds I
              (fun sourcenode dd =>
                 for_each (fun destnode dd => fill_pair v sourcenode destnode dd)
                          (range (lastnode + 1)) dd)
              (range (lastnode + 1))) with (s := dd) as (dd' & H & _); [|exact Hrows|eauto].
  intros s dd1 Hs H1. apply in_range in Hs.
  apply (for_each_succeeds I); [|exact H1].
  intros d dd2 Hd H2. apply in_range in Hd.
  destruct (fill_pair_succeeds v s d dd2) as (dd3 & H3 & R3);
    try (apply H2; lia); try (apply Hplaces; lia).
  exists dd3. split; [exact H3|]. intros k Hk. apply R3, H2, Hk.
Qed.

(** [dists] returns a table for every validated list of NUMA groups that is
    not empty and gives no distances between nodes. *)
Lemma dists_succeeds (numalist : list jobj) :
  numalist <> [] ->
  (forall numaspec, In numaspec numalist -> in_ranges numaspec /\ no_distances numaspec) ->
  exists dd, dists numalist = Ok dd.
Proof.
  intros Hne Hall. unfold dists.
  destruct (for_each_succeeds (fun _ => True) dists_group numalist) with (s := dists_init)
    as (v & Hv & _); [|exact I|].
  { intros g w Hg _. destruct (Hall g Hg) as [Hranges [_ Hnone]].
    destruct (dists_group_succeeds g w Hranges Hnone) as [w' Hw]. eauto. }
  fold (dists_first_pass numalist) in Hv. rewrite Hv. cbn [bind].
  destruct (dists_first_pass_nodes _ _ Hv) as (S & P & D & R & L & E & O & M).
  rewrite (L Hne), M, effective_dist_all_none by (intros g Hg; apply (Hall g Hg)).
  destruct (Z.ltb_spec (total_nodes numalist) 0) as [|_]; [lia|]. cbn [is_none negb].
  assert (Hkeys : same_keys (topology v)).
  { unfold dists_first_pass in Hv.
    apply (for_each_keeps (fun w => same_keys (topology w)) dists_group numalist)
      with (s := dists_init) (s' := v); [| |exact Hv].
    - intros g w w' _ Hw Hrun. exact (dists_group_same_keys g w w' Hrun Hw).
    - intros k. cbn [dists_init topology node_package_die dist_dict].
      rewrite !lookup_empty. split; intros [x Hx]; discriminate. }
  apply fill_from_topology_succeeds.
  - intros k Hk. apply D. lia.
  - intros k Hk. apply Hkeys, D. lia.
Qed.

(** *** The group loop *)

Lemma memory_body_succeeds (nv : bool) (dimm : jval) (s : string) (k lastnode : Z)
  (m : memvars) (ps : list string) (mem nvmem unplugged plugged : Z) :
  known_dimm dimm = true ->
  lower_endswith_g s = true -> int_of_str (drop_last s) = Ok k ->
  totals_are m mem nvmem unplugged plugged ->
  exists st, memory_body nv dimm (JStr s) lastnode (m, ps) = Ok st.
Proof.
  intros Hdimm G V (Tm & Tn & Tu & Tp). unfold memory_body, known_dimm in *.
  assert (Htotal : exists total,
            siadd_input (if nv then totalnvmem m else totalmem m) (JStr s) = Ok total).
  { cbn [siadd_input].
    destruct nv; [rewrite Tn | rewrite Tm]; rewrite (siadd_sizes _ _ _ G V); eauto. }
  destruct Htotal as [total ->].
  destruct (is_str dimm ""); [cbn [bind]; eauto|].
  destruct (is_str dimm "plugged").
  - cbn [siadd_input]. rewrite Tp, (siadd_sizes _ _ _ G V). cbn [bind]. eauto.
  - destruct (is_str dimm "unplugged"); [|discriminate].
    cbn [siadd_input]. rewrite Tu, (siadd_sizes _ _ _ G V). cbn [bind]. eauto.
Qed.

Lemma memory_loop_succeeds (nv : bool) (count : Z) (size dimm : jval) (lastnode : Z)
  (m : memvars) (ps : list string) (mem nvmem unplugged plugged : Z) :
  sized count size -> (count = 1 -> known_dimm dimm = true) ->
  totals_are m mem nvmem unplugged plugged ->
  exists st,
    for_each (fun _ => memory_body nv dimm size lastnode) (range count) (m, ps) = Ok st.
Proof.
  intros [-> | [-> (s & k & -> & G & V)]] Hdimm T; [eexists; reflexivity|].
  change (for_each _ (range 1) _)
    with (let* s' := memory_body nv dimm (JStr s) lastnode (m, ps) in Ok s').
  destruct (memory_body_succeeds nv dimm s k lastnode m ps _ _ _ _ (Hdimm eq_refl) G V T)
    as [st ->].
  cbn [bind]. eauto.
Qed.

Lemma moved_totals_ok (g : groupvars) (kn kd ks : Z) (v v' : vars) :
  moved g kn kd ks v v' -> totals_ok v -> totals_ok v'.
Proof.
  intros (_ & _ & _ & _ & _ & _ & _ & M & _) (mem & nvmem & unplugged & plugged & T).
  destruct (M _ _ _ _ T) as [T' _]. unfold totals_ok. eauto.
Qed.

(** A group whose memory, when it has some, has a known ["dimm"]. *)
Lemma node_body_succeeds (g : groupvars) (i : Z) (v : vars) :
  group_ok g ->
  (memcount g = 1 \/ nvmemcount g = 1 -> known_dimm (memdimm g) = true) ->
  totals_ok v ->
  exists v', node_body g i v = Ok v' /\ totals_ok v'.
Proof.
  intros Hg Hdimm Hv.
  assert (Hrun : exists v', node_body g i v = Ok v').
  { destruct Hg as [Hmem Hnv]. destruct Hv as (mem & nvmem & unplugged & plugged & T).
    unfold node_body.
    destruct (memory_loop_succeeds false _ _ (memdimm g) (lastnode (next_node (cpuv v)))
                (memv v) [] _ _ _ _ Hmem (fun H => Hdimm (or_introl H)) T) as [[m1 ps1] H1].
    rewrite H1. cbn [bind].
    destruct (memory_loop_totals false _ _ _ _ _ _ _ _ _ _ _ _ Hmem T H1) as [T1 _].
    destruct (memory_loop_succeeds true _ _ (memdimm g) (lastnode (next_node (cpuv v)))
                m1 ps1 _ _ _ _ Hnv (fun H => Hdimm (or_intror H)) T1) as [[m2 ps2] H2].
    rewrite H2. cbn [bind].
    destruct (cpu_body g (next_node (cpuv v)) ps2). eauto. }
  destruct Hrun as [v' Hrun]. exists v'. split; [exact Hrun|].
  exact (moved_totals_ok _ _ _ _ _ _ (node_body_moved g i v v' Hg Hrun) Hv).
Qed.

Lemma package_body_succeeds (g : groupvars) (i : Z) (v : vars) :
  group_ok g ->
  (memcount g = 1 \/ nvmemcount g = 1 -> known_dimm (memdimm g) = true) ->
  totals_ok v ->
  exists v', package_body g i v = Ok v' /\ totals_ok v'.
Proof.
  intros Hg Hdimm Hv. unfold package_body.
  apply (for_each_succeeds totals_ok); [|destruct (has_cpu_nodes g); exact Hv].
  intros die v1 _ H1. unfold die_body.
  apply (for_each_succeeds totals_ok); [|destruct (has_cpu_nodes g); exact H1].
  intros node v2 _ H2. apply node_body_succeeds; assumption.
Qed.

(** A validated group whose threads agree with the thread count. *)
Lemma numa_group_succeeds (numaspec : jobj) (v : vars) (threads : Z) :
  valid_spec numaspec ->
  (has_memory numaspec = true -> known_dimm (dimm_of numaspec) = true) ->
  check_threads numaspec (int_key numaspec "cores" 0) (threadcount v) = Ok threads ->
  totals_ok v ->
  exists v', numa_group numaspec v = Ok v'.
Proof.
  intros Hvalid Hdimm Hthreads Hv. pose proof Hvalid as (_ & _ & Hranges & _).
  unfold numa_group.
  destruct (in_ranges_int_key numaspec "nodes" 1 _ Hranges eq_refl eq_refl) as [-> _].
  destruct (in_ranges_int_key numaspec "cores" 0 _ Hranges eq_refl eq_refl) as [-> _].
  destruct (in_ranges_int_key numaspec "dies" 1 _ Hranges eq_refl eq_refl) as [-> _].
  destruct (in_ranges_int_key numaspec "packages" 1 _ Hranges eq_refl eq_refl) as [-> _].
  destruct (in_ranges_int_key numaspec "cpus-present" 0 _ Hranges eq_refl eq_refl) as [-> _].
  cbn [bind]. rewrite Hthreads. cbn [bind].
  set (g := groupvars_of numaspec threads).
  change (exists v',
            for_each (package_body g) (range (packagecount g))
              {| memv := memv v; cpuv := cpuv v; numaparams := numaparams v;
                 threadcount := threads; totalcxlmem := totalcxlmem v;
                 numalist_with_dist := numalist_with_dist v ++ [numaspec] |} = Ok v').
  destruct (for_each_succeeds totals_ok (package_body g) (range (packagecount g)))
    with (s := {| memv := memv v; cpuv := cpuv v; numaparams := numaparams v;
                  threadcount := threads; totalcxlmem := totalcxlmem v;
                  numalist_with_dist := numalist_with_dist v ++ [numaspec] |})
    as (v' & Hrun & _); [|exact Hv|eauto].
  intros i w _ Hw. apply package_body_succeeds; [| |exact Hw].
  - split; [apply (valid_spec_sized numaspec "mem") | apply (valid_spec_sized numaspec "nvmem")];
      auto.
  - cbn [g groupvars_of memcount nvmemcount memdimm]. intros Hcount. apply Hdimm.
    unfold has_memory. unfold key_count in Hcount.
    destruct (is_str (jget_default numaspec "mem" (JStr "0")) "0"),
             (is_str (jget_default numaspec "nvmem" (JStr "0")) "0");
      cbn [negb orb] in *; try reflexivity.
    destruct Hcount; discriminate.
Qed.

Lemma cxl_group_succeeds (cxl_spec : jval) (v : vars) :
  is_ok (qemucxlopts cxl_spec) = true -> exists v', cxl_group cxl_spec v = Ok v'.
Proof.
  intros Hok. unfold cxl_group.
  destruct (qemucxlopts cxl_spec) as [[[[o d] m] t]|e]; [|discriminate].
  cbn [bind]. eauto.
Qed.

Lemma first_threads_cons (numaspec : jobj) (groups : list jobj) :
  first_threads (numaspec :: groups)
  = if cpu_bearing numaspec then int_key numaspec "threads" 2 else first_threads groups.
Proof. unfold first_threads. cbn [find]. destruct (cpu_bearing numaspec); reflexivity. Qed.

(** [check_threads] on a validated group whose threads, when it has cores
    and gives some, are those of the thread count, or of the first group
    with cores when none has been met. *)
Lemma check_threads_succeeds (numaspec : jobj) (tc threads : Z) :
  in_ranges numaspec ->
  (cpu_bearing numaspec = true -> jget numaspec "threads" <> None ->
   int_key numaspec "threads" 2 = threads) ->
  (tc = threads /\ 0 < threads)
  \/ (tc = -1 /\ (cpu_bearing numaspec = true -> int_key numaspec "threads" 2 = threads)) ->
  exists t1,
    check_threads numaspec (int_key numaspec "cores" 0) tc = Ok t1
    /\ ((t1 = threads /\ 0 < threads) \/ (t1 = -1 /\ cpu_bearing numaspec = false)).
Proof.
  intros Hranges Hown Htc. unfold check_threads. fold (cpu_bearing numaspec).
  destruct (cpu_bearing numaspec) eqn:Hb.
  - destruct (in_ranges_int_key numaspec "threads" 2 _ Hranges eq_refl eq_refl) as [Ht Hpos].
    apply Z.ltb_lt in Hpos.
    destruct Htc as [[-> Hthreads] | [-> Hfirst]].
    + destruct (Z.ltb_spec threads 0) as [|_]; [lia|].
      unfold jget_default in *. unfold int_key in Hown. unfold jget_default in Hown.
      destruct (jget numaspec "threads") as [x|] eqn:Hget; [|cbn; eauto].
      assert (Hnone : is_none x = false) by (destruct x; try reflexivity; discriminate).
      rewrite Hnone, Ht. cbn [negb bind].
      rewrite Ht in Hown. rewrite (Hown eq_refl ltac:(discriminate)).
      rewrite Z.eqb_refl. cbn [negb]. eauto.
    + cbn [Z.ltb Z.compare]. rewrite Ht. exists (int_key numaspec "threads" 2).
      split; [reflexivity|]. left. rewrite <- (Hfirst eq_refl). auto.
  - exists tc. split; [reflexivity|]. destruct Htc as [[-> ?] | [-> _]]; auto.
Qed.

(** The group loop succeeds on the entries of a list that compiles. *)
Lemma groups_loop_succeeds (threads : Z) (numalist : list jobj) :
  (forall numaspec, In numaspec numalist -> valid_spec numaspec) ->
  (forall numaspec, In numaspec numalist -> is_numa_group numaspec = false ->
     has_other_keys numaspec = false
     /\ is_ok (qemucxlopts (jget_default numaspec "cxl" JNull)) = true) ->
  (forall numaspec, In numaspec (numa_groups numalist) -> has_memory numaspec = true ->
     known_dimm (dimm_of numaspec) = true) ->
  (forall numaspec, In numaspec (numa_groups numalist) -> cpu_bearing numaspec = true ->
     jget numaspec "threads" <> None -> int_key numaspec "threads" 2 = threads) ->
  forall v,
    (threadcount v = threads /\ 0 < threads)
    \/ (threadcount v = -1
        /\ (existsb cpu_bearing (numa_groups numalist) = true ->
            first_threads (numa_groups numalist) = threads)) ->
    totals_ok v ->
    exists v', for_each qemuopts_group numalist v = Ok v'.
Proof.
  induction numalist as [|g l IH]; intros Hvalid Hcxl Hdimm Hown v Htc Hv; [eexists; reflexivity|].
  cbn [for_each].
  assert (Hstep : exists v1,
            qemuopts_group g v = Ok v1
            /\ totals_ok v1
            /\ ((threadcount v1 = threads /\ 0 < threads)
                \/ (threadcount v1 = -1
                    /\ (existsb cpu_bearing (numa_groups l) = true ->
                        first_threads (numa_groups l) = threads)))).
  { unfold qemuopts_group.
    assert (Htruthy : truthy (jget_default g "cxl" JNull) = negb (is_numa_group g))
      by (unfold is_numa_group; rewrite negb_involutive; reflexivity).
    rewrite Htruthy. clear Htruthy.
    unfold numa_groups in Hdimm, Hown, Htc. cbn [List.filter] in Hdimm, Hown, Htc.
    fold (numa_groups l) in Hdimm, Hown, Htc.
    destruct (is_numa_group g) eqn:Hnuma; cbn [negb].
    - (* a NUMA group *)
      pose proof (Hvalid g (or_introl eq_refl)) as Hg.
      pose proof Hg as (_ & _ & Hranges & _).
      destruct (check_threads_succeeds g (threadcount v) threads Hranges
                  (Hown g (or_introl eq_refl))) as (t1 & Hcheck & Ht1).
      { destruct Htc as [Htc | [Htc Hfirst]]; [left; exact Htc | right].
        split; [exact Htc|]. intros Hb. rewrite <- Hfirst.
        - rewrite first_threads_cons, Hb. reflexivity.
        - cbn [existsb]. rewrite Hb. reflexivity. }
      destruct (numa_group_succeeds g v t1 Hg (Hdimm g (or_introl eq_refl)) Hcheck Hv)
        as [v1 Hrun].
      exists v1. split; [exact Hrun|].
      assert (Hbefore : threadcount v = -1 \/ 0 < threadcount v)
        by (destruct Htc as [[-> ?] | [-> _]]; auto).
      destruct (numa_group_totals g v v1 Hg Hbefore Hrun) as (_ & _ & _ & _ & _ & _ & _ & M & _).
      assert (Hthread : threadcount v1 = t1).
      { destruct (numa_group_ok _ _ _ Hrun) as (t1' & Hcheck' & Hthread & _). congruence. }
      split.
      + destruct Hv as (mem & nvmem & unplugged & plugged & T).
        destruct (M _ _ _ _ T) as [T' _]. unfold totals_ok. eauto.
      + rewrite Hthread. destruct Ht1 as [Ht1 | [Ht1 Hb]]; [left; exact Ht1 | right].
        split; [exact Ht1|]. intros Hex.
        destruct Htc as [[Htv Hpos] | [_ Hfirst]].
        * destruct (check_threads_cases _ _ _ Hranges Hcheck)
            as [(_ & Heq)|[(Hb' & _)|(Hb' & _)]]; [lia | congruence | congruence].
        * rewrite <- Hfirst; [|cbn [existsb]; rewrite Hb; exact Hex].
          rewrite first_threads_cons, Hb. reflexivity.
    - (* a CXL entry *)
      destruct (Hcxl g (or_introl eq_refl) Hnuma) as [-> Hok].
      destruct (cxl_group_succeeds _ v Hok) as [v1 Hrun].
      exists v1. split; [exact Hrun|].
      destruct (cxl_group_totals _ _ _ Hrun) as (_ & Hthread & _ & _ & M & _).
      split.
      + destruct Hv as (mem & nvmem & unplugged & plugged & T). unfold totals_ok. eauto 10.
      + rewrite Hthread. exact Htc. }
  destruct Hstep as (v1 & -> & Hv1 & Htc1). cbn [bind].
  apply IH; try assumption.
  - intros x Hx. apply Hvalid. right. exact Hx.
  - intros x Hx. apply Hcxl. right. exact Hx.
  - intros x Hx. apply Hdimm. unfold numa_groups. cbn [List.filter].
    destruct (is_numa_group g); [right|]; exact Hx.
  - intros x Hx. apply Hown. unfold numa_groups. cbn [List.filter].
    destruct (is_numa_group g); [right|]; exact Hx.
Qed.

(** The entries of a list the group loop gets through. *)
Lemma groups_loop_entries (numalist : list jobj) (v v' : vars) :
  (forall numaspec, In numaspec numalist -> in_ranges numaspec) ->
  for_each qemuopts_group numalist v = Ok v' ->
  forall numaspec, In numaspec numalist ->
    if is_numa_group numaspec
    then has_memory numaspec = true -> known_dimm (dimm_of numaspec) = true
    else has_other_keys numaspec = false
         /\ is_ok (qemucxlopts (jget_default numaspec "cxl" JNull)) = true.
Proof.
  intros Hranges Hrun g Hg.
  destruct (for_each_ran _ _ _ _ Hrun g Hg) as (s1 & s2 & Hstep).
  unfold qemuopts_group in Hstep.
  assert (Htruthy : truthy (jget_default g "cxl" JNull) = negb (is_numa_group g))
    by (unfold is_numa_group; rewrite negb_involutive; reflexivity).
  rewrite Htruthy in Hstep. destruct (is_numa_group g); cbn [negb] in Hstep.
  - intros Hmem. destruct (known_dimm (dimm_of g)) eqn:Hdimm; [reflexivity|].
    destruct (numa_group_unknown_dimm g s1 (Hranges g Hg) Hmem Hdimm) as [e He].
    congruence.
  - destruct (has_other_keys g); [discriminate|]. split; [reflexivity|].
    unfold cxl_group in Hstep. apply bind_ok in Hstep as (r & -> & _). reflexivity.
Qed.

(** The options are assembled when the distance builder returns a table,
    some group has cores and there is built-in memory. *)
Lemma assemble_succeeds (numalist : list jobj) (v : vars) :
  validate numalist = Ok tt ->
  qemuopts_groups numalist = Ok v ->
  is_ok (dists (numa_groups numalist)) = true ->
  existsb cpu_bearing (numa_groups numalist) = true ->
  sumZ (map group_builtin (numa_groups numalist)) <> 0 ->
  exists o, assemble v = Ok o.
Proof.
  intros Hvalid Hv Hdists Hex Hmem.
  destruct (assemble_memory numalist v Hvalid Hv)
    as (maxmem & startmem & Ha & Hmax & _ & Hstart & Estart & _).
  pose proof (qemuopts_groups_numa _ _ _ Hv) as Hgroups. cbn in Hgroups.
  destruct (cpus_and_sockets numalist v Hvalid Hv Hex) as [Hcpus Hsockets].
  unfold assemble. rewrite Hgroups.
  destruct (dists (numa_groups numalist)) as [dd|e]; [|discriminate]. cbn [bind].
  destruct (Z.eqb_spec (lastcpu (cpuv v)) (-1)) as [|_]; [contradiction|].
  destruct (Z.eqb_spec (last_socket (cpuv v) + 1) 0) as [|_]; [contradiction|].
  rewrite Ha. cbn [bind]. rewrite Hmax. cbn [bind].
  apply bind_ok in Hstart as (b & Hb & Hstart). apply bind_ok in Hstart as (c & Hc & Hstart).
  rewrite Hb. cbn [bind]. rewrite Hc. cbn [bind]. rewrite Hstart. cbn [bind].
  rewrite Estart, startswith_0_gigabytes.
  destruct (Z.eqb_spec (sumZ (map group_builtin (numa_groups numalist))) 0) as [|_];
    [contradiction|].
  eauto.
Qed.

(** Among the lists whose NUMA groups give no distances between nodes,
    [qemuopts] returns options exactly for those described by
    [compilable]. *)
Theorem compiles_iff (numalist : list jobj) :
  (forall numaspec, In numaspec (numa_groups numalist) -> no_distances numaspec) ->
  (exists o, qemuopts numalist = Ok o) <-> compilable numalist.
Proof.
  intros Hdist. split.
  - (* what a list that compiles is like *)
    intros [o H]. unfold qemuopts in H.
    apply bind_ok in H as ([] & Hvalid & H). apply bind_ok in H as (v & Hv & H).
    pose proof (validate_valid_spec _ Hvalid) as Hspecs.
    pose proof (validate_in_ranges _ Hvalid) as Hranges.
    pose proof (groups_loop_entries numalist _ _ Hranges Hv) as Hentries.
    destruct (groups_loop_cpus numalist Hranges qemuopts_init v)
      as (_ & _ & _ & Hfirst & Hown & Hcpu); [left; reflexivity | exact Hv |].
    destruct (assemble_memory numalist v Hvalid Hv)
      as (maxmem & startmem & Ha & Hmax & _ & Hstart & Estart & _).
    apply assemble_ok in H as (Hcpus & _ & _ & a & maxmem' & b & c & startmem'
                               & Ha' & Hmax' & Hb & Hc & Hstart' & Hzero & _).
    assert (Hex : existsb cpu_bearing (numa_groups numalist) = true).
    { destruct (existsb cpu_bearing (numa_groups numalist)) eqn:Hex; [reflexivity|].
      exfalso. apply Hcpus. rewrite Hcpu, sumZ_zero; [reflexivity|].
      intros g Hg. unfold group_cpus.
      destruct (cpu_bearing g) eqn:Hb'; [|reflexivity].
      assert (existsb cpu_bearing (numa_groups numalist) = true)
        by (apply existsb_exists; eauto).
      congruence. }
    split; [exact Hspecs|]. split; [|split; [|split; [|split; [exact Hex|]]]].
    + intros g Hg Hnuma. specialize (Hentries g Hg). rewrite Hnuma in Hentries.
      exact Hentries.
    + intros g Hg. apply filter_In in Hg as [Hg Hnuma].
      specialize (Hentries g Hg). rewrite Hnuma in Hentries. exact Hentries.
    + intros g Hg Hb' Hkey. rewrite (Hown g Hg Hb' Hkey). apply Hfirst; [reflexivity | exact Hex].
    + intros Hnone.
      assert (Ea : a = gigabytes (sumZ (map group_gigabytes (numa_groups numalist))))
        by congruence.
      rewrite Ea in Hmax'. assert (Em : maxmem' = maxmem) by congruence.
      rewrite Em in Hb. rewrite Hb in Hstart. cbn [bind] in Hstart.
      rewrite Hc in Hstart. cbn [bind] in Hstart.
      assert (Es : startmem' = startmem) by congruence.
      rewrite Es, Estart, Hnone in Hzero. discriminate.
  - (* a list like that compiles *)
    intros (Hspecs & Hcxl & Hdimm & Hown & Hex & Hmem).
    assert (Hvalid : validate numalist = Ok tt).
    { unfold validate. apply for_each_unit_ok. intros g Hg. apply validate_spec_iff, Hspecs, Hg. }
    destruct (groups_loop_succeeds (first_threads (numa_groups numalist)) numalist
                Hspecs Hcxl Hdimm Hown qemuopts_init) as [v Hv].
    { right. split; [reflexivity | auto]. }
    { exists 0, 0, 0, 0. exact initial_totals. }
    unfold qemuopts. rewrite Hvalid. cbn [bind].
    fold (qemuopts_groups numalist) in Hv. rewrite Hv. cbn [bind].
    apply (assemble_succeeds numalist v Hvalid Hv); [|exact Hex|exact Hmem].
    destruct (dists_succeeds (numa_groups numalist)) as [dd ->]; [| |reflexivity].
    + apply existsb_exists in Hex as (g & Hg & _). intros Hnil. rewrite Hnil in Hg.
      destruct Hg.
    + intros g Hg. split; [|apply Hdist, Hg].
      apply filter_In in Hg as [Hg _]. apply (Hspecs g Hg).
Qed.

Lemma compiles_iff_witness :
  (exists o, qemuopts mixed_memory = Ok o) <-> compilable mixed_memory.
Proof.
  apply (compiles_iff mixed_memory).
  intros g [<-|[<-|[<-|[]]]]; split; reflexivity.
Defined.

(** ** A [dist-all] matrix of the wrong dimensions *)

Lemma int_keyed_succeeds (items : list (string * jval)) :
  Forall (fun item => is_ok (int_of_str item.1) = true) items ->
  exists row, int_keyed items = Ok row.
Proof.
  intros H. unfold int_keyed. generalize (∅ : gmap Z jval).
  induction H as [|[nodename value] items Hitem _ IH]; intros m; [eexists; reflexivity|].
  cbn [for_each fst] in *. destruct (int_of_str nodename) as [n|]; [|discriminate].
  cbn [bind]. apply IH.
Qed.

Lemma dists_group_node_dist (numaspec : jobj) (v : dvars) :
  in_ranges numaspec -> node_dist_ok numaspec ->
  exists v', dists_group numaspec v = Ok v'.
Proof.
  intros Hranges Hnd. unfold dists_group.
  destruct (in_ranges_int_key numaspec "nodes" 1 _ Hranges eq_refl eq_refl) as [-> _].
  destruct (in_ranges_int_key numaspec "cores" 0 _ Hranges eq_refl eq_refl) as [-> _].
  destruct (in_ranges_int_key numaspec "dies" 1 _ Hranges eq_refl eq_refl) as [-> _].
  destruct (in_ranges_int_key numaspec "packages" 1 _ Hranges eq_refl eq_refl) as [-> _].
  cbn [bind]. unfold node_dist_ok in Hnd.
  destruct (jget numaspec "node-dist") as [nd|]; [|cbn [bind]; eauto].
  destruct nd as [| | | | |items]; try contradiction.
  destruct (int_keyed_succeeds items Hnd) as [row Hrow].
  match goal with
  | |- context [for_each ?body ?l ?s0] =>
      destruct (for_each_succeeds (fun _ => True) body l) with (s := s0) as (nnd & -> & _);
        [|exact I|cbn [bind]; eauto]
  end.
  intros n s _ _. cbn [py_items bind]. rewrite Hrow. cbn [bind]. eauto.
Qed.

(** C8: when the [dist-all] matrix in effect, a list of rows, has a number
    of rows, or a row with a number of columns, that differs from the number
    of compiled nodes, [dists] returns no table: it raises the dimension
    error once its first loop is through.  On a list with these NUMA groups
    [qemuopts] returns no options: it raises the error of [validate], of its
    group loop or of the first loop of [dists] when one of them fails, and
    the dimension error otherwise; it raises the dimension error on every
    list that gets as far as the matrix. *)
Theorem dist_all_wrong_dimensions (numalist : list jobj) (matrix : list (list jval)) :
  effective_dist_all numalist = JList (map JList matrix) ->
  Z.of_nat (length matrix) <> total_nodes numalist
  \/ (exists row, In row matrix /\ Z.of_nat (length row) <> total_nodes numalist) ->
  dists numalist
  = (let* _ := dists_first_pass numalist in
     Err (dimension_error (Z.of_nat (length matrix)) (total_nodes numalist)))
  /\ forall full, numa_groups full = numalist ->
       qemuopts full
       = (let* _ := validate full in
          let* _ := qemuopts_groups full in
          let* _ := dists_first_pass numalist in
          Err (dimension_error (Z.of_nat (length matrix)) (total_nodes numalist)))
       /\ (reaches_dist_all full ->
           qemuopts full
           = Err (dimension_error (Z.of_nat (length matrix)) (total_nodes numalist))).
Proof.
  intros Hmatrix Hwrong.
  assert (Hdists : dists numalist
                   = (let* _ := dists_first_pass numalist in
                      Err (dimension_error (Z.of_nat (length matrix)) (total_nodes numalist)))).
  { unfold dists. destruct (dists_first_pass numalist) as [v|e] eqn:Hv; [|reflexivity].
    cbn [bind].
    destruct (dists_first_pass_nodes _ _ Hv) as (S & P & D & R & L & E & O & M).
    destruct numalist as [|g l]; [discriminate|].
    rewrite (L ltac:(discriminate)), M, Hmatrix.
    destruct (Z.ltb_spec (total_nodes (g :: l)) 0) as [|_]; [lia|].
    cbn [is_none negb]. unfold fill_from_matrix, dimension_error. cbn [py_len py_iter bind].
    rewrite length_map.
    replace (total_nodes (g :: l) - 1 + 1) with (total_nodes (g :: l)) by lia.
    destruct (Z.eqb_spec (Z.of_nat (length matrix)) (total_nodes (g :: l))) as [Hrows|Hrows];
      [|reflexivity].
    cbn [negb]. unfold for_enumerate.
    replace (total_nodes (g :: l)) with (total_nodes (g :: l) - 1 + 1) by lia.
    apply matrix_rows_fail.
    - destruct Hwrong as [|(row & Hin & Hlen)]; [contradiction|].
      exists row. split; [assumption | lia].
    - intros k Hk. apply D. lia. }
  split; [exact Hdists|]. intros full Hfull.
  assert (Hopts : qemuopts full
                  = (let* _ := validate full in
                     let* _ := qemuopts_groups full in
                     let* _ := dists_first_pass numalist in
                     Err (dimension_error (Z.of_nat (length matrix)) (total_nodes numalist)))).
  { unfold qemuopts.
    destruct (validate full) as [[]|e]; cbn [bind]; [|reflexivity].
    destruct (qemuopts_groups full) as [v|e] eqn:Hv; cbn [bind]; [|reflexivity].
    apply qemuopts_groups_numa in Hv. cbn in Hv. rewrite Hfull in Hv.
    unfold assemble. rewrite Hv, Hdists.
    destruct (dists_first_pass numalist); reflexivity. }
  split; [exact Hopts|].
  intros (Hspecs & Hcxl & Hdimm & Hown & Hnd). rewrite Hopts.
  assert (Hvalid : validate full = Ok tt).
  { unfold validate. apply for_each_unit_ok. intros g Hg. apply validate_spec_iff, Hspecs, Hg. }
  rewrite Hvalid. cbn [bind].
  destruct (groups_loop_succeeds (first_threads (numa_groups full)) full
              Hspecs Hcxl Hdimm Hown qemuopts_init) as [v Hv].
  { right. split; [reflexivity | auto]. }
  { exists 0, 0, 0, 0. exact initial_totals. }
  fold (qemuopts_groups full) in Hv. rewrite Hv. cbn [bind].
  destruct (for_each_succeeds (fun _ => True) dists_group numalist) with (s := dists_init)
    as (w & Hw & _); [|exact I|].
  { intros g s Hg _. rewrite <- Hfull in Hg.
    destruct (dists_group_node_dist g s) as [s' Hs]; [| |eauto].
    - apply filter_In in Hg as [Hg _]. apply (Hspecs g Hg).
    - apply Hnd, Hg. }
  fold (dists_first_pass numalist) in Hw. rewrite Hw. reflexivity.
Qed.

Lemma dist_all_wrong_dimensions_witness :
  dists wrong_rows = Err (ValueError WrongDimensionsRow)
  /\ qemuopts wrong_rows = Err (ValueError WrongDimensionsRow)
  /\ qemuopts wrong_rows_unknown_dimm = Err (ValueError UnsupportedDimm).
Proof.
  split; [|split].
  - destruct (dist_all_wrong_dimensions wrong_rows [[JInt 10; JInt 20]; [JInt 20]]) as [H _].
    + vm_compute. reflexivity.
    + right. exists [JInt 20]. split; [right; left; reflexivity | vm_compute; discriminate].
    + rewrite H. vm_compute. reflexivity.
  - destruct (dist_all_wrong_dimensions wrong_rows [[JInt 10; JInt 20]; [JInt 20]]) as [_ H].
    + vm_compute. reflexivity.
    + right. exists [JInt 20]. split; [right; left; reflexivity | vm_compute; discriminate].
    + destruct (H wrong_rows eq_refl) as [-> _]. vm_compute. reflexivity.
  - destruct (dist_all_wrong_dimensions wrong_rows_unknown_dimm [[JInt 10; JInt 20]]) as [_ H].
    + vm_compute. reflexivity.
    + right. exists [JInt 10; JInt 20]. split; [left; reflexivity | vm_compute; discriminate].
    + destruct (H wrong_rows_unknown_dimm eq_refl) as [-> _]. vm_compute. reflexivity.
Defined.

(** C8 (counterexample): a matrix of the wrong dimensions that a later group
    replaces is discarded, and the list compiles with the distances of the
    later matrix. *)
Lemma wrong_dist_all_is_discarded :
  jget (nth 0 wrong_matrix_first []) "dist-all"
  = Some (JList [JList [JInt 10; JInt 20; JInt 30]])
  /\ total_nodes (numa_groups wrong_matrix_first) = 2
  /\ exists o, qemuopts wrong_matrix_first = Ok o
               /\ numa_dist_params o = [(0, 1, JInt 20); (1, 0, JInt 20)].
Proof.
  split; [reflexivity|]. split; [reflexivity|].
  eexists. split; vm_compute; reflexivity.
Qed.

(** ** The numbering of the nodes *)

Lemma listed_snoc {V : Type} (l : list V) (m : gmap Z V) (x : V) :
  listed l m -> listed (l ++ [x]) (<[Z.of_nat (length l) := x]> m).
Proof.
  intros H n. destruct (decide (n = Z.of_nat (length l))) as [->|Hn].
  - rewrite lookup_insert_eq. destruct (Z.leb_spec 0 (Z.of_nat (length l))); [|lia].
    rewrite Nat2Z.id. rewrite lookup_app_r by lia. rewrite Nat.sub_diag. reflexivity.
  - rewrite lookup_insert_ne by congruence. rewrite H.
    destruct (Z.leb_spec 0 n); [|reflexivity].
    destruct (decide (Z.to_nat n < length l)%nat) as [Hlt|Hge].
    + rewrite lookup_app_l by assumption. reflexivity.
    + rewrite !lookup_ge_None_2; [reflexivity | rewrite length_app; cbn; lia | lia].
Qed.

Lemma listed_some_snoc {V : Type} (l : list (option V)) (m : gmap Z V) (x : V) :
  listed_some l m -> listed_some (l ++ [Some x]) (<[Z.of_nat (length l) := x]> m).
Proof.
  intros H n. destruct (decide (n = Z.of_nat (length l))) as [->|Hn].
  - rewrite lookup_insert_eq. destruct (Z.leb_spec 0 (Z.of_nat (length l))); [|lia].
    rewrite Nat2Z.id. rewrite lookup_app_r by lia. rewrite Nat.sub_diag. reflexivity.
  - rewrite lookup_insert_ne by congruence. rewrite H.
    destruct (Z.leb_spec 0 n); [|reflexivity].
    destruct (decide (Z.to_nat n < length l)%nat) as [Hlt|Hge].
    + rewrite lookup_app_l by assumption. reflexivity.
    + rewrite !lookup_ge_None_2; [reflexivity | rewrite length_app; cbn; lia | lia].
Qed.

Lemma listed_some_none {V : Type} (l : list (option V)) (m : gmap Z V) (k : nat) :
  listed_some l m -> listed_some (l ++ repeat None k) m.
Proof.
  intros H n. rewrite H. destruct (Z.leb_spec 0 n); [|reflexivity].
  destruct (decide (Z.to_nat n < length l)%nat) as [Hlt|Hge].
  - rewrite lookup_app_l by assumption. reflexivity.
  - rewrite lookup_app_r by lia. rewrite lookup_ge_None_2 by lia. cbn.
    destruct (repeat None k !! (Z.to_nat n - length l)%nat) as [y|] eqn:Hy; [|reflexivity].
    apply list_elem_of_lookup_2, list_elem_of_In, repeat_spec in Hy. subst y. reflexivity.
Qed.

Lemma dists_node_placed (socket die : Z) (l : list (Z * Z)) (t : topo) :
  placed socket l t -> placed socket (l ++ [(socket, die)]) (dists_node die t).
Proof.
  intros (Hlen & Hsocket & Hlisted). unfold placed, dists_node.
  cbn [sourcenode lastsocket node_package_die].
  split; [rewrite length_app; cbn [length]; lia|]. split; [exact Hsocket|].
  rewrite Hsocket, Hlen. apply listed_snoc, Hlisted.
Qed.

(** A loop over [a, a + 1, ...] whose body adds the places [f i] of its
    round [i] and takes the socket counter from [socket i] to
    [socket (i + 1)]. *)
Lemma fold_left_placed (socket : Z -> Z) (f : Z -> list (Z * Z)) (body : Z -> topo -> topo)
  (k : nat) :
  forall a l t,
    (forall i l t, a <= i < a + Z.of_nat k -> placed (socket i) l t ->
                   placed (socket (i + 1)) (l ++ f i) (body i t)) ->
    placed (socket a) l t ->
    placed (socket (a + Z.of_nat k))
           (l ++ flat_map f (seqZ a (Z.of_nat k)))
           (fold_left (fun t i => body i t) (seqZ a (Z.of_nat k)) t).
Proof.
  induction k as [|k IH]; intros a l t Hbody Ht.
  - cbn. rewrite app_nil_r, Z.add_0_r. exact Ht.
  - rewrite seqZ_cons by lia. cbn [flat_map fold_left].
    replace (Z.pred (Z.of_nat (S k))) with (Z.of_nat k) by lia.
    replace (a + Z.of_nat (S k)) with (Z.succ a + Z.of_nat k) by lia.
    rewrite app_assoc. apply IH.
    + intros i l' t' Hi. apply Hbody. lia.
    + apply Hbody; [lia | exact Ht].
Qed.

Lemma for_range_placed (socket : Z -> Z) (f : Z -> list (Z * Z)) (body : Z -> topo -> topo)
  (n : Z) (l : list (Z * Z)) (t : topo) :
  0 <= n ->
  (forall i l t, 0 <= i < n -> placed (socket i) l t ->
                 placed (socket (i + 1)) (l ++ f i) (body i t)) ->
  placed (socket 0) l t ->
  placed (socket n) (l ++ flat_map f (range n)) (for_range n body t).
Proof.
  intros Hn Hbody Ht. unfold for_range, range.
  pose proof (fold_left_placed socket f body (Z.to_nat n) 0 l t) as H.
  rewrite Z2Nat.id in H by lia. cbn [Z.add] in H. apply H; [|exact Ht].
  intros i l' t' Hi. apply Hbody. lia.
Qed.

Lemma flat_map_singleton {A B : Type} (x : B) (l : list A) :
  flat_map (fun _ => [x]) l = repeat x (length l).
Proof. induction l as [|y l IH]; [reflexivity|]. cbn. rewrite IH. reflexivity. Qed.

(** One package of a group. *)
Lemma dists_package_placed (socket nodecount diecount : Z) (l : list (Z * Z)) (t : topo) :
  0 < nodecount -> 0 <= diecount ->
  placed socket l t ->
  placed (socket + 1)
         (l ++ flat_map (fun die => repeat (socket + 1, die) (Z.to_nat nodecount))
                        (range diecount))
         (dists_package nodecount diecount t).
Proof.
  intros Hn Hd (Hlen & Hsocket & Hlisted). unfold dists_package.
  destruct (Z.ltb_spec 0 nodecount) as [_|]; [|lia]. cbv zeta.
  apply (for_range_placed (fun _ => socket + 1)); [assumption| |].
  - intros die l1 t1 _ H1.
    pose proof (for_range_placed (fun _ => socket + 1) (fun _ => [(socket + 1, die)])
                  (fun _ t => dists_node die t) nodecount l1 t1) as H.
    rewrite flat_map_singleton in H. unfold range in H. rewrite length_seqZ in H.
    apply H; [lia | | exact H1].
    intros i l2 t2 _ H2. apply dists_node_placed, H2.
  - unfold placed. cbn [sourcenode lastsocket node_package_die].
    split; [exact Hlen|]. split; [rewrite Hsocket; reflexivity | exact Hlisted].
Qed.

(** The packages of a group. *)
Lemma dists_packages_placed (socket : Z) (numaspec : jobj) (l : list (Z * Z)) (t : topo) :
  in_ranges numaspec ->
  placed socket l t ->
  placed (socket + int_key numaspec "packages" 1)
         (l ++ group_places socket numaspec)
         (for_range (int_key numaspec "packages" 1)
                    (fun _ t => dists_package (int_key numaspec "nodes" 1)
                                              (int_key numaspec "dies" 1) t) t).
Proof.
  intros Hranges Ht.
  destruct (in_ranges_int_key numaspec "packages" 1 _ Hranges eq_refl eq_refl) as [_ Hp].
  destruct (in_ranges_int_key numaspec "dies" 1 _ Hranges eq_refl eq_refl) as [_ Hd].
  destruct (in_ranges_int_key numaspec "nodes" 1 _ Hranges eq_refl eq_refl) as [_ Hn].
  apply Z.ltb_lt in Hp, Hd, Hn. unfold group_places.
  apply (for_range_placed (fun package => socket + package)); [lia| |].
  - intros package l1 t1 _ H1.
    replace (socket + (package + 1)) with (socket + package + 1) by lia.
    replace (socket + 1 + package) with (socket + package + 1) by lia.
    apply dists_package_placed; [lia | lia | exact H1].
  - rewrite Z.add_0_r. exact Ht.
Qed.

(** The [node-dist] loop of a group. *)
Lemma insert_loop (row : gmap Z jval) (k : nat) :
  forall rows nnd nnd',
    listed_some rows nnd ->
    for_each (fun n nnd => Ok (<[n := row]> nnd))
             (seqZ (Z.of_nat (length rows)) (Z.of_nat k)) nnd = Ok nnd' ->
    listed_some (rows ++ repeat (Some row) k) nnd'.
Proof.
  induction k as [|k IH]; intros rows nnd nnd' Hrows H.
  - inversion H; subst. cbn [repeat]. rewrite app_nil_r. exact Hrows.
  - rewrite seqZ_cons in H by lia. cbn [for_each bind] in H.
    replace (Z.pred (Z.of_nat (S k))) with (Z.of_nat k) in H by lia.
    cbn [repeat]. change (Some row :: repeat (Some row) k)
      with ([Some row] ++ repeat (Some row) k).
    rewrite app_assoc. apply (IH _ (<[Z.of_nat (length rows) := row]> nnd)).
    + apply listed_some_snoc, Hrows.
    + rewrite length_app. cbn [length].
      replace (Z.of_nat (length rows + 1)) with (Z.succ (Z.of_nat (length rows))) by lia.
      exact H.
Qed.

Lemma node_dist_loop (nd : jval) (row : gmap Z jval) (k : nat) :
  (let* items := py_items nd in int_keyed items) = Ok row ->
  forall rows nnd nnd',
    listed_some rows nnd ->
    for_each (fun n nnd =>
                let* items := py_items nd in
                let* row := int_keyed items in
                Ok (<[n := row]> nnd))
             (seqZ (Z.of_nat (length rows)) (Z.of_nat k)) nnd = Ok nnd' ->
    listed_some (rows ++ repeat (Some row) k) nnd'.
Proof.
  intros Hrow rows nnd nnd' Hrows H. apply bind_ok in Hrow as (items & Hitems & Hrow).
  rewrite Hitems in H. cbn [bind] in H. rewrite Hrow in H. cbn [bind] in H.
  exact (insert_loop row k rows nnd nnd' Hrows H).
Qed.

(** One group in the first loop of [dists]. *)
Lemma dists_group_numbering (numaspec : jobj) (v v' : dvars) (socket : Z)
  (l : list (Z * Z)) (rows : list (option (gmap Z jval))) :
  in_ranges numaspec ->
  dists_group numaspec v = Ok v' ->
  placed socket l (topology v) ->
  length rows = length l ->
  listed_some rows (node_node_dist v) ->
  placed (socket + int_key numaspec "packages" 1) (l ++ group_places socket numaspec)
         (topology v')
  /\ length (rows ++ repeat (group_row numaspec) (Z.to_nat (group_node_count numaspec)))
     = length (l ++ group_places socket numaspec)
  /\ listed_some (rows ++ repeat (group_row numaspec)
                                 (Z.to_nat (group_node_count numaspec)))
                 (node_node_dist v')
  /\ dist_same_die v'
     = match jget numaspec "dist-same-die" with Some x => x | None => dist_same_die v end
  /\ dist_same_package v'
     = match jget numaspec "dist-same-package" with
       | Some x => x | None => dist_same_package v end.
Proof.
  intros Hranges H Hplaced Hlen Hrows.
  destruct (dists_group_ok _ _ _ H) as ((_ & Hgrown & _) & _).
  pose proof (dists_packages_placed socket numaspec l (topology v) Hranges Hplaced) as Hp.
  unfold dists_group in H.
  apply bind_ok in H as (n & En & H). apply bind_ok in H as (c & Ec & H).
  apply bind_ok in H as (d & Ed & H). apply bind_ok in H as (p & Ep & H).
  apply bind_ok in H as (nnd & Hnnd & H).
  apply int_key_ok in En, Ec, Ed, Ep. subst n c d p.
  inversion H; subst; clear H. cbn [topology node_node_dist dist_same_die dist_same_package] in *.
  assert (Hcount : length (l ++ group_places socket numaspec)
                   = (length l + Z.to_nat (group_node_count numaspec))%nat).
  { destruct Hp as (Hlen' & _). destruct Hplaced as (Hlen0 & _).
    rewrite length_app in *. lia. }
  split; [exact Hp|]. split; [rewrite length_app, repeat_length; lia|].
  split; [|split; reflexivity].
  unfold group_row. destruct (jget numaspec "node-dist") as [nd|].
  - destruct Hplaced as (Hlen0 & _). destruct Hp as (Hlen' & _).
    unfold range2 in Hnnd.
    replace (sourcenode (topology v) + 1) with (Z.of_nat (length rows)) in Hnnd by lia.
    match type of Hnnd with
    | for_each _ (seqZ _ ?k) _ = _ =>
        replace k with (Z.of_nat (Z.to_nat (group_node_count numaspec))) in Hnnd by lia
    end.
    destruct (let* items := py_items nd in int_keyed items) as [row|e] eqn:Hrow.
    + apply (node_dist_loop nd row _ Hrow rows (node_node_dist v) nnd Hrows Hnnd).
    + exfalso. assert (Hpos : 0 < group_node_count numaspec).
      { destruct (in_ranges_int_key numaspec "packages" 1 _ Hranges eq_refl eq_refl) as [_ Hp'].
        destruct (in_ranges_int_key numaspec "dies" 1 _ Hranges eq_refl eq_refl) as [_ Hd'].
        destruct (in_ranges_int_key numaspec "nodes" 1 _ Hranges eq_refl eq_refl) as [_ Hn'].
        apply Z.ltb_lt in Hp', Hd', Hn'. unfold group_node_count. nia. }
      rewrite seqZ_cons in Hnnd by lia. cbn [for_each] in Hnnd.
      apply bind_ok in Hnnd as (nnd1 & H1 & _).
      destruct (py_items nd) as [items|]; cbn [bind] in *; [|discriminate].
      destruct (int_keyed items); cbn [bind] in *; discriminate.
  - inversion Hnnd; subst. apply listed_some_none, Hrows.
Qed.

(** The first loop of [dists] on a validated list. *)
Lemma first_pass_numbering (numalist : list jobj) :
  (forall numaspec, In numaspec numalist -> in_ranges numaspec) ->
  forall v v' socket l rows,
    for_each dists_group numalist v = Ok v' ->
    placed socket l (topology v) ->
    length rows = length l ->
    listed_some rows (node_node_dist v) ->
    listed (l ++ places_from socket numalist) (node_package_die (topology v'))
    /\ listed_some (rows ++ node_rows numalist) (node_node_dist v')
    /\ dist_same_die v' = effective_key "dist-same-die" (dist_same_die v) numalist
    /\ dist_same_package v'
       = effective_key "dist-same-package" (dist_same_package v) numalist.
Proof.
  induction numalist as [|g numalist IH]; intros Hranges v v' socket l rows H Hplaced Hlen Hrows.
  - inversion H; subst. cbn. rewrite !app_nil_r.
    destruct Hplaced as (_ & _ & Hlisted). auto.
  - cbn [for_each] in H. apply bind_ok in H as (v1 & H1 & H2).
    destruct (dists_group_numbering g v v1 socket l rows (Hranges g (or_introl eq_refl))
                H1 Hplaced Hlen Hrows) as (P1 & L1 & R1 & D1 & K1).
    destruct (IH (fun x Hx => Hranges x (or_intror Hx)) v1 v' _ _ _ H2 P1 L1 R1)
      as (P & R & D & K).
    cbn [places_from]. unfold node_rows, effective_key. cbn [flat_map fold_left].
    fold (node_rows numalist). rewrite !app_assoc.
    split; [exact P|]. split; [exact R|].
    split; [rewrite D, D1 | rewrite K, K1]; reflexivity.
Qed.

Lemma listed_nil {V : Type} : listed (@nil V) ∅.
Proof. intros n. rewrite lookup_empty. destruct (0 <=? n); reflexivity. Qed.

Lemma listed_some_nil {V : Type} : listed_some (@nil (option V)) ∅.
Proof. intros n. rewrite lookup_empty. destruct (0 <=? n); reflexivity. Qed.

(** What the first loop of [dists] leaves for the second part: the places
    and the [node-dist] rows of the nodes, and the distances of the
    topology. *)
Lemma first_pass_variables (numalist : list jobj) (v : dvars) :
  validate numalist = Ok tt ->
  dists_first_pass numalist = Ok v ->
  (forall i j, 0 <= i -> get2 (node_node_dist v) i j = override numalist i j)
  /\ (forall i j, 0 <= i < total_nodes numalist -> 0 <= j < total_nodes numalist ->
        topology_dist v i j = Ok (place_dist numalist i j)).
Proof.
  intros Hvalid Hv. pose proof (validate_in_ranges _ Hvalid) as Hranges.
  destruct (first_pass_numbering numalist Hranges dists_init v (-1) [] [] Hv)
    as (P & R & D & K).
  { split; [reflexivity|]. split; [reflexivity | apply listed_nil]. }
  { reflexivity. }
  { apply listed_some_nil. }
  cbn [app dists_init dist_same_die dist_same_package] in P, R, D, K.
  fold (places numalist) in P.
  destruct (dists_first_pass_nodes _ _ Hv) as (_ & _ & Dom & _ & _ & _ & O & _).
  assert (Hkeys : same_keys (topology v)).
  { unfold dists_first_pass in Hv.
    apply (for_each_keeps (fun w => same_keys (topology w)) dists_group numalist)
      with (s := dists_init) (s' := v); [| |exact Hv].
    - intros g w w' _ Hw Hrun. exact (dists_group_same_keys g w w' Hrun Hw).
    - intros k. cbn [dists_init topology node_package_die dist_dict].
      rewrite !lookup_empty. split; intros [x Hx]; discriminate. }
  split.
  - intros i j Hi. unfold get2, override. rewrite R.
    destruct (Z.leb_spec 0 i) as [_|]; [|lia].
    destruct (node_rows numalist !! Z.to_nat i) as [[row|]|]; reflexivity.
  - intros i j Hi Hj. unfold topology_dist, lookup_or_keyerror, place_dist.
    destruct (proj2 (Hkeys i) (proj2 (Dom i) Hi)) as [p Hp].
    destruct (proj2 (Hkeys j) (proj2 (Dom j) Hj)) as [q Hq].
    rewrite Hp, Hq. cbn [bind].
    rewrite P in Hp, Hq.
    destruct (Z.leb_spec 0 i) as [_|]; [|lia]. destruct (Z.leb_spec 0 j) as [_|]; [|lia].
    rewrite Hp, Hq, D, K, O.
    destruct ((p.1 =? q.1) && (p.2 =? q.2))%bool; [|destruct (p.1 =? q.1)]; reflexivity.
Qed.

(** Without a [dist-all] matrix, the distance of every two nodes of a
    validated list is the one read off the list: 10 from a node to itself;
    else what the group of the higher-numbered node gives for the
    lower-numbered one in its [node-dist]; else what the group of the
    lower-numbered node gives for the higher-numbered one; else the distance
    of the topology, the nodes being numbered group by group, package by
    package and die by die. *)
Theorem distances_from_input (numalist : list jobj) (dd : dist_table) :
  validate numalist = Ok tt ->
  effective_dist_all numalist = JNull ->
  dists numalist = Ok dd ->
  forall i j, 0 <= i < total_nodes numalist -> 0 <= j < total_nodes numalist ->
    get2 dd i j = Some (input_dist numalist i j).
Proof.
  intros Hvalid Hnone Hrun i j Hi Hj. unfold dists in Hrun.
  apply bind_ok in Hrun as (v & Hv & Hrun).
  destruct (first_pass_variables numalist v Hvalid Hv) as [Hover Htopo].
  destruct (dists_first_pass_nodes _ _ Hv) as (S & P & D & R & L & E & O & M).
  destruct (Z.ltb_spec (lastnode_in_group v) 0) as [|Hlast]; [discriminate|].
  rewrite M, Hnone in Hrun. cbn [is_none negb] in Hrun.
  destruct numalist as [|g l]; [rewrite (E eq_refl) in Hlast; lia|].
  rewrite (L ltac:(discriminate)) in Hrun.
  pose proof (fill_from_topology_filled v _ _ _ P
                (filled_initial v _ _ (get2_empty_rows _ R)) Hrun) as Hfilled.
  assert (Hentry : exists x, expected_dist v i j = Ok x /\ get2 dd i j = Some x).
  { destruct (Hfilled i j Hi Hj) as [Hsame Hdiff]. unfold before in *.
    destruct (decide (i = j)) as [<-|Hne].
    - destruct (Hsame eq_refl) as [A _]. exists (JInt DEFAULT_DIST_SAME_NODE).
      split; [|apply A; lia]. unfold expected_dist. rewrite Z.eqb_refl. reflexivity.
    - destruct (Hdiff Hne) as (A & _). apply A; lia. }
  destruct Hentry as (x & Hx & ->). f_equal.
  unfold expected_dist in Hx. unfold input_dist.
  destruct (i =? j); [congruence|].
  rewrite !Hover in Hx by lia. rewrite (Htopo i j Hi Hj) in Hx.
  destruct (override (g :: l) (Z.max i j) (Z.min i j)); [congruence|].
  destruct (override (g :: l) (Z.min i j) (Z.max i j)); congruence.
Qed.

Lemma distances_from_input_witness :
  get2 (table_of (dists two_packages_of_two_dies)) 1 4
  = Some (input_dist two_packages_of_two_dies 1 4).
Proof.
  assert (Htotal : total_nodes two_packages_of_two_dies = 5) by (vm_compute; reflexivity).
  apply (distances_from_input two_packages_of_two_dies).
  - vm_compute. reflexivity.
  - vm_compute. reflexivity.
  - vm_compute. reflexivity.
  - lia.
  - lia.
Defined.
